(** * node-mapnik [VectorTile] binding: point query, data loading and export

    A shallow embedding of the parts of [src/mapnik_vector_tile.cpp] that
    decide the behaviour of [query], [queryMany], [addData], [setData],
    [clear], [getData] and of the [VectorTile] constructor, together with
    the properties established about them.

    C++ [double]s are the kernel's binary64 floats; [int], [std::int32_t]
    and [std::uint32_t] are integers with their wrap-around written out;
    exceptions are a sum type; the tile object is threaded explicitly; the
    calls into mapnik, mapnik-vector-tile, zlib and the standard library
    are parameters, recorded in a trace where a property is about them.

    Part I is the program, Part II the vocabulary the properties are
    stated in, Part III a concrete instance of the parameters with
    concrete tiles, Part IV the properties and their proofs.  Part III is
    continued with more of the binding: the method [query], the
    asynchronous [getData] and [clear], the properties object and the
    geometry arrays of [toJSON] and the writers of GeoJSON; Part V holds
    the properties established about these. *)

From stdpp Require Import gmap strings pretty.
From Stdlib Require Import ZArith Lia List Bool String Ascii.
From Stdlib Require Import Permutation Sorted.
From Stdlib Require Import Floats.
Import ListNotations.

Local Open Scope Z_scope.
#[local] Set Warnings "-register-all".

(* ===================================================================== *)
(** * Part I. The program *)
(* ===================================================================== *)

(* ===================================================================== *)
(** ** IEEE-754 comparisons *)
(* ===================================================================== *)

(** The binding never does arithmetic on a distance: it only compares
    distances with each other, with the tolerance and with the constants
    [0] and [-1].  [double] is binary64 with its own [<] and [<=], false
    as soon as a NaN is involved. *)
Module Double.

Definition double := float.
Bind Scope float_scope with double.

Definition ltb (a b : double) : bool := PrimFloat.ltb a b.
Definition leb (a b : double) : bool := PrimFloat.leb a b.
(** C++ [a >= b] *)
Definition geb (a b : double) : bool := PrimFloat.leb b a.
(** C++ [a > b] *)
Definition gtb (a b : double) : bool := PrimFloat.ltb b a.

Definition zero : double := 0%float.
Definition minus_one : double := (-1)%float.

(** A value is ordered when it is not a NaN. *)
Definition ordered (a : double) : bool := leb a a.

(** Rank of an ordered value, read off its sign, exponent and mantissa,
    in a lexicographic order on triples: the class (negative infinity,
    negative finite, zero, positive finite, positive infinity), then
    exponent and mantissa, mirrored for negative numbers.  The order
    lemmas of Part IV go through it. *)
Definition key (f : spec_float) : option (Z * Z * Z) :=
  match f with
  | S754_nan => None
  | S754_infinity true => Some (-2, 0, 0)
  | S754_infinity false => Some (2, 0, 0)
  | S754_zero _ => Some (0, 0, 0)
  | S754_finite true m e => Some (-1, - e, - Z.pos m)
  | S754_finite false m e => Some (1, e, Z.pos m)
  end.

Definition key_le (k1 k2 : Z * Z * Z) : Prop :=
  let '(a1, b1, c1) := k1 in
  let '(a2, b2, c2) := k2 in
  a1 < a2 \/ (a1 = a2 /\ (b1 < b2 \/ (b1 = b2 /\ c1 <= c2))).

Definition key_lt (k1 k2 : Z * Z * Z) : Prop :=
  let '(a1, b1, c1) := k1 in
  let '(a2, b2, c2) := k2 in
  a1 < a2 \/ (a1 = a2 /\ (b1 < b2 \/ (b1 = b2 /\ c1 < c2))).

End Double.

Import Double.

(* ===================================================================== *)
(** ** Geometry model and collaborators                                   *)
(* ===================================================================== *)

(** [mapnik::geometry::point<double>] *)
Record point := mk_point { px : double; py : double }.

Definition line_string := list point.
Definition linear_ring := list point.

(** [mapnik::geometry::polygon<double>] *)
Record polygon := mk_polygon {
  exterior_ring : linear_ring;
  interior_rings : list linear_ring
}.

(** [mapnik::geometry::geometry<double>], the variant the visitor
    [detail::p2p_distance] is applied to. *)
Inductive geometry : Type :=
| geometry_empty
| geometry_point (pt : point)
| geometry_line_string (line : line_string)
| geometry_polygon (poly : polygon)
| geometry_multi_point (pts : list point)
| geometry_multi_line_string (lines : list line_string)
| geometry_multi_polygon (polys : list polygon)
| geometry_collection (geoms : list geometry).

(** [mapnik::feature_impl], as far as the query code looks at it. *)
Record feature := mk_feature {
  feature_id : Z;
  feature_geometry : geometry;
  feature_properties : list (string * string)
}.

(** One layer sub-message of the tile buffer: its encoded bytes and what
    the datasource [tile_datasource_pbf] built on it exposes. *)
Record layer := mk_layer {
  get_name : string;
  layer_bytes : list Byte.byte;
  layer_fields : list string;
  layer_features : list feature
}.

(* ===================================================================== *)
(** ** The tile object                                                     *)
(* ===================================================================== *)

(** Modelled from the spec: [mapnik::vector_tile_impl::merc_tile], the
    Tile Buffer, whose code is not among the sources.  The spec gives it a
    registration (z, x, y, tile_size, buffer_size), a byte buffer holding
    zero or more layer sub-messages, and the derived sets [empty_layers]
    and [painted_layers]. *)
Record merc_tile := mk_merc_tile {
  tile_x : Z;
  tile_y : Z;
  tile_z : Z;
  tile_size : Z;
  buffer_size : Z;
  tile_layers : list layer;
  empty_layers : list string;
  painted_layers : list string
}.

(** Modelled from the spec: the constructor [merc_tile(x, y, z, tile_size,
    buffer_size)]; a new tile holds no layer. *)
Definition new_merc_tile (x y z tsize bsize : Z) : merc_tile :=
  mk_merc_tile x y z tsize bsize [] [] [].

(** Modelled from the spec: [tile::data()], the raw bytes, the layer
    sub-messages one after the other. *)
Definition tile_data (t : merc_tile) : list Byte.byte :=
  List.concat (List.map layer_bytes (tile_layers t)).

(** Modelled from the spec: [tile::size()], the length of the raw bytes. *)
Definition tile_raw_size (t : merc_tile) : nat := List.length (tile_data t).

(** Modelled from the spec: [tile::is_empty()], "no layers or all layers
    empty", a layer being empty when it has no feature. *)
Definition is_empty (t : merc_tile) : bool :=
  forallb (fun l => match layer_features l with [] => true | _ => false end)
          (tile_layers t).

(** Modelled from the spec: [tile::layer_reader(name, layer_msg)], a scan
    of the layer sub-messages for the first one of that name. *)
Definition layer_reader (name : string) (t : merc_tile) : option layer :=
  List.find (fun l => String.eqb (get_name l) name) (tile_layers t).

(** Modelled from the spec: [tile::clear()], "resets to zero layers and
    clears derived sets"; the registration stays. *)
Definition clear (t : merc_tile) : merc_tile :=
  mk_merc_tile (tile_x t) (tile_y t) (tile_z t) (tile_size t) (buffer_size t)
               [] [] [].

(** What() of a C++ exception. *)
Definition exn := string.

(** Calls that leave the binding, in the order they are made. *)
Inductive event : Type :=
| ev_features_at_point (layer : string) (x y tol : double)
| ev_features (layer : string) (fields : list string)
| ev_zlib_compress (size : nat) (level strategy : Z).

(** The functions of mapnik, mapnik-vector-tile, zlib, node and the C++
    standard library that the binding calls and whose code is not among
    the sources: they are parameters of everything below. *)
Class Collaborators := {
  (** [mapnik::distance(x0,y0,x1,y1)] *)
  mapnik_distance : double -> double -> double -> double -> double;
  (** [mapnik::point_to_segment_distance(x,y,ax,ay,bx,by)] *)
  point_to_segment_distance :
    double -> double -> double -> double -> double -> double -> double;
  (** [mapnik::detail::pip(x0,y0,x1,y1,x,y)] *)
  pip : double -> double -> double -> double -> double -> double -> bool;
  (** [mapnik::proj_transform::forward] and [backward] for
      epsg:4326 -> epsg:3857; [None] when the call returns false *)
  tr_forward : double -> double -> option (double * double);
  tr_backward : double -> double -> option (double * double);
  (** [tile_datasource_pbf::features_at_point(pt, tol)]; [None] is a null
      featureset *)
  features_at_point : layer -> double -> double -> double -> option (list feature);
  (** [mapnik::box2d<double>], [expand_to_include] and [pad] *)
  box2d : Type;
  box2d_default : box2d;
  expand_to_include : box2d -> double -> double -> box2d;
  box2d_pad : box2d -> double -> box2d;
  (** [tile_datasource_pbf::features(query)] *)
  ds_features : layer -> box2d -> list string -> option (list feature);
  (** [std::sort(first, last, comp)] *)
  std_sort : forall A : Type, (A -> A -> bool) -> list A -> list A;
  (** [mapnik::vector_tile_impl::zlib_compress] with gzip framing *)
  zlib_compress : list Byte.byte -> Z -> Z -> exn + list Byte.byte;
  (** [node::Buffer::kMaxLength] *)
  kMaxLength : Z;
  (** [mapnik::vector_tile_impl::merge_from_compressed_buffer(tile, data,
      size)]: the tile it leaves and, when it throws, what it throws *)
  merge_from_compressed_buffer : merc_tile -> list Byte.byte -> merc_tile * option exn
}.

(* ===================================================================== *)
(** ** [detail::p2p_distance]                                             *)
(* ===================================================================== *)

Record p2p_result := mk_p2p {
  distance : double;
  x_hit : double;
  y_hit : double
}.

(** The default constructor: [distance(-1), x_hit(0), y_hit(0)]. *)
Definition p2p_default : p2p_result := mk_p2p minus_one zero zero.

(** The update every loop of the visitor makes:
    [if (sub.distance >= 0 && (p2p.distance < 0 || sub.distance < p2p.distance))]
    copy the three fields of [sub]. *)
Definition p2p_update (p2p p2p_sub : p2p_result) : p2p_result :=
  if geb (distance p2p_sub) zero
     && (ltb (distance p2p) zero || ltb (distance p2p_sub) (distance p2p))
  then mk_p2p (distance p2p_sub) (x_hit p2p_sub) (y_hit p2p_sub)
  else p2p.

(** The pairs [(geom[i-1], geom[i])] for [i = 1 .. num_points - 1]. *)
Fixpoint segments (pts : list point) : list (point * point) :=
  match pts with
  | pt0 :: ((pt1 :: _) as rest) => (pt0, pt1) :: segments rest
  | _ => []
  end.

Section P2P.
Context `{C : Collaborators}.
Variables x_ y_ : double.

Definition p2p_point (geom : point) : p2p_result :=
  mk_p2p (mapnik_distance (px geom) (py geom) x_ y_) (px geom) (py geom).

Definition p2p_multi_point (geom : list point) : p2p_result :=
  fold_left (fun p2p pt => p2p_update p2p (p2p_point pt)) geom p2p_default.

Definition p2p_line_string (geom : line_string) : p2p_result :=
  let num_points := List.length geom in
  if (1 <? num_points)%nat then
    fold_left
      (fun p2p '(pt0, pt1) =>
         let dist := point_to_segment_distance x_ y_ (px pt0) (py pt0) (px pt1) (py pt1) in
         if geb dist zero && (ltb (distance p2p) zero || ltb dist (distance p2p))
         then mk_p2p dist (px pt0) (py pt0)
         else p2p)
      (segments geom) p2p_default
  else p2p_default.

Definition p2p_multi_line_string (geom : list line_string) : p2p_result :=
  fold_left (fun p2p line => p2p_update p2p (p2p_line_string line)) geom p2p_default.

(** One pass of the crossing loop over a ring: [inside] is flipped for
    every edge for which [pip] answers true. *)
Definition ring_toggle (ring : linear_ring) (inside : bool) : bool :=
  fold_left
    (fun inside '(pt0, pt1) =>
       if pip (px pt0) (py pt0) (px pt1) (py pt1) x_ y_ then negb inside else inside)
    (segments ring) inside.

Definition p2p_polygon (geom : polygon) : p2p_result :=
  let exterior := exterior_ring geom in
  let num_points := List.length exterior in
  if (num_points <? 4)%nat then p2p_default
  else
    let inside := ring_toggle exterior false in
    if negb inside then p2p_default
    else
      let inside :=
        fold_left
          (fun inside ring =>
             let num_interior_points := List.length ring in
             if (num_interior_points <? 4)%nat then inside
             else ring_toggle ring inside)
          (interior_rings geom) inside in
      if inside then mk_p2p zero (x_hit p2p_default) (y_hit p2p_default)
      else p2p_default.

Definition p2p_multi_polygon (geom : list polygon) : p2p_result :=
  fold_left (fun p2p poly => p2p_update p2p (p2p_polygon poly)) geom p2p_default.

(** [mapnik::util::apply_visitor(p2p_distance(x,y), geom)] *)
Fixpoint p2p_distance (geom : geometry) : p2p_result :=
  match geom with
  | geometry_empty => p2p_default
  | geometry_point pt => p2p_point pt
  | geometry_line_string line => p2p_line_string line
  | geometry_polygon poly => p2p_polygon poly
  | geometry_multi_point pts => p2p_multi_point pts
  | geometry_multi_line_string lines => p2p_multi_line_string lines
  | geometry_multi_polygon polys => p2p_multi_polygon polys
  | geometry_collection geoms =>
      (fix visit (gs : list geometry) (p2p : p2p_result) : p2p_result :=
         match gs with
         | [] => p2p
         | g :: rest => visit rest (p2p_update p2p (p2p_distance g))
         end) geoms p2p_default
  end.

End P2P.

Definition path_to_point_distance `{C : Collaborators}
  (geom : geometry) (x y : double) : p2p_result :=
  p2p_distance x y geom.

(* ===================================================================== *)
(** ** Effects: calls that leave the binding, and C++ exceptions            *)
(* ===================================================================== *)

(** A computation yields the trace of outside calls it made and either
    the exception that ended it or its value. *)
Definition M (A : Type) : Type := (list event * (exn + A))%type.

Definition ret {A : Type} (a : A) : M A := ([], inr a).
Definition throw {A : Type} (e : exn) : M A := ([], inl e).
Definition call (ev : event) : M unit := ([ev], inr tt).

Definition bind {A B : Type} (m : M A) (k : A -> M B) : M B :=
  match m with
  | (t, inl e) => (t, inl e)
  | (t, inr a) => let '(t', r) := k a in (t ++ t', r)
  end.

Notation "'do' x <- m ;; k" := (bind m (fun x => k))
  (at level 10, x name, m at level 99, k at level 200).

Definition outcome_of {A : Type} (m : M A) : exn + A := snd m.

(* ===================================================================== *)
(** ** [VectorTile::_query]                                                *)
(* ===================================================================== *)

Record query_result := mk_query_result {
  qr_layer : string;
  qr_distance : double;
  qr_x_hit : double;
  qr_y_hit : double;
  qr_feature : feature
}.

(** [std::string::empty()] *)
Definition string_empty (s : string) : bool :=
  match s with EmptyString => true | _ => false end.

Definition reproject_error : exn := "could not reproject lon/lat to mercator".

Definition _querySort (a b : query_result) : bool :=
  ltb (qr_distance a) (qr_distance b).

Section Query.
Context `{C : Collaborators}.

(** The loop [while ((feature = fs->next()))] of [_query]; [name] is
    what the branch stores in [res.layer]. *)
Fixpoint query_features (x y tolerance : double) (name : string)
  (fs : list feature) (arr : list query_result) : M (list query_result) :=
  match fs with
  | [] => ret arr
  | feature :: rest =>
      let geom := feature_geometry feature in
      let p2p := path_to_point_distance geom x y in
      match tr_backward (x_hit p2p) (y_hit p2p) with
      | None => throw reproject_error
      | Some (xh, yh) =>
          let arr :=
            if geb (distance p2p) zero && leb (distance p2p) tolerance
            then arr ++ [mk_query_result name (distance p2p) xh yh feature]
            else arr in
          query_features x y tolerance name rest arr
      end
  end.

(** The datasource built on one layer message, its
    [features_at_point(pt, tolerance)] and the loop over the featureset
    when it is not null. *)
Definition query_layer (x y tolerance : double) (name : string)
  (layer_msg : layer) (arr : list query_result) : M (list query_result) :=
  do _ <- call (ev_features_at_point (get_name layer_msg) x y tolerance) ;;
  match features_at_point layer_msg x y tolerance with
  | Some fs => query_features x y tolerance name fs arr
  | None => ret arr
  end.

(** The loop [while (item.next(3))] over every layer of the tile. *)
Fixpoint query_layers (x y tolerance : double) (layers : list layer)
  (arr : list query_result) : M (list query_result) :=
  match layers with
  | [] => ret arr
  | layer_msg :: rest =>
      do arr <- query_layer x y tolerance (get_name layer_msg) layer_msg arr ;;
      query_layers x y tolerance rest arr
  end.

Definition _query (d : merc_tile) (lon lat tolerance : double)
  (layer_name : string) : M (list query_result) :=
  if is_empty d then ret []
  else
    match tr_forward lon lat with
    | None => throw reproject_error
    | Some (x, y) =>
        do arr <- (if negb (string_empty layer_name) then
                  match layer_reader layer_name d with
                  | Some layer_msg => query_layer x y tolerance layer_name layer_msg []
                  | None => ret []
                  end
                else query_layers x y tolerance (tile_layers d) []) ;;
        ret (std_sort _ _querySort arr)
    end.

End Query.

(* ===================================================================== *)
(** ** JavaScript values and the calling convention                        *)
(* ===================================================================== *)

(** The values a method of the binding can be handed. *)
Inductive js_value : Type :=
| JsUndefined
| JsNull
| JsBoolean (b : bool)
| JsNumber (n : double)
| JsString (s : string)
| JsFunction (id : nat)
| JsBuffer (data : list Byte.byte)
| JsArray (items : list js_value)
| JsObject (props : list (string * js_value)).

(** [Nan::ThrowError] and [Nan::ThrowTypeError]. *)
Inductive js_exception : Type :=
| Error (msg : string)
| TypeError (msg : string).

(** How a call of a method ends: with an exception pending, with a value,
    or, for the asynchronous form, with the callback invoked on the error
    or on the value once the queued work is done. *)
Inductive completion (A : Type) : Type :=
| Threw (e : js_exception)
| Returned (a : A)
| CalledBack (callback : js_value) (r : js_exception + A).
Arguments Threw {A} e.
Arguments Returned {A} a.
Arguments CalledBack {A} callback r.

Definition IsNumber (v : js_value) : bool :=
  match v with JsNumber _ => true | _ => false end.
Definition IsString (v : js_value) : bool :=
  match v with JsString _ => true | _ => false end.
Definition IsFunction (v : js_value) : bool :=
  match v with JsFunction _ => true | _ => false end.
Definition IsArray (v : js_value) : bool :=
  match v with JsArray _ => true | _ => false end.
Definition IsNull (v : js_value) : bool :=
  match v with JsNull => true | _ => false end.
Definition IsUndefined (v : js_value) : bool :=
  match v with JsUndefined => true | _ => false end.
Definition IsObject (v : js_value) : bool :=
  match v with
  | JsObject _ | JsArray _ | JsFunction _ | JsBuffer _ => true
  | _ => false
  end.

(** [node::Buffer::HasInstance], [node::Buffer::Data] and
    [node::Buffer::Length] *)
Definition Buffer_HasInstance (v : js_value) : bool :=
  match v with JsBuffer _ => true | _ => false end.
Definition Buffer_Data (v : js_value) : list Byte.byte :=
  match v with JsBuffer data => data | _ => [] end.
Definition Buffer_Length (v : js_value) : Z :=
  Z.of_nat (List.length (Buffer_Data v)).

(** [info.Length()] and [info[i]]; an index outside the arguments reads
    as undefined. *)
Definition Length (info : list js_value) : Z := Z.of_nat (List.length info).
Definition arg (info : list js_value) (i : Z) : js_value :=
  if (i <? 0) then JsUndefined else nth (Z.to_nat i) info JsUndefined.

Fixpoint lookup_prop (key : string) (props : list (string * js_value))
  : option js_value :=
  match props with
  | [] => None
  | (k, v) :: rest => if String.eqb k key then Some v else lookup_prop key rest
  end.

(** [obj->Has(key)] and [obj->Get(key)] *)
Definition Has (obj : js_value) (key : string) : bool :=
  match obj with
  | JsObject props => match lookup_prop key props with Some _ => true | None => false end
  | _ => false
  end.
Definition Get (obj : js_value) (key : string) : js_value :=
  match obj with
  | JsObject props => match lookup_prop key props with Some v => v | None => JsUndefined end
  | _ => JsUndefined
  end.

(** [array->Length()] and [array->Get(i)] *)
Definition Array_items (v : js_value) : list js_value :=
  match v with JsArray items => items | _ => [] end.

Definition INT64_MIN : Z := - 2 ^ 63.
Definition INT64_MAX : Z := 2 ^ 63 - 1.

(** [v->IntegerValue()] of v8: the number truncated toward zero, as an
    [int64_t]; 0 for a NaN, the nearest bound for what lies outside. *)
Definition IntegerValue (v : js_value) : Z :=
  match v with
  | JsNumber n =>
      match Prim2SF n with
      | S754_finite s m e =>
          let mag := if 0 <=? e then Z.pos m * 2 ^ e else Z.pos m / 2 ^ (- e) in
          let i := if s then - mag else mag in
          Z.max INT64_MIN (Z.min INT64_MAX i)
      | S754_infinity s => if s then INT64_MIN else INT64_MAX
      | _ => 0
      end
  | _ => 0
  end.

(** [v->NumberValue()] *)
Definition NumberValue (v : js_value) : double :=
  match v with JsNumber n => n | _ => PrimFloat.nan end.

(** [TOSTR(v)] *)
Definition TOSTR (v : js_value) : string :=
  match v with JsString s => s | _ => EmptyString end.

(** Conversion to a 32-bit [int] or [std::int32_t]: two's complement
    wrap-around. *)
Definition to_int32 (z : Z) : Z := (z + 2 ^ 31) mod 2 ^ 32 - 2 ^ 31.

(** Conversion to [std::uint32_t]. *)
Definition to_uint32 (z : Z) : Z := z mod 2 ^ 32.

(* ===================================================================== *)
(** ** [VectorTile::New]                                                   *)
(* ===================================================================== *)

(** The options object of the constructor: [tile_size], then
    [buffer_size], each read when present. *)
Definition New_options (options : js_value) : js_exception + (Z * Z) :=
  let tile_size := 4096 in
  let buffer_size := 128 in
  match
    (if Has options "tile_size" then
       let opt := Get options "tile_size" in
       if negb (IsNumber opt) then
         inl (TypeError "optional arg 'tile_size' must be a number")
       else
         let tile_size_tmp := to_int32 (IntegerValue opt) in
         if tile_size_tmp <=? 0 then
           inl (TypeError "optional arg 'tile_size' must be greater then zero")
         else inr (to_uint32 tile_size_tmp)
     else inr tile_size)
  with
  | inl e => inl e
  | inr tile_size =>
      if Has options "buffer_size" then
        let opt := Get options "buffer_size" in
        if negb (IsNumber opt) then
          inl (TypeError "optional arg 'buffer_size' must be a number")
        else inr (tile_size, to_int32 (IntegerValue opt))
      else inr (tile_size, buffer_size)
  end.

(** The guard [static_cast<double>(tile_size) + (2 * buffer_size) <= 0].
    The product is formed in [int] before the conversion to [double]; the
    sum of a [uint32_t] and an [int] is exact in binary64, so the
    comparison is the one on integers. *)
Definition buffer_too_negative (tile_size buffer_size : Z) : bool :=
  tile_size + to_int32 (2 * buffer_size) <=? 0.

Definition New (is_construct_call : bool) (info : list js_value)
  : js_exception + merc_tile :=
  if negb is_construct_call then
    inl (Error "Cannot call constructor as function, you need to use 'new' keyword")
  else if Length info <? 3 then
    inl (Error "please provide a z, x, y")
  else if negb (IsNumber (arg info 0)) || negb (IsNumber (arg info 1))
          || negb (IsNumber (arg info 2)) then
    inl (TypeError "required parameters (z, x, and y) must be a integers")
  else
    let z := to_int32 (IntegerValue (arg info 0)) in
    let x := to_int32 (IntegerValue (arg info 1)) in
    let y := to_int32 (IntegerValue (arg info 2)) in
    if (z <? 0) || (x <? 0) || (y <? 0) then
      inl (TypeError "required parameters (z, x, and y) must be greater then or equal to zero")
    else
      match
        (if 3 <? Length info then
           if negb (IsObject (arg info 3)) then
             inl (TypeError "optional fourth argument must be an options object")
           else New_options (arg info 3)
         else inr (4096, 128))
      with
      | inl e => inl e
      | inr (tile_size, buffer_size) =>
          if buffer_too_negative tile_size buffer_size then
            inl (Error "too large of a negative buffer for tilesize")
          else inr (new_merc_tile x y z tile_size buffer_size)
      end.

(** [set_buffer_size], the setter of the [bufferSize] property: here the
    product [2 * val] is formed in [double]. *)
Definition set_buffer_size_rejects (tile_size : Z) (val : double) : bool :=
  PrimFloat.leb
    (PrimFloat.add (PrimFloat.of_uint63 (Uint63.of_Z tile_size))
                   (PrimFloat.mul 2 val)) 0.

(* ===================================================================== *)
(** ** [VectorTile::queryMany]                                             *)
(* ===================================================================== *)

Record query_lonlat := mk_query_lonlat { lon : double; lat : double }.

Record query_hit := mk_query_hit {
  hit_distance : double;
  hit_feature_id : nat
}.

(** [std::map<unsigned,query_result>] and
    [std::map<unsigned,std::vector<query_hit>>] *)
Record queryMany_result := mk_queryMany_result {
  qm_features : gmap nat query_result;
  qm_hits : gmap nat (list query_hit)
}.

Definition _queryManySort (a b : query_hit) : bool :=
  ltb (hit_distance a) (hit_distance b).

Definition layer_not_found : exn := "Could not find layer in vector tile".

(** [std::map::insert]: an existing key keeps its value. *)
Definition map_insert {V : Type} (k : nat) (v : V) (m : gmap nat V) : gmap nat V :=
  match m !! k with
  | Some _ => m
  | None => <[k := v]> m
  end.

Section QueryMany.
Context `{C : Collaborators}.

(** The loop that projects the query points and grows the bounding box. *)
Fixpoint project_points (query : list query_lonlat) (bbox : box2d)
  (points : list point) : M (box2d * list point) :=
  match query with
  | [] => ret (bbox, points)
  | q :: rest =>
      match tr_forward (lon q) (lat q) with
      | None => throw reproject_error
      | Some (x, y) =>
          project_points rest (expand_to_include bbox x y) (points ++ [mk_point x y])
      end
  end.

(** The loop over the query points for one feature; [p] counts the
    points already tested. *)
Fixpoint test_points (tolerance : double) (name : string) (feature : feature)
  (idx : nat) (points : list point) (p : nat)
  (st : bool * gmap nat query_result * gmap nat (list query_hit))
  : bool * gmap nat query_result * gmap nat (list query_hit) :=
  match points with
  | [] => st
  | pt :: rest =>
      let '(has_hit, features, hits) := st in
      let geom := feature_geometry feature in
      let p2p := path_to_point_distance geom (px pt) (py pt) in
      let st :=
        if geb (distance p2p) zero && leb (distance p2p) tolerance then
          let res := mk_query_result name zero zero zero feature in
          let hit := mk_query_hit (distance p2p) idx in
          let features := map_insert idx res features in
          let hits :=
            match hits !! p with
            | None => map_insert p [hit] hits
            | Some pointHits => <[p := pointHits ++ [hit]]> hits
            end in
          (true, features, hits)
        else st in
      test_points tolerance name feature idx rest (S p) st
  end.

(** The loop [while ((feature = fs->next()))]. *)
Fixpoint collect_hits (tolerance : double) (name : string) (points : list point)
  (fs : list feature) (idx : nat)
  (features : gmap nat query_result) (hits : gmap nat (list query_hit))
  : gmap nat query_result * gmap nat (list query_hit) :=
  match fs with
  | [] => (features, hits)
  | feature :: rest =>
      let '(has_hit, features, hits) :=
        test_points tolerance name feature idx points 0%nat (false, features, hits) in
      collect_hits tolerance name points rest (if has_hit then S idx else idx)
                   features hits
  end.

Definition _queryMany (d : merc_tile) (query : list query_lonlat)
  (tolerance : double) (layer_name : string) (fields : list string)
  : M queryMany_result :=
  match layer_reader layer_name d with
  | None => throw layer_not_found
  | Some layer_msg =>
      do projected <- project_points query box2d_default [] ;;
      let '(bbox, points) := projected in
      let bbox := box2d_pad bbox tolerance in
      let names :=
        match fields with
        | [] => layer_fields layer_msg
        | _ => fields
        end in
      do _ <- call (ev_features (get_name layer_msg) names) ;;
      let '(features, hits) :=
        match ds_features layer_msg bbox names with
        | Some fs =>
            collect_hits tolerance (get_name layer_msg) points fs 0%nat empty empty
        | None => (empty, empty)
        end in
      let hits := fmap (std_sort _ _queryManySort) hits in
      ret (mk_queryMany_result features hits)
  end.

(** The conversion of the query array: every item must be an array whose
    first two entries are numbers. *)
Fixpoint convert_query (items : list js_value) : js_exception + list query_lonlat :=
  match items with
  | [] => inr []
  | item :: rest =>
      if negb (IsArray item) then inl (Error "non-array item encountered")
      else
        let lon := nth 0 (Array_items item) JsUndefined in
        let lat := nth 1 (Array_items item) JsUndefined in
        if negb (IsNumber lon) || negb (IsNumber lat) then
          inl (Error "lng lat must be numbers")
        else
          match convert_query rest with
          | inl e => inl e
          | inr query => inr (mk_query_lonlat (NumberValue lon) (NumberValue lat) :: query)
          end
  end.

(** The options of [queryMany]: tolerance, layer name and fields. *)
Definition queryMany_options (options : js_value)
  : js_exception + (double * string * list string) :=
  match
    (if Has options "tolerance" then
       let tol := Get options "tolerance" in
       if negb (IsNumber tol) then inl (TypeError "tolerance value must be a number")
       else inr (NumberValue tol)
     else inr zero)
  with
  | inl e => inl e
  | inr tolerance =>
      match
        (if Has options "layer" then
           let layer_id := Get options "layer" in
           if negb (IsString layer_id) then inl (TypeError "layer value must be a string")
           else inr (TOSTR layer_id)
         else inr EmptyString)
      with
      | inl e => inl e
      | inr layer_name =>
          if Has options "fields" then
            let param_val := Get options "fields" in
            if negb (IsArray param_val) then
              inl (TypeError "option 'fields' must be an array of strings")
            else
              inr (tolerance, layer_name,
                   List.map TOSTR (List.filter IsString (Array_items param_val)))
          else inr (tolerance, layer_name, [])
      end
  end.

(** An exception of the worker becomes [Nan::ThrowError(ex.what())] in
    the synchronous form and the callback's error in the asynchronous. *)
Definition finish {A : Type} (info : list js_value) (r : exn + A) : completion A :=
  let last := arg info (Length info - 1) in
  if negb (IsFunction last) then
    match r with
    | inl what => Threw (Error what)
    | inr a => Returned a
    end
  else
    match r with
    | inl what => CalledBack last (inl (Error what))
    | inr a => CalledBack last (inr a)
    end.

Definition queryMany (d : merc_tile) (info : list js_value)
  : list event * completion queryMany_result :=
  if (Length info <? 2) || negb (IsArray (arg info 0)) then
    ([], Threw (Error "expects lon,lat info + object with layer property referring to a layer name"))
  else
    match convert_query (Array_items (arg info 0)) with
    | inl e => ([], Threw e)
    | inr query =>
        if negb (IsObject (arg info 1)) then
          ([], Threw (TypeError "optional second argument must be an options object"))
        else
          match queryMany_options (arg info 1) with
          | inl e => ([], Threw e)
          | inr (tolerance, layer_name, fields) =>
              if string_empty layer_name then
                ([], Threw (TypeError "options.layer is required"))
              else
                let '(trace, r) := _queryMany d query tolerance layer_name fields in
                (trace, finish info r)
          end
    end.

End QueryMany.

(* ===================================================================== *)
(** ** [addData], [setData] and [clear]                                    *)
(* ===================================================================== *)

Definition empty_buffer_error : string := "cannot accept empty buffer as protobuf".

Section Data.
Context `{C : Collaborators}.

(** The [try] block around [merge_from_compressed_buffer]: what the tile
    is afterwards and the exception caught, if any. *)
Definition try_merge (d : merc_tile) (data : list Byte.byte) : merc_tile * option exn :=
  merge_from_compressed_buffer d data.

Definition _addDataSync (d : merc_tile) (info : list js_value)
  : merc_tile * completion unit :=
  if (Length info <? 1) || negb (IsObject (arg info 0)) then
    (d, Threw (TypeError "first argument must be a buffer object"))
  else
    let obj := arg info 0 in
    if IsNull obj || IsUndefined obj || negb (Buffer_HasInstance obj) then
      (d, Threw (TypeError "first arg must be a buffer object"))
    else
      let buffer_size := Buffer_Length obj in
      if buffer_size <=? 0 then
        (d, Threw (Error empty_buffer_error))
      else
        match try_merge d (Buffer_Data obj) with
        | (d', Some what) => (d', Threw (Error what))
        | (d', None) => (d', Returned tt)
        end.

(** The work queued by the asynchronous [addData]. *)
Definition EIO_AddData (d : merc_tile) (data : list Byte.byte)
  : merc_tile * option exn :=
  let dataLength := Z.of_nat (List.length data) in
  if dataLength <=? 0 then (d, Some empty_buffer_error)
  else try_merge d data.

(** [EIO_AfterAddData], [EIO_AfterSetData]: the callback gets the error
    or null. *)
Definition after_data (callback : js_value) (r : merc_tile * option exn)
  : merc_tile * completion unit :=
  match r with
  | (d', Some error_name) => (d', CalledBack callback (inl (Error error_name)))
  | (d', None) => (d', CalledBack callback (inr tt))
  end.

Definition addData (d : merc_tile) (info : list js_value)
  : merc_tile * completion unit :=
  if Length info =? 1 then _addDataSync d info
  else
    let callback := arg info (Length info - 1) in
    if negb (IsFunction (arg info (Length info - 1))) then
      (d, Threw (TypeError "last argument must be a callback function"))
    else if (Length info <? 1) || negb (IsObject (arg info 0)) then
      (d, Threw (TypeError "first argument must be a buffer object"))
    else
      let obj := arg info 0 in
      if IsNull obj || IsUndefined obj || negb (Buffer_HasInstance obj) then
        (d, Threw (TypeError "first arg must be a buffer object"))
      else after_data callback (EIO_AddData d (Buffer_Data obj)).

Definition _setDataSync (d : merc_tile) (info : list js_value)
  : merc_tile * completion unit :=
  if (Length info <? 1) || negb (IsObject (arg info 0)) then
    (d, Threw (TypeError "first argument must be a buffer object"))
  else
    let obj := arg info 0 in
    if IsNull obj || IsUndefined obj || negb (Buffer_HasInstance obj) then
      (d, Threw (TypeError "first arg must be a buffer object"))
    else
      let buffer_size := Buffer_Length obj in
      if buffer_size <=? 0 then
        (d, Threw (Error empty_buffer_error))
      else
        let d := clear d in
        match try_merge d (Buffer_Data obj) with
        | (d', Some what) => (d', Threw (Error what))
        | (d', None) => (d', Returned tt)
        end.

(** The work queued by the asynchronous [setData]. *)
Definition EIO_SetData (d : merc_tile) (data : list Byte.byte)
  : merc_tile * option exn :=
  let dataLength := Z.of_nat (List.length data) in
  if dataLength <=? 0 then (d, Some empty_buffer_error)
  else
    let d := clear d in
    try_merge d data.

Definition setData (d : merc_tile) (info : list js_value)
  : merc_tile * completion unit :=
  if Length info =? 1 then _setDataSync d info
  else
    let callback := arg info (Length info - 1) in
    if negb (IsFunction (arg info (Length info - 1))) then
      (d, Threw (TypeError "last argument must be a callback function"))
    else if (Length info <? 1) || negb (IsObject (arg info 0)) then
      (d, Threw (TypeError "first argument must be a buffer object"))
    else
      let obj := arg info 0 in
      if IsNull obj || IsUndefined obj || negb (Buffer_HasInstance obj) then
        (d, Threw (TypeError "first arg must be a buffer object"))
      else after_data callback (EIO_SetData d (Buffer_Data obj)).

(** [_clearSync]: [d->clear()], and undefined is returned. *)
Definition _clearSync (d : merc_tile) (info : list js_value)
  : merc_tile * completion unit :=
  (clear d, Returned tt).

End Data.

(* ===================================================================== *)
(** ** [VectorTile::_getDataSync]                                          *)
(* ===================================================================== *)

(** Constants of [zlib.h]. *)
Definition Z_DEFAULT_COMPRESSION : Z := -1.
Definition Z_DEFAULT_STRATEGY : Z := 0.
Definition Z_FILTERED : Z := 1.
Definition Z_HUFFMAN_ONLY : Z := 2.
Definition Z_RLE : Z := 3.
Definition Z_FIXED : Z := 4.

Definition level_error : string :=
  "option 'level' must be an integer between 0 (no compression) and 9 (best compression) inclusive".
Definition strategy_error : string :=
  "option 'strategy' must be one of the following strings: FILTERED, HUFFMAN_ONLY, RLE, FIXED, DEFAULT".

Record getData_options := mk_getData_options {
  opt_compress : bool;
  opt_level : Z;
  opt_strategy : Z
}.

(** The options of [getData]: [compression], [level] and [strategy], each
    read when present, in that order. *)
Definition read_getData_options (options : js_value)
  : js_exception + getData_options :=
  match
    (if Has options "compression" then
       let param_val := Get options "compression" in
       if negb (IsString param_val) then
         inl (TypeError "option 'compression' must be a string, either 'gzip', or 'none' (default)")
       else inr (String.eqb "gzip" (TOSTR param_val))
     else inr false)
  with
  | inl e => inl e
  | inr compress =>
      match
        (if Has options "level" then
           let param_val := Get options "level" in
           if negb (IsNumber param_val) then inl (TypeError level_error)
           else
             let level := to_int32 (IntegerValue param_val) in
             if (level <? 0) || (9 <? level) then inl (TypeError level_error)
             else inr level
         else inr Z_DEFAULT_COMPRESSION)
      with
      | inl e => inl e
      | inr level =>
          if Has options "strategy" then
            let param_val := Get options "strategy" in
            if negb (IsString param_val) then inl (TypeError strategy_error)
            else if String.eqb "FILTERED" (TOSTR param_val) then
              inr (mk_getData_options compress level Z_FILTERED)
            else if String.eqb "HUFFMAN_ONLY" (TOSTR param_val) then
              inr (mk_getData_options compress level Z_HUFFMAN_ONLY)
            else if String.eqb "RLE" (TOSTR param_val) then
              inr (mk_getData_options compress level Z_RLE)
            else if String.eqb "FIXED" (TOSTR param_val) then
              inr (mk_getData_options compress level Z_FIXED)
            else if String.eqb "DEFAULT" (TOSTR param_val) then
              inr (mk_getData_options compress level Z_DEFAULT_STRATEGY)
            else inl (TypeError strategy_error)
          else inr (mk_getData_options compress level Z_DEFAULT_STRATEGY)
      end
  end.

Section GetData.
Context `{C : Collaborators}.

(** The first part of [_getDataSync]: the defaults, and the options
    object when an argument is given. *)
Definition getData_arguments (info : list js_value)
  : js_exception + getData_options :=
  if 0 <? Length info then
    if negb (IsObject (arg info 0)) then
      inl (TypeError "first arg must be a options object")
    else read_getData_options (arg info 0)
  else inr (mk_getData_options false Z_DEFAULT_COMPRESSION Z_DEFAULT_STRATEGY).

Definition too_large_error (raw_size : nat) : string :=
  String.append "Data is too large to convert to a node::Buffer ("
    (String.append (pretty raw_size) " raw bytes >= node::Buffer::kMaxLength)").

(** The [try] block of [_getDataSync]. *)
Definition getData_body (d : merc_tile) (o : getData_options)
  : list event * (js_exception + js_value) :=
  let raw_size := tile_raw_size d in
  if Z.of_nat raw_size <=? 0 then ([], inr (JsBuffer []))
  else if kMaxLength <=? Z.of_nat raw_size then
    ([], inl (TypeError (too_large_error raw_size)))
  else if negb (opt_compress o) then ([], inr (JsBuffer (tile_data d)))
  else
    ([ev_zlib_compress raw_size (opt_level o) (opt_strategy o)],
     match zlib_compress (tile_data d) (opt_level o) (opt_strategy o) with
     | inr compressed => inr (JsBuffer compressed)
     | inl what => inl (TypeError what)
     end).

Definition _getDataSync (d : merc_tile) (info : list js_value)
  : list event * (js_exception + js_value) :=
  match getData_arguments info with
  | inl e => ([], inl e)
  | inr o => getData_body d o
  end.

End GetData.

(* ===================================================================== *)
(** * Part II. The vocabulary of the properties *)
(* ===================================================================== *)

(* ===================================================================== *)
(** ** What the collaborators are relied on for                            *)
(* ===================================================================== *)

(** [comp] is a strict weak ordering on the elements of [l]: the
    requirement [std::sort] puts on its comparison. *)
Definition strict_weak_on {A : Type} (comp : A -> A -> bool) (l : list A) : Prop :=
  (forall a, In a l -> comp a a = false) /\
  (forall a b c, In a l -> In b l -> In c l ->
                 comp a b = true -> comp b c = true -> comp a c = true) /\
  (forall a b c, In a l -> In b l -> In c l ->
                 comp a b = false -> comp b c = false -> comp a c = false).

(** The range is in non-descending order for [comp]: no element is
    [comp]-less than one before it. *)
Definition ascending {A : Type} (comp : A -> A -> bool) (l : list A) : Prop :=
  StronglySorted (fun a b => comp b a = false) l.

(** What the C++ standard promises of [std::sort]: the result is a
    rearrangement of the input, in non-descending order.  Nothing is
    promised about the order of equivalent elements. *)
Definition std_sort_contract `{C : Collaborators} : Prop :=
  forall (A : Type) (comp : A -> A -> bool) (l : list A),
    strict_weak_on comp l ->
    Permutation l (std_sort A comp l) /\ ascending comp (std_sort A comp l).

(** The inverse projection answers for every point (the source marks the
    failure branch as one that is not reached). *)
Definition backward_total `{C : Collaborators} : Prop :=
  forall a b, tr_backward a b <> None.

(** The features a layer's datasource hands to the loop of [_query]. *)
Definition featureset `{C : Collaborators}
  (l : layer) (x y tolerance : double) : list feature :=
  match features_at_point l x y tolerance with
  | Some fs => fs
  | None => []
  end.

(** Widening a tolerance that is not negative never makes the datasource
    drop a candidate. *)
Definition featureset_monotone `{C : Collaborators} : Prop :=
  forall l x y t1 t2 f,
    leb zero t1 = true -> leb t1 t2 = true ->
    In f (featureset l x y t1) -> In f (featureset l x y t2).

(* ===================================================================== *)
(** ** The query, declaratively                                            *)
(* ===================================================================== *)

Section QuerySpec.
Context `{C : Collaborators}.

(** The features the query looks at, in scan order, each with the layer
    name its record gets. *)
Definition scanned (d : merc_tile) (x y tolerance : double) (name : string)
  : list (string * feature) :=
  if is_empty d then []
  else if negb (string_empty name) then
    match layer_reader name d with
    | Some l => List.map (pair name) (featureset l x y tolerance)
    | None => []
    end
  else
    flat_map (fun l => List.map (pair (get_name l)) (featureset l x y tolerance))
             (tile_layers d).

(** The record of a scanned feature: its computed distance, and the hit
    point projected back. *)
Definition record_of (x y : double) (nf : string * feature) : query_result :=
  let p2p := path_to_point_distance (feature_geometry (snd nf)) x y in
  let '(xh, yh) :=
    match tr_backward (x_hit p2p) (y_hit p2p) with
    | Some q => q
    | None => (x_hit p2p, y_hit p2p)
    end in
  mk_query_result (fst nf) (distance p2p) xh yh (snd nf).

(** [0 <= distance <= tolerance] *)
Definition within (tolerance : double) (r : query_result) : bool :=
  geb (qr_distance r) zero && leb (qr_distance r) tolerance.

(** The hits in scan (insertion) order. *)
Definition scan_hits (d : merc_tile) (x y tolerance : double) (name : string)
  : list query_result :=
  List.filter (within tolerance)
              (List.map (record_of x y) (scanned d x y tolerance name)).

(** The hits among the features of one featureset. *)
Definition hits_of (x y tolerance : double) (name : string) (fs : list feature)
  : list query_result :=
  List.filter (within tolerance) (List.map (record_of x y) (List.map (pair name) fs)).

(** The hits among the featuresets of a run of layers. *)
Definition layers_hits (x y tolerance : double) (ls : list layer)
  : list query_result :=
  List.filter (within tolerance)
    (List.map (record_of x y)
       (flat_map (fun l => List.map (pair (get_name l)) (featureset l x y tolerance)) ls)).

(** The calls to [features_at_point] the query makes. *)
Definition scan_trace (d : merc_tile) (x y tolerance : double) (name : string)
  : list event :=
  if is_empty d then []
  else if negb (string_empty name) then
    match layer_reader name d with
    | Some l => [ev_features_at_point (get_name l) x y tolerance]
    | None => []
    end
  else List.map (fun l => ev_features_at_point (get_name l) x y tolerance)
                (tile_layers d).

End QuerySpec.

(* ===================================================================== *)
(** ** Polygons: containment and nothing else *)
(* ===================================================================== *)

Section PolygonSpec.
Context `{C : Collaborators}.
Variables x y : double.

(** Parity of the number of edges of a ring that the ray from the query
    point crosses. *)
Definition ring_parity (ring : linear_ring) : bool :=
  ring_toggle x y ring false.

(** Parity of the crossings over all interior rings of at least four
    points. *)
Definition interior_parity (rings : list linear_ring) : bool :=
  fold_left
    (fun acc ring =>
       if (List.length ring <? 4)%nat then acc else xorb acc (ring_parity ring))
    rings false.

(** What the visitor decides: the exterior ring has at least four
    points, the point is inside it, and the interior rings cross the ray
    an even number of times. *)
Definition polygon_contains (poly : polygon) : bool :=
  (4 <=? List.length (exterior_ring poly))%nat
  && ring_parity (exterior_ring poly)
  && negb (interior_parity (interior_rings poly)).

(** The even-odd rule read as one running parity: the exterior test,
    toggled by each interior ring of at least four points. *)
Definition even_odd_contains (poly : polygon) : bool :=
  (4 <=? List.length (exterior_ring poly))%nat
  && xorb (ring_parity (exterior_ring poly))
          (interior_parity (interior_rings poly)).

(** The result for a contained point: distance 0, hit point left at its
    default. *)
Definition p2p_inside : p2p_result := mk_p2p zero zero zero.

End PolygonSpec.

(** The tile a constructor call with the registration of [d] makes. *)
Definition fresh_tile (d : merc_tile) : merc_tile :=
  new_merc_tile (tile_x d) (tile_y d) (tile_z d) (tile_size d) (buffer_size d).

(* ===================================================================== *)
(** * Part III. A concrete instance and concrete tiles *)
(* ===================================================================== *)

(* ===================================================================== *)
(** ** A concrete instance of the collaborators                            *)
(* ===================================================================== *)

(** The model is run on concrete tiles with the instance below: the
    planar formulas of mapnik's [geom_util.hpp] on binary64, an identity
    projection, a datasource that hands out every feature of its layer, and
    a sort that meets the contract of [std::sort] by insertion from the
    front, so that equivalent elements come out in reverse order. *)
Module Reference.

Local Open Scope float_scope.

Definition distance2 (x0 y0 x1 y1 : double) : double :=
  let dx := x1 - x0 in
  let dy := y1 - y0 in
  dx * dx + dy * dy.

Definition distance (x0 y0 x1 y1 : double) : double :=
  PrimFloat.sqrt (distance2 x0 y0 x1 y1).

Definition point_to_segment_distance (x y ax ay bx b_y : double) : double :=
  let len2 := distance2 ax ay bx b_y in
  if len2 <? 0x1.6849b86a12b9bp-47 (* 1e-14 *) then distance x y ax ay
  else
    let r := ((x - ax) * (bx - ax) + (y - ay) * (b_y - ay)) / len2 in
    if r <? 0 then distance x y ax ay
    else if 1 <? r then distance x y bx b_y
    else
      let s := ((ay - y) * (bx - ax) - (ax - x) * (b_y - ay)) / len2 in
      PrimFloat.abs s * PrimFloat.sqrt len2.

Definition pip (x0 y0 x1 y1 x y : double) : bool :=
  (((y1 <=? y) && (y <? y0)) || ((y0 <=? y) && (y <? y1)))
  && (x <? (x0 - x1) * (y - y1) / (y0 - y1) + x1).

Local Close Scope float_scope.

Fixpoint insert_before {A : Type} (comp : A -> A -> bool) (x : A) (l : list A)
  : list A :=
  match l with
  | [] => [x]
  | y :: t => if comp y x then y :: insert_before comp x t else x :: y :: t
  end.

Definition insertion_sort (A : Type) (comp : A -> A -> bool) (l : list A)
  : list A :=
  fold_left (fun acc x => insert_before comp x acc) l [].

(** The instance, for a given [std::sort]. *)
Definition env_with
  (sort : forall A : Type, (A -> A -> bool) -> list A -> list A) : Collaborators :=
  Build_Collaborators
    distance point_to_segment_distance pip
    (fun a b => Some (a, b)) (fun a b => Some (a, b))
    (fun l _ _ _ => Some (layer_features l))
    unit tt (fun b _ _ => b) (fun b _ => b)
    (fun l _ _ => Some (layer_features l))
    sort
    (fun data _ _ => inr data)
    1073741823
    (fun t data =>
       (mk_merc_tile (tile_x t) (tile_y t) (tile_z t) (tile_size t) (buffer_size t)
                     (tile_layers t ++ [mk_layer "data" data [] []])
                     (empty_layers t ++ ["data"%string]) (painted_layers t),
        None)).

Definition env : Collaborators := env_with insertion_sort.

End Reference.

(* ===================================================================== *)
(** ** The sort of GNU libstdc++                                           *)
(* ===================================================================== *)

(** [std::sort] as GNU libstdc++ implements it ([bits/stl_algo.h], GCC 4.9
    and later): an introsort that partitions around a median of three
    while a range has more than 16 elements, followed by an insertion
    sort.  The vector is a list, iterators are positions in it.  The heap
    sort that takes over when the recursion depth is used up is not
    transcribed: [__introsort_loop] answers [None] when it would run. *)
Module Libstdcxx.

Section Sort.
Context {A : Type}.
Variable comp : A -> A -> bool.

(** [comp(i, j)] for two iterators *)
Definition comp_at (v : list A) (i j : nat) : bool :=
  match v !! i, v !! j with
  | Some a, Some b => comp a b
  | _, _ => false
  end.

(** [std::iter_swap(i, j)] *)
Definition iter_swap (v : list A) (i j : nat) : list A :=
  match v !! i, v !! j with
  | Some a, Some b => <[i := b]> (<[j := a]> v)
  | _, _ => v
  end.

(** [__move_median_to_first(result, a, b, c, comp)] *)
Definition __move_median_to_first (v : list A) (result a b c : nat) : list A :=
  if comp_at v a b then
    if comp_at v b c then iter_swap v result b
    else if comp_at v a c then iter_swap v result c
    else iter_swap v result a
  else if comp_at v a c then iter_swap v result a
  else if comp_at v b c then iter_swap v result c
  else iter_swap v result b.

(** [while (comp(first, pivot)) ++first;] *)
Fixpoint skip_forward (fuel : nat) (v : list A) (first pivot : nat) : nat :=
  match fuel with
  | O => first
  | S fuel =>
      if comp_at v first pivot then skip_forward fuel v (S first) pivot else first
  end.

(** [while (comp(pivot, last)) --last;] *)
Fixpoint skip_backward (fuel : nat) (v : list A) (last pivot : nat) : nat :=
  match fuel with
  | O => last
  | S fuel =>
      if comp_at v pivot last then skip_backward fuel v (Nat.pred last) pivot else last
  end.

(** [__unguarded_partition(first, last, pivot, comp)] *)
Fixpoint __unguarded_partition (fuel : nat) (v : list A) (first last pivot : nat)
  : nat * list A :=
  match fuel with
  | O => (first, v)
  | S fuel =>
      let first := skip_forward (List.length v) v first pivot in
      let last := Nat.pred last in
      let last := skip_backward (List.length v) v last pivot in
      if negb (first <? last)%nat then (first, v)
      else __unguarded_partition fuel (iter_swap v first last) (S first) last pivot
  end.

(** [__unguarded_partition_pivot(first, last, comp)] *)
Definition __unguarded_partition_pivot (v : list A) (first last : nat)
  : nat * list A :=
  let mid := (first + (last - first) / 2)%nat in
  let v := __move_median_to_first v first (first + 1)%nat mid (last - 1)%nat in
  __unguarded_partition (List.length v) v (first + 1)%nat last first.

Definition _S_threshold : nat := 16.

(** [__introsort_loop(first, last, depth_limit, comp)] *)
Fixpoint __introsort_loop (fuel : nat) (v : list A) (first last depth_limit : nat)
  : option (list A) :=
  match fuel with
  | O => None
  | S fuel =>
      if (_S_threshold <? last - first)%nat then
        match depth_limit with
        | O => None
        | S depth_limit =>
            let '(cut, v) := __unguarded_partition_pivot v first last in
            match __introsort_loop fuel v cut last depth_limit with
            | Some v => __introsort_loop fuel v first cut depth_limit
            | None => None
            end
        end
      else Some v
  end.

(** [__unguarded_linear_insert(last, comp)]: [val] travels down while it is
    less than the element before it. *)
Fixpoint __unguarded_linear_insert (fuel : nat) (v : list A) (last : nat) (val : A)
  : list A :=
  match fuel with
  | O => <[last := val]> v
  | S fuel =>
      match last, v !! Nat.pred last with
      | S next, Some before =>
          if comp val before
          then __unguarded_linear_insert fuel (<[last := before]> v) next val
          else <[last := val]> v
      | _, _ => <[last := val]> v
      end
  end.

(** One step of the loop of [__insertion_sort(first, last, comp)] at the
    iterator [i]. *)
Definition insertion_step (first : nat) (v : list A) (i : nat) : list A :=
  match v !! i with
  | Some val =>
      if comp_at v i first then
        take first v ++ val :: firstn (i - first) (skipn first v) ++ skipn (S i) v
      else __unguarded_linear_insert (List.length v) v i val
  | None => v
  end.

(** [__insertion_sort(first, last, comp)] *)
Definition __insertion_sort (v : list A) (first last : nat) : list A :=
  if (first =? last)%nat then v
  else fold_left (insertion_step first) (seq (S first) (last - S first)) v.

(** [__unguarded_insertion_sort(first, last, comp)] *)
Definition __unguarded_insertion_sort (v : list A) (first last : nat) : list A :=
  fold_left
    (fun v i =>
       match v !! i with
       | Some val => __unguarded_linear_insert (List.length v) v i val
       | None => v
       end)
    (seq first (last - first)) v.

(** [__final_insertion_sort(first, last, comp)] *)
Definition __final_insertion_sort (v : list A) (first last : nat) : list A :=
  if (_S_threshold <? last - first)%nat then
    let v := __insertion_sort v first (first + _S_threshold)%nat in
    __unguarded_insertion_sort v (first + _S_threshold)%nat last
  else __insertion_sort v first last.

(** [std::__sort(first, last, comp)] on the whole vector *)
Definition __sort (v : list A) : option (list A) :=
  let first := 0%nat in
  let last := List.length v in
  if (first =? last)%nat then Some v
  else
    match __introsort_loop (List.length v) v first last (Nat.log2 (last - first) * 2) with
    | Some v => Some (__final_insertion_sort v first last)
    | None => None
    end.

End Sort.

(** [std::sort(first, last, comp)]; the sort by insertion stands in where
    the heap sort would run. *)
Definition sort (A : Type) (comp : A -> A -> bool) (v : list A) : list A :=
  match __sort comp v with
  | Some sorted => sorted
  | None => Reference.insertion_sort A comp v
  end.

(** The reference instance with the sort of libstdc++. *)
Definition env : Collaborators := Reference.env_with sort.

End Libstdcxx.

(* ===================================================================== *)
(** ** Concrete tiles                                                      *)
(* ===================================================================== *)

Module Fixtures.

Definition pt (x y : double) : point := mk_point x y.

Definition place_a : feature := mk_feature 1 (geometry_point (pt 1 0)) [].
Definition place_b : feature := mk_feature 2 (geometry_point (pt 0 1)) [].
Definition place_c : feature := mk_feature 3 (geometry_point (pt 3 0)) [].

Definition places : layer :=
  mk_layer "places" [Byte.x1a; Byte.x00] [] [place_a; place_b; place_c].

(** A tile with one layer of three points. *)
Definition tile_places : merc_tile :=
  mk_merc_tile 0 0 0 4096 128 [places] [] [].

Definition square (x0 y0 x1 y1 : double) : linear_ring :=
  [pt x0 y0; pt x1 y0; pt x1 y1; pt x0 y1; pt x0 y0].

(** A polygon whose interior ring lies outside its exterior ring. *)
Definition stray_hole : polygon :=
  mk_polygon (square 0 0 4 4) [square 10 10 14 14].

(** A square with a square hole in its middle. *)
Definition ring_road : polygon :=
  mk_polygon (square 0 0 9 9) [square 3 3 6 6].

Definition parcel (poly : polygon) : feature :=
  mk_feature 7 (geometry_polygon poly) [].

Definition parcels (poly : polygon) : layer :=
  mk_layer "parcels" [Byte.x1a; Byte.x00] [] [parcel poly].

Definition tile_parcels (poly : polygon) : merc_tile :=
  mk_merc_tile 0 0 0 4096 128 [parcels poly] [] [].

(** Seventeen features at one and the same point, numbered in the order
    they are stored. *)
Definition crowd : layer :=
  mk_layer "crowd" [Byte.x1a; Byte.x00] []
    (List.map (fun i => mk_feature (Z.of_nat i) (geometry_point (pt 1 0)) [])
              (seq 0 17)).

Definition tile_crowd : merc_tile :=
  mk_merc_tile 0 0 0 4096 128 [crowd] [] [].

(** A tile whose only layer has no feature. *)
Definition tile_hollow : merc_tile :=
  mk_merc_tile 0 0 0 4096 128 [mk_layer "void" [Byte.x1a; Byte.x00] [] []] [] [].

End Fixtures.

(* ===================================================================== *)
(** ** The model at work                                                   *)
(* ===================================================================== *)

Module Runs.
Import Fixtures.

Definition hit (name : string) (d x y : double) (f : feature) : query_result :=
  mk_query_result name d x y f.

Definition hit_a : query_result := hit "places" 1 1 0 place_a.
Definition hit_b : query_result := hit "places" 1 0 1 place_b.
Definition hit_c : query_result := hit "places" 3 3 0 place_c.

(** The features of a list of records, by their ids. *)
Definition ids (result : list query_result) : list Z :=
  List.map (fun r => feature_id (qr_feature r)) result.

Definition gzip_options : js_value :=
  JsObject [("compression"%string, JsString "gzip");
            ("level"%string, JsNumber 9);
            ("strategy"%string, JsString "RLE")].

Definition many_options (name : string) : js_value :=
  JsObject [("tolerance"%string, JsNumber 2); ("layer"%string, JsString name)].

Definition origin : js_value := JsArray [JsArray [JsNumber 0; JsNumber 0]].

End Runs.

(* ===================================================================== *)
(** * Part III, continued. More of the binding *)
(* ===================================================================== *)

(* ===================================================================== *)
(** ** The members of a multi-geometry                                     *)
(* ===================================================================== *)

(** The geometries the loop of the visitor goes over, for the four kinds
    that are collections of parts. *)
Definition members (geom : geometry) : option (list geometry) :=
  match geom with
  | geometry_multi_point pts => Some (List.map geometry_point pts)
  | geometry_multi_line_string lines => Some (List.map geometry_line_string lines)
  | geometry_multi_polygon polys => Some (List.map geometry_polygon polys)
  | geometry_collection geoms => Some geoms
  | _ => None
  end.

(** A distance that can be a hit: [distance >= 0]. *)
Definition reached (r : p2p_result) : bool := geb (distance r) zero.

(** What the running result of a loop of [p2p_update] is after the
    results [seen]: still the default when none of them is reached,
    otherwise one of them, reached and no farther than any reached one. *)
Definition nearest_of (seen : list p2p_result) (r : p2p_result) : Prop :=
  (r = p2p_default /\ forall s, In s seen -> reached s = false) \/
  (In r seen /\ reached r = true /\
   forall s, In s seen -> reached s = true -> leb (distance r) (distance s) = true).

(** The result of the visitor for one segment of a line string: the
    distance to the segment, and its first end as the hit point. *)
Definition p2p_segment `{C : Collaborators} (x y : double) (seg : point * point)
  : p2p_result :=
  mk_p2p (point_to_segment_distance x y (px (fst seg)) (py (fst seg))
                                    (px (snd seg)) (py (snd seg)))
         (px (fst seg)) (py (fst seg)).

(* ===================================================================== *)
(** ** [VectorTile::query]                                                 *)
(* ===================================================================== *)

(** The options of [query]: tolerance and layer name. *)
Definition query_options (options : js_value) : js_exception + (double * string) :=
  match
    (if Has options "tolerance" then
       let tol := Get options "tolerance" in
       if negb (IsNumber tol) then inl (TypeError "tolerance value must be a number")
       else inr (NumberValue tol)
     else inr zero)
  with
  | inl e => inl e
  | inr tolerance =>
      if Has options "layer" then
        let layer_id := Get options "layer" in
        if negb (IsString layer_id) then inl (TypeError "layer value must be a string")
        else inr (tolerance, TOSTR layer_id)
      else inr (tolerance, EmptyString)
  end.

(** [VectorTile::query] with [EIO_Query] and [EIO_AfterQuery]; the vector
    of records stands for the array [_queryResultToV8] makes of it. *)
Definition query `{C : Collaborators} (d : merc_tile) (info : list js_value)
  : list event * completion (list query_result) :=
  if (Length info <? 2) || negb (IsNumber (arg info 0)) || negb (IsNumber (arg info 1))
  then ([], Threw (Error "expects lon,lat info"))
  else
    match
      (if 2 <? Length info then
         if negb (IsObject (arg info 2)) then
           inl (TypeError "optional third argument must be an options object")
         else query_options (arg info 2)
       else inr (zero, EmptyString))
    with
    | inl e => ([], Threw e)
    | inr (tolerance, layer_name) =>
        let lon := NumberValue (arg info 0) in
        let lat := NumberValue (arg info 1) in
        let '(trace, r) := _query d lon lat tolerance layer_name in
        (trace, finish info r)
    end.

(** The records under a layer name. *)
Definition labelled (name : string) (r : query_result) : bool :=
  String.eqb (qr_layer r) name.

(** The records a completed call delivers, returned or handed to the
    callback. *)
Definition delivered {A : Type} (c : completion A) : option A :=
  match c with
  | Returned a => Some a
  | CalledBack _ (inr a) => Some a
  | _ => None
  end.

(* ===================================================================== *)
(** ** The result of [queryMany], declaratively                            *)
(* ===================================================================== *)

(** [0 <= distance <= tolerance] for a hit of [queryMany]. *)
Definition hit_within (tolerance : double) (h : query_hit) : bool :=
  geb (hit_distance h) zero && leb (hit_distance h) tolerance.

(** What the loops of [_queryMany] keep true of the feature table and of
    the hit lists, [n] feature ids having been given out: the table holds
    exactly the ids below [n], each entry a feature of the featureset
    under the layer's name; every hit list belongs to a query point, is
    not empty and holds hits within the tolerance whose feature is in the
    table; every feature of the table is hit. *)
Definition many_inv (tolerance : double) (name : string) (fs : list feature)
  (npts n : nat) (features : gmap nat query_result) (hits : gmap nat (list query_hit))
  : Prop :=
  (forall k, is_Some (features !! k) <-> (k < n)%nat) /\
  (forall k res, features !! k = Some res ->
                 qr_layer res = name /\ In (qr_feature res) fs /\
                 qr_distance res = zero) /\
  (forall p hs, hits !! p = Some hs ->
                (p < npts)%nat /\ hs <> [] /\
                forall h, In h hs ->
                          hit_within tolerance h = true /\ (hit_feature_id h < n)%nat) /\
  (forall k, (k < n)%nat ->
             exists p hs h, hits !! p = Some hs /\ In h hs /\ hit_feature_id h = k).

Section QueryManySpec.
Context `{C : Collaborators}.

(** The distance [_queryMany] computes for a feature and a projected
    query point, and whether it makes a hit. *)
Definition dist_to (f : feature) (pt : point) : double :=
  distance (path_to_point_distance (feature_geometry f) (px pt) (py pt)).

Definition near (tolerance : double) (f : feature) (pt : point) : bool :=
  geb (dist_to f pt) zero && leb (dist_to f pt) tolerance.

(** The query points with their projections. *)
Definition projected (qs : list query_lonlat) (points : list point) : Prop :=
  Forall2 (fun q pt => tr_forward (lon q) (lat q) = Some (px pt, py pt)) qs points.

(** The box grown around the projected points, and the features the
    datasource of the layer gives for it, padded by the tolerance. *)
Definition bounding_box (bbox : box2d) (points : list point) : box2d :=
  fold_left (fun b pt => expand_to_include b (px pt) (py pt)) points bbox.

Definition queried_features (l : layer) (points : list point) (tolerance : double)
  (fields : list string) : list feature :=
  match ds_features l (box2d_pad (bounding_box box2d_default points) tolerance)
                    (match fields with [] => layer_fields l | _ => fields end)
  with
  | Some fs => fs
  | None => []
  end.

(** Every hit refers to an entry of the feature table and holds the
    distance from the feature of that entry to the query point of its
    list. *)
Definition hits_sound (points : list point) (features : gmap nat query_result)
  (hits : gmap nat (list query_hit)) : Prop :=
  forall q hs h,
    hits !! q = Some hs -> In h hs ->
    exists res pt,
      features !! hit_feature_id h = Some res /\
      nth_error points q = Some pt /\
      hit_distance h = dist_to (qr_feature res) pt.

(** Every tested pair of a feature and a query point that are near each
    other has its hit. *)
Definition hits_complete (tolerance : double) (points : list point)
  (tested : feature -> nat -> Prop) (features : gmap nat query_result)
  (hits : gmap nat (list query_hit)) : Prop :=
  forall f q pt,
    tested f q -> nth_error points q = Some pt -> near tolerance f pt = true ->
    exists hs h res,
      hits !! q = Some hs /\ In h hs /\
      hit_distance h = dist_to f pt /\
      features !! hit_feature_id h = Some res /\ qr_feature res = f.

End QueryManySpec.

(* ===================================================================== *)
(** ** [VectorTile::getData], [get_data] and [after_get_data]              *)
(* ===================================================================== *)

Section GetDataAsync.
Context `{C : Collaborators}.

(** The work queued by the asynchronous [getData]: what [closure->data]
    holds afterwards, or the exception caught. *)
Definition get_data (d : merc_tile) (o : getData_options)
  : list event * (exn + list Byte.byte) :=
  if opt_compress o then
    ([ev_zlib_compress (tile_raw_size d) (opt_level o) (opt_strategy o)],
     zlib_compress (tile_data d) (opt_level o) (opt_strategy o))
  else ([], inr []).

Definition after_get_data (d : merc_tile) (callback : js_value)
  (r : exn + list Byte.byte) : completion js_value :=
  match r with
  | inl error_name => CalledBack callback (inl (Error error_name))
  | inr data =>
      match data with
      | _ :: _ => CalledBack callback (inr (JsBuffer data))
      | [] =>
          let raw_size := tile_raw_size d in
          if Z.of_nat raw_size <=? 0 then CalledBack callback (inr (JsBuffer []))
          else if kMaxLength <=? Z.of_nat raw_size then
            CalledBack callback (inl (Error (too_large_error raw_size)))
          else CalledBack callback (inr (JsBuffer (tile_data d)))
      end
  end.

Definition getData (d : merc_tile) (info : list js_value)
  : list event * completion js_value :=
  if (Length info =? 0) || negb (IsFunction (arg info (Length info - 1))) then
    match _getDataSync d info with
    | (trace, inl e) => (trace, Threw e)
    | (trace, inr v) => (trace, Returned v)
    end
  else
    let callback := arg info (Length info - 1) in
    match
      (if 1 <? Length info then
         if negb (IsObject (arg info 0)) then
           inl (TypeError "first arg must be a options object")
         else read_getData_options (arg info 0)
       else inr (mk_getData_options false Z_DEFAULT_COMPRESSION Z_DEFAULT_STRATEGY))
    with
    | inl e => ([], Threw e)
    | inr o =>
        let '(trace, r) := get_data d o in
        (trace, after_get_data d callback r)
    end.

End GetDataAsync.

(* ===================================================================== *)
(** ** [VectorTile::clear]                                                 *)
(* ===================================================================== *)

(** The work queued by the asynchronous [clear]. *)
Definition EIO_Clear (d : merc_tile) : merc_tile * option exn := (clear d, None).

(** The method [clear] of the binding; [EIO_AfterClear] hands the
    callback the error or null, as [EIO_AfterAddData] does. *)
Definition VectorTile_clear `{C : Collaborators} (d : merc_tile) (info : list js_value)
  : merc_tile * completion unit :=
  if Length info =? 0 then _clearSync d info
  else
    let callback := arg info (Length info - 1) in
    if negb (IsFunction callback) then
      (d, Threw (TypeError "last argument must be a callback function"))
    else after_data callback (EIO_Clear d).

(** How the completion of the form with a callback relates to the one
    of the form without. *)
Definition async_of {A : Type} (cb : js_value) (sync async : completion A) : Prop :=
  match sync with
  | Threw e => async = Threw e \/ async = CalledBack cb (inl e)
  | Returned a => async = CalledBack cb (inr a)
  | CalledBack _ _ => False
  end.

(** What the asynchronous form makes of the completion of the synchronous
    one: an exception raised by the argument checks is thrown as it is,
    the outcome of the work goes to the callback. *)
Definition deferred {A : Type} (callback : js_value) (c : completion A) : completion A :=
  match c with
  | Threw (TypeError msg) => Threw (TypeError msg)
  | Threw (Error msg) => CalledBack callback (inl (Error msg))
  | Returned a => CalledBack callback (inr a)
  | CalledBack cb r => CalledBack cb r
  end.

(* ===================================================================== *)
(** ** [VectorTile::toJSON]: the properties of a feature                   *)
(* ===================================================================== *)

(** [mapnik::vector_tile_impl::pbf_attr_value_type], the variant a value
    message of a layer is read into. *)
Inductive pbf_attr_value : Type :=
| attr_string (val : string)
| attr_float (val : double)
| attr_double (val : double)
| attr_int64 (val : Z)
| attr_uint64 (val : Z)
| attr_bool (val : bool).

(** [Nan::New<v8::Number>(val)] for an integer: the nearest binary64,
    ties to even. *)
Definition Number_of_Z (z : Z) : double :=
  SF2Prim (SpecFloat.binary_normalize FloatOps.prec FloatOps.emax z 0 false).

(** [obj->Set(key, value)]: the value of an own property is replaced, a
    new property is added. *)
Fixpoint set_prop (key : string) (v : js_value) (props : list (string * js_value))
  : list (string * js_value) :=
  match props with
  | [] => [(key, v)]
  | (k, w) :: rest =>
      if String.eqb k key then (k, v) :: rest else (k, w) :: set_prop key v rest
  end.

Definition Object_Set (obj : js_value) (key : string) (v : js_value) : js_value :=
  match obj with
  | JsObject props => JsObject (set_prop key v props)
  | _ => obj
  end.

(** The value each [operator()] of [json_value_visitor] hands to [Set]. *)
Definition attr_to_v8 (val : pbf_attr_value) : js_value :=
  match val with
  | attr_string val => JsString val
  | attr_bool val => JsBoolean val
  | attr_int64 val => JsNumber (Number_of_Z val)
  | attr_uint64 val => JsNumber (Number_of_Z val)
  | attr_double val => JsNumber val
  | attr_float val => JsNumber val
  end.

Definition json_value_visitor (att_obj : js_value) (name_ : string)
  (val : pbf_attr_value) : js_value :=
  Object_Set att_obj name_ (attr_to_v8 val).

(** [std::vector::at]: [None] is [std::out_of_range]. *)
Definition at_ {A : Type} (v : list A) (n : N) : option A := nth_error v (N.to_nat n).

(** Stands for the [what()] of the library's [std::out_of_range]. *)
Definition out_of_range : exn := "std::out_of_range".

(** The loop of [toJSON] over the packed tags of a feature: pairs of an
    index into the keys and an index into the values of the layer; a
    last index without a partner ends the loop. *)
Fixpoint feature_tags (layer_keys : list string) (layer_values : list pbf_attr_value)
  (tags : list N) (att_obj : js_value) : exn + js_value :=
  match tags with
  | key_name :: key_value :: rest =>
      if ((key_name <? N.of_nat (List.length layer_keys))
          && (key_value <? N.of_nat (List.length layer_values)))%N then
        match at_ layer_keys key_name, at_ layer_values key_value with
        | Some name, Some val =>
            feature_tags layer_keys layer_values rest (json_value_visitor att_obj name val)
        | _, _ => inl out_of_range
        end
      else feature_tags layer_keys layer_values rest att_obj
  | _ => inr att_obj
  end.

(** The pairs of a packed tag list, and those of them both of whose
    indices point into the tables of the layer, resolved. *)
Fixpoint tag_pairs (tags : list N) : list (N * N) :=
  match tags with
  | key_name :: key_value :: rest => (key_name, key_value) :: tag_pairs rest
  | _ => []
  end.

Definition resolve (layer_keys : list string) (layer_values : list pbf_attr_value)
  (p : N * N) : option (string * pbf_attr_value) :=
  match at_ layer_keys (fst p), at_ layer_values (snd p) with
  | Some name, Some val => Some (name, val)
  | _, _ => None
  end.

Definition attributes (layer_keys : list string) (layer_values : list pbf_attr_value)
  (tags : list N) : list (string * pbf_attr_value) :=
  List.concat (List.map (fun p => match resolve layer_keys layer_values p with
                                  | Some kv => [kv]
                                  | None => []
                                  end) (tag_pairs tags)).

(** What the loop does to the properties on one resolved pair. *)
Definition set_attribute (props : list (string * js_value))
  (kv : string * pbf_attr_value) : list (string * js_value) :=
  set_prop (fst kv) (attr_to_v8 (snd kv)) props.

(** The value of the last attribute of that name. *)
Definition last_value (name : string) (attrs : list (string * pbf_attr_value))
  : option pbf_attr_value :=
  fold_left (fun acc kv => if String.eqb (fst kv) name then Some (snd kv) else acc)
            attrs None.

(* ===================================================================== *)
(** ** [geometry_type_name] and [geometry_array_visitor]                   *)
(* ===================================================================== *)

Module Geometry.

Section Coordinates.
Variable T : Type.

(** [mapnik::geometry::point<T>] and the other alternatives of
    [mapnik::geometry::geometry<T>]; [toJSON] decodes to [T = int64_t]. *)
Record point := mk_point { x : T; y : T }.

Definition line_string := list point.
Definition linear_ring := list point.

Record polygon := mk_polygon {
  exterior_ring : linear_ring;
  interior_rings : list linear_ring
}.

Inductive geometry : Type :=
| geometry_empty
| geometry_point (pt : point)
| geometry_line_string (line : line_string)
| geometry_polygon (poly : polygon)
| geometry_multi_point (pts : list point)
| geometry_multi_line_string (lines : list line_string)
| geometry_multi_polygon (polys : list polygon)
| geometry_collection (geoms : list geometry).

End Coordinates.

Arguments mk_point {T} x y.
Arguments x {T} p.
Arguments y {T} p.
Arguments mk_polygon {T} exterior_ring interior_rings.
Arguments exterior_ring {T} p.
Arguments interior_rings {T} p.
Arguments geometry_empty {T}.
Arguments geometry_point {T} pt.
Arguments geometry_line_string {T} line.
Arguments geometry_polygon {T} poly.
Arguments geometry_multi_point {T} pts.
Arguments geometry_multi_line_string {T} lines.
Arguments geometry_multi_polygon {T} polys.
Arguments geometry_collection {T} geoms.

End Geometry.

Definition geometry_type_name {T : Type} (geom : Geometry.geometry T) : string :=
  match geom with
  | Geometry.geometry_empty => "Empty"
  | Geometry.geometry_point _ => "Point"
  | Geometry.geometry_line_string _ => "LineString"
  | Geometry.geometry_polygon _ => "Polygon"
  | Geometry.geometry_multi_point _ => "MultiPoint"
  | Geometry.geometry_multi_line_string _ => "MultiLineString"
  | Geometry.geometry_multi_polygon _ => "MultiPolygon"
  | Geometry.geometry_collection _ => "GeometryCollection"
  end.

Section GeometryArray.
Context {T : Type}.
(** [Nan::New<v8::Number>(geom.x)] for a coordinate of type [T] *)
Variable Number : T -> double.

Definition point_array (geom : Geometry.point T) : js_value :=
  JsArray [JsNumber (Number (Geometry.x geom)); JsNumber (Number (Geometry.y geom))].

(** The overloads for a line string, a linear ring and a multi-point are
    the same loop over points. *)
Definition points_array (geom : list (Geometry.point T)) : js_value :=
  match geom with
  | [] => JsArray []
  | _ => JsArray (List.map point_array geom)
  end.

Definition multi_line_string_array (geom : list (Geometry.line_string T)) : js_value :=
  match geom with
  | [] => JsArray []
  | _ => JsArray (List.map points_array geom)
  end.

Definition polygon_array (geom : Geometry.polygon T) : js_value :=
  match Geometry.exterior_ring geom with
  | [] => JsArray []
  | _ => JsArray (points_array (Geometry.exterior_ring geom)
                  :: List.map points_array (Geometry.interior_rings geom))
  end.

Definition multi_polygon_array (geom : list (Geometry.polygon T)) : js_value :=
  match geom with
  | [] => JsArray []
  | _ => JsArray (List.map polygon_array geom)
  end.

Fixpoint geometry_array_visitor (geom : Geometry.geometry T) : js_value :=
  match geom with
  | Geometry.geometry_empty => JsArray []
  | Geometry.geometry_point pt => point_array pt
  | Geometry.geometry_line_string line => points_array line
  | Geometry.geometry_polygon poly => polygon_array poly
  | Geometry.geometry_multi_point pts => points_array pts
  | Geometry.geometry_multi_line_string lines => multi_line_string_array lines
  | Geometry.geometry_multi_polygon polys => multi_polygon_array polys
  | Geometry.geometry_collection geoms =>
      match geoms with
      | [] => JsArray []
      | _ => JsArray (List.map geometry_array_visitor geoms)
      end
  end.

(** The coordinates of a geometry other than a collection. *)
Definition polygon_rings (poly : Geometry.polygon T) : list (list (Geometry.point T)) :=
  Geometry.exterior_ring poly :: Geometry.interior_rings poly.

Definition geometry_points (geom : Geometry.geometry T) : list (Geometry.point T) :=
  match geom with
  | Geometry.geometry_empty => []
  | Geometry.geometry_point pt => [pt]
  | Geometry.geometry_line_string line => line
  | Geometry.geometry_polygon poly => List.concat (polygon_rings poly)
  | Geometry.geometry_multi_point pts => pts
  | Geometry.geometry_multi_line_string lines => List.concat lines
  | Geometry.geometry_multi_polygon polys =>
      List.concat (List.map (fun poly => List.concat (polygon_rings poly)) polys)
  | Geometry.geometry_collection _ => []
  end.

(** A polygon has its interior rings listed only behind an exterior ring
    that is not empty. *)
Definition polygon_regular (poly : Geometry.polygon T) : Prop :=
  Geometry.exterior_ring poly = [] -> Geometry.interior_rings poly = [].

(** Geometries the arrays tell apart: no collection, and every polygon
    regular. *)
Definition regular (geom : Geometry.geometry T) : Prop :=
  match geom with
  | Geometry.geometry_polygon poly => polygon_regular poly
  | Geometry.geometry_multi_polygon polys => Forall polygon_regular polys
  | Geometry.geometry_collection _ => False
  | _ => True
  end.

End GeometryArray.

(** Coordinates within a set [safe] of values of [T]. *)
Definition safe_point {T : Type} (safe : T -> Prop) (pt : Geometry.point T) : Prop :=
  safe (Geometry.x pt) /\ safe (Geometry.y pt).

Definition safe_polygon {T : Type} (safe : T -> Prop) (poly : Geometry.polygon T)
  : Prop :=
  polygon_regular poly /\ Forall (Forall (safe_point safe)) (polygon_rings poly).

(* ===================================================================== *)
(** ** [layer_to_geojson], [write_geojson_all], [write_geojson_array]      *)
(* ===================================================================== *)

(** What the writers of GeoJSON call of mapnik and mapnik-vector-tile. *)
Class GeoJSON := {
  (** [tile_datasource_pbf(layer, x, y, z).features(q)] for the query of
      [layer_to_geojson], the box of all doubles with every attribute of
      the layer; [None] is a null featureset *)
  features_everywhere : layer -> Z -> Z -> Z -> option (list feature);
  (** [mapnik::util::to_geojson] of the feature with its geometry
      reprojected by [reproject_copy] to WGS84; [None] when it returns
      false *)
  to_geojson : feature -> option string
}.

(** The double quote and the line feed, for the string literals of the
    writers. *)
Definition quote : string := String (ascii_of_nat 34) EmptyString.
Definition line_feed : string := String (ascii_of_nat 10) EmptyString.

(** The literal in [result += ...] between two features. *)
Definition feature_separator : string := line_feed +:+ ",".

(** The literals that open the collection of a layer and the collection
    of [write_geojson_all], and the one that closes either. *)
Definition type_FeatureCollection : string :=
  "{" +:+ quote +:+ "type" +:+ quote +:+ ":" +:+ quote +:+ "FeatureCollection"
      +:+ quote +:+ ",".

Definition layer_open (layer_name : string) : string :=
  type_FeatureCollection
    +:+ (quote +:+ "name" +:+ quote +:+ ":" +:+ quote +:+ layer_name
         +:+ quote +:+ "," +:+ quote +:+ "features" +:+ quote +:+ ":[").

Definition all_open : string :=
  type_FeatureCollection +:+ quote +:+ "features" +:+ quote +:+ ":[".

Definition collection_close : string := "]}".

Definition geojson_failure : exn := "Failed to generate GeoJSON geometry".

Section GeoJSONWriters.
Context `{G : GeoJSON}.

(** The loop [while ((feature = fs->next()))] of [layer_to_geojson]. *)
Fixpoint geojson_features (fs : list feature) (first : bool) (result : string)
  : exn + (bool * string) :=
  match fs with
  | [] => inr (first, result)
  | feature :: rest =>
      let result := if first then result else result +:+ feature_separator in
      match to_geojson feature with
      | None => inl geojson_failure
      | Some feature_str => geojson_features rest false (result +:+ feature_str)
      end
  end.

(** [layer_to_geojson(layer, result, x, y, z)]: what [result] is
    afterwards and whether a feature was written. *)
Definition layer_to_geojson (layer_msg : layer) (result : string) (x y z : Z)
  : exn + (bool * string) :=
  match features_everywhere layer_msg x y z with
  | Some fs =>
      match geojson_features fs true result with
      | inl e => inl e
      | inr (first, result) => inr (negb first, result)
      end
  | None => inr (false, result)
  end.

(** The loop [while (tile_msg.next(3))] of [write_geojson_array]. *)
Fixpoint write_geojson_array_layers (x y z : Z) (layers : list layer) (first : bool)
  (result : string) : exn + string :=
  match layers with
  | [] => inr result
  | layer_msg :: rest =>
      let result := if first then result else result +:+ "," in
      let layer_name := get_name layer_msg in
      let result := result +:+ layer_open layer_name in
      match layer_to_geojson layer_msg EmptyString x y z with
      | inl e => inl e
      | inr (hit, features) =>
          let result := if hit then result +:+ features else result in
          write_geojson_array_layers x y z rest false (result +:+ collection_close)
      end
  end.

Definition write_geojson_array (result : string) (v : merc_tile) : exn + string :=
  match write_geojson_array_layers (tile_x v) (tile_y v) (tile_z v) (tile_layers v)
                                   true (result +:+ "[")
  with
  | inl e => inl e
  | inr result => inr (result +:+ "]")
  end.

(** The loop [while (tile_msg.next(3))] of [write_geojson_all]. *)
Fixpoint write_geojson_all_layers (x y z : Z) (layers : list layer) (first : bool)
  (result : string) : exn + string :=
  match layers with
  | [] => inr result
  | layer_msg :: rest =>
      match layer_to_geojson layer_msg EmptyString x y z with
      | inl e => inl e
      | inr (hit, features) =>
          if hit then
            let result := if first then result else result +:+ "," in
            write_geojson_all_layers x y z rest false (result +:+ features)
          else write_geojson_all_layers x y z rest first result
      end
  end.

Definition write_geojson_all (result : string) (v : merc_tile) : exn + string :=
  match write_geojson_all_layers (tile_x v) (tile_y v) (tile_z v) (tile_layers v)
                                 true (result +:+ all_open)
  with
  | inl e => inl e
  | inr result => inr (result +:+ collection_close)
  end.

(** The GeoJSON of the features of a featureset, when each of them has
    one. *)
Fixpoint feature_strings (fs : list feature) : option (list string) :=
  match fs with
  | [] => Some []
  | feature :: rest =>
      match to_geojson feature, feature_strings rest with
      | Some feature_str, Some strs => Some (feature_str :: strs)
      | _, _ => None
      end
  end.

(** The GeoJSON of the features of a layer; a null featureset has
    none. *)
Definition layer_body (x y z : Z) (layer_msg : layer) : option (list string) :=
  match features_everywhere layer_msg x y z with
  | Some fs => feature_strings fs
  | None => Some []
  end.

(** The layers of a tile by name, each with the GeoJSON of its
    features. *)
Fixpoint layer_strings (x y z : Z) (layers : list layer)
  : option (list (string * list string)) :=
  match layers with
  | [] => Some []
  | layer_msg :: rest =>
      match layer_body x y z layer_msg, layer_strings x y z rest with
      | Some strs, Some others => Some ((get_name layer_msg, strs) :: others)
      | _, _ => None
      end
  end.

End GeoJSONWriters.

(** The features of one layer, joined. *)
Definition joined_features (strs : list string) : string :=
  String.concat feature_separator strs.

Definition has_features (named : string * list string) : bool :=
  match snd named with [] => false | _ => true end.

(** The collection [write_geojson_array] writes for one layer. *)
Definition layer_collection (named : string * list string) : string :=
  layer_open (fst named) +:+ joined_features (snd named) +:+ collection_close.

(** What a loop with a [first] flag puts before the joined items: the
    separator, unless this is the start or nothing follows. *)
Definition lead {A : Type} (sep : string) (first : bool) (items : list A) : string :=
  if first then EmptyString
  else match items with [] => EmptyString | _ => sep end.

(* ===================================================================== *)
(** ** More concrete cases                                                 *)
(* ===================================================================== *)

Module Cases.
Import Fixtures Runs.

(** Two points, at the distances 3 and 1 from the origin. *)
Definition hamlets : geometry := geometry_multi_point [pt 3 0; pt 0 1].

(** A line at height 1. *)
Definition lane : line_string := [pt 0 1; pt 2 1].

(** The record of [place_a] for a query at the place itself. *)
Definition at_a : query_result := hit "places" 0 1 0 place_a.

(** A tile of two layers, and the record of its parcel for a query
    inside it. *)
Definition tile_town : merc_tile :=
  mk_merc_tile 0 0 0 4096 128 [parcels ring_road; places] [] [].

Definition in_parcel : query_result := hit "parcels" 0 0 0 (parcel ring_road).

Definition callback : js_value := JsFunction 0.

Definition two_bytes : js_value := JsBuffer [Byte.x1a; Byte.x00].

Definition negative_buffer : js_value :=
  JsObject [("buffer_size"%string, JsNumber (-64))].

(** A projection that refuses a NaN, and the collaborators of
    [Reference.env] with it. *)
Definition forward (x y : double) : option (double * double) :=
  if ordered x && ordered y then Some (x, y) else None.

Definition guarded_env : Collaborators :=
  Build_Collaborators
    Reference.distance Reference.point_to_segment_distance Reference.pip
    forward (fun a b => Some (a, b))
    (fun l _ _ _ => Some (layer_features l))
    unit tt (fun b _ _ => b) (fun b _ => b)
    (fun l _ _ => Some (layer_features l))
    Reference.insertion_sort
    (fun data _ _ => inr data)
    1073741823
    (fun t data => (t, None)).

(** Writers of GeoJSON that see every feature of a layer and write a
    feature as its id. *)
Definition geojson_env : GeoJSON :=
  Build_GeoJSON (fun l _ _ _ => Some (layer_features l))
                (fun f => Some (pretty (feature_id f))).

(** A decoded line of two points, written in two ways. *)
Definition path : Geometry.geometry Z :=
  Geometry.geometry_line_string [Geometry.mk_point 0 1; Geometry.mk_point 2 3].

Definition path' : Geometry.geometry Z :=
  Geometry.geometry_line_string
    (List.map (fun z => Geometry.mk_point z (z + 1)) [0; 2]).

End Cases.

(* ===================================================================== *)
(** * Part IV. Properties *)
(* ===================================================================== *)

(* ===================================================================== *)
(** ** Order on binary64 *)
(* ===================================================================== *)

Module DoubleFacts.
Import Double.

Lemma SFleb_key (x y : spec_float) :
  SFleb x y = true <->
  exists kx ky, key x = Some kx /\ key y = Some ky /\ key_le kx ky.
Proof.
  unfold SFleb, SFcompare.
  destruct x as [sx|sx| |sx mx ex], y as [sy|sy| |sy my ey];
    try destruct sx; try destruct sy; simpl;
    try rewrite Pos.compare_cont_spec; simpl;
    repeat match goal with
           | |- context [Z.compare ?a ?b] => destruct (Z.compare_spec a b)
           | |- context [Pos.compare ?a ?b] => destruct (Pos.compare_spec a b)
           end; simpl;
    split; intros HH;
    try discriminate;
    try (destruct HH as (kx & ky & Hx & Hy & Hk); try discriminate;
         injection Hx as <-; injection Hy as <-; simpl in Hk; lia);
    try (eexists; eexists; split; [reflexivity|split; [reflexivity|simpl; lia]]).
Qed.

Lemma SFltb_key (x y : spec_float) :
  SFltb x y = true <->
  exists kx ky, key x = Some kx /\ key y = Some ky /\ key_lt kx ky.
Proof.
  unfold SFltb, SFcompare.
  destruct x as [sx|sx| |sx mx ex], y as [sy|sy| |sy my ey];
    try destruct sx; try destruct sy; simpl;
    try rewrite Pos.compare_cont_spec; simpl;
    repeat match goal with
           | |- context [Z.compare ?a ?b] => destruct (Z.compare_spec a b)
           | |- context [Pos.compare ?a ?b] => destruct (Pos.compare_spec a b)
           end; simpl;
    split; intros HH;
    try discriminate;
    try (destruct HH as (kx & ky & Hx & Hy & Hk); try discriminate;
         injection Hx as <-; injection Hy as <-; simpl in Hk; lia);
    try (eexists; eexists; split; [reflexivity|split; [reflexivity|simpl; lia]]).
Qed.

Lemma leb_key (a b : double) :
  leb a b = true <->
  exists ka kb, key (Prim2SF a) = Some ka /\ key (Prim2SF b) = Some kb /\ key_le ka kb.
Proof. unfold leb. rewrite leb_spec. apply SFleb_key. Qed.

Lemma ltb_key (a b : double) :
  ltb a b = true <->
  exists ka kb, key (Prim2SF a) = Some ka /\ key (Prim2SF b) = Some kb /\ key_lt ka kb.
Proof. unfold ltb. rewrite ltb_spec. apply SFltb_key. Qed.

Lemma ordered_key (a : double) :
  ordered a = true <-> exists ka, key (Prim2SF a) = Some ka.
Proof.
  unfold ordered. rewrite leb_key. split.
  - intros (ka & _ & Ha & _). eauto.
  - intros (ka & Ha). exists ka, ka. repeat split; trivial.
    destruct ka as [[x y] z]. simpl. lia.
Qed.

Ltac key_solve :=
  repeat match goal with
         | H : exists _, _ |- _ => destruct H
         | H : _ /\ _ |- _ => destruct H
         | H1 : key ?f = Some ?k1, H2 : key ?f = Some ?k2 |- _ =>
             rewrite H1 in H2; injection H2 as <-
         | k : (Z * Z * Z)%type |- _ => destruct k as [[? ?] ?]
         end;
  unfold key_le, key_lt in *.

Lemma leb_trans (a b c : double) :
  leb a b = true -> leb b c = true -> leb a c = true.
Proof.
  rewrite !leb_key. intros H1 H2. key_solve.
  eexists; eexists; split; [eassumption|split; [eassumption|]]. simpl. lia.
Qed.

Lemma leb_ordered_l (a b : double) : leb a b = true -> ordered a = true.
Proof. rewrite leb_key, ordered_key. intros H. key_solve. eauto. Qed.

Lemma leb_ordered_r (a b : double) : leb a b = true -> ordered b = true.
Proof. rewrite leb_key, ordered_key. intros H. key_solve. eauto. Qed.

Lemma ltb_leb (a b : double) : ltb a b = true -> leb a b = true.
Proof.
  rewrite ltb_key, leb_key. intros H. key_solve.
  eexists; eexists; split; [eassumption|split; [eassumption|]]. simpl. lia.
Qed.

(** On ordered values [<] is the complement of the converse of [<=]. *)
Lemma ltb_negb_leb (a b : double) :
  ordered a = true -> ordered b = true -> ltb a b = negb (leb b a).
Proof.
  rewrite !ordered_key. intros [ka Ha] [kb Hb].
  destruct (ltb a b) eqn:Hlt, (leb b a) eqn:Hle; simpl; trivial; exfalso.
  - apply ltb_key in Hlt. apply leb_key in Hle. key_solve. simpl in *. lia.
  - assert (Hlt' : ltb a b = true).
    { apply ltb_key. exists ka, kb. repeat split; trivial.
      assert (Hn : ~ (exists k1 k2, key (Prim2SF b) = Some k1 /\
                                     key (Prim2SF a) = Some k2 /\ key_le k1 k2)).
      { rewrite <- leb_key. congruence. }
      destruct ka as [[a1 a2] a3], kb as [[b1 b2] b3]. simpl.
      destruct (Z_lt_le_dec a1 b1); [lia|].
      destruct (Z.eq_dec a1 b1);
        [|exfalso; apply Hn; eexists; eexists; repeat split; eauto; simpl; lia].
      destruct (Z_lt_le_dec a2 b2); [lia|].
      destruct (Z.eq_dec a2 b2);
        [|exfalso; apply Hn; eexists; eexists; repeat split; eauto; simpl; lia].
      destruct (Z_lt_le_dec a3 b3); [lia|].
      exfalso; apply Hn; eexists; eexists; repeat split; eauto; simpl; lia. }
    congruence.
Qed.

Lemma ltb_irrefl (a : double) : ltb a a = false.
Proof.
  destruct (ltb a a) eqn:H; trivial. exfalso.
  apply ltb_key in H. key_solve. simpl in *. lia.
Qed.

Lemma ltb_trans (a b c : double) :
  ltb a b = true -> ltb b c = true -> ltb a c = true.
Proof.
  rewrite !ltb_key. intros H1 H2. key_solve.
  eexists; eexists; split; [eassumption|split; [eassumption|]]. simpl. lia.
Qed.

(** Incomparability under [<] is transitive on ordered values, which
    makes [<] a strict weak ordering there. *)
Lemma ltb_neg_trans (a b c : double) :
  ordered a = true -> ordered b = true -> ordered c = true ->
  ltb a b = false -> ltb b c = false -> ltb a c = false.
Proof.
  intros Ha Hb Hc.
  rewrite !ltb_negb_leb by trivial. rewrite !negb_false_iff.
  intros H1 H2. eapply leb_trans; eassumption.
Qed.

Lemma zero_ordered : ordered zero = true.
Proof. reflexivity. Qed.

Lemma minus_one_negative : geb minus_one zero = false.
Proof. reflexivity. Qed.

End DoubleFacts.

Import DoubleFacts.

(* ===================================================================== *)
(** ** The query is a sort of the hits in scan order *)
(* ===================================================================== *)

Section QueryFacts.
Context `{C : Collaborators}.

Lemma query_features_eq (x y tolerance : double) (name : string) :
  backward_total ->
  forall fs arr,
    query_features x y tolerance name fs arr
    = ([], inr (arr ++ hits_of x y tolerance name fs)).
Proof.
  intros Hb fs. induction fs as [|f rest IH]; intros arr.
  - simpl. unfold ret. now rewrite app_nil_r.
  - cbn [query_features].
    destruct (tr_backward _ _) as [[xh yh]|] eqn:Hq; [|now apply Hb in Hq].
    assert (Hrec : record_of x y (name, f)
                   = mk_query_result name
                       (distance (path_to_point_distance (feature_geometry f) x y))
                       xh yh f).
    { unfold record_of. cbn [fst snd]. now rewrite Hq. }
    rewrite IH. unfold hits_of. cbn [List.map List.filter].
    rewrite Hrec. unfold within at 2. cbn [qr_distance].
    destruct (geb _ zero && leb _ tolerance); [|reflexivity].
    now rewrite <- app_assoc.
Qed.

Lemma query_layer_eq (x y tolerance : double) (name : string) (l : layer) arr :
  backward_total ->
  query_layer x y tolerance name l arr
  = ([ev_features_at_point (get_name l) x y tolerance],
     inr (arr ++ hits_of x y tolerance name (featureset l x y tolerance))).
Proof.
  intros Hb. unfold query_layer, featureset, bind, call.
  destruct (features_at_point l x y tolerance) as [fs|].
  - now rewrite query_features_eq.
  - unfold ret, hits_of. simpl. now rewrite app_nil_r.
Qed.

Lemma query_layers_eq (x y tolerance : double) :
  backward_total ->
  forall ls arr,
    query_layers x y tolerance ls arr
    = (List.map (fun l => ev_features_at_point (get_name l) x y tolerance) ls,
       inr (arr ++ layers_hits x y tolerance ls)).
Proof.
  intros Hb ls. induction ls as [|l rest IH]; intros arr.
  - simpl. unfold ret, layers_hits. simpl. now rewrite app_nil_r.
  - cbn [query_layers]. rewrite query_layer_eq by assumption.
    unfold bind. rewrite IH. cbn [List.map app].
    unfold layers_hits, hits_of. cbn [flat_map].
    now rewrite map_app, filter_app, app_assoc.
Qed.

(** The query is [std::sort] applied to the hits in scan order. *)
Lemma _query_eq (d : merc_tile) (lon lat tolerance x y : double) (name : string) :
  backward_total ->
  tr_forward lon lat = Some (x, y) ->
  is_empty d = false ->
  _query d lon lat tolerance name
  = (scan_trace d x y tolerance name,
     inr (std_sort _ _querySort (scan_hits d x y tolerance name))).
Proof.
  intros Hb Hf He. unfold _query, scan_trace, scan_hits, scanned.
  rewrite He, Hf.
  destruct (negb (string_empty name)).
  - destruct (layer_reader name d) as [l|].
    + rewrite query_layer_eq by assumption. unfold bind, ret. cbn [app].
      unfold hits_of. now rewrite ?app_nil_r.
    + reflexivity.
  - rewrite query_layers_eq by assumption. unfold bind, ret. cbn [app].
    unfold layers_hits. now rewrite ?app_nil_r.
Qed.

Lemma within_ordered (tolerance : double) (r : query_result) :
  within tolerance r = true -> ordered (qr_distance r) = true.
Proof.
  unfold within, geb. rewrite andb_true_iff. intros [H _].
  eapply leb_ordered_r; eassumption.
Qed.

Lemma _querySort_strict_weak (l : list query_result) :
  (forall r, In r l -> ordered (qr_distance r) = true) ->
  strict_weak_on _querySort l.
Proof.
  intros Ho. unfold _querySort. repeat split.
  - intros a _. apply ltb_irrefl.
  - intros a b c _ _ _. apply ltb_trans.
  - intros a b c Ha Hb Hc. apply ltb_neg_trans; auto.
Qed.

Lemma scan_hits_within (d : merc_tile) (x y tolerance : double) (name : string) r :
  In r (scan_hits d x y tolerance name) -> within tolerance r = true.
Proof. unfold scan_hits. rewrite filter_In. tauto. Qed.

End QueryFacts.

Lemma StronglySorted_weaken {A : Type} (R R' : A -> A -> Prop) (l : list A) :
  (forall a b, In a l -> In b l -> R a b -> R' a b) ->
  StronglySorted R l -> StronglySorted R' l.
Proof.
  intros Himp Hs. induction Hs as [|a l Hs IH Hall]; constructor.
  - apply IH. intros x z Hx Hz. apply Himp; now right.
  - rewrite Forall_forall in *. intros b Hb.
    apply Himp; [now left|now right|auto].
Qed.

(* ===================================================================== *)
(** ** The reference instance meets the assumptions *)
(* ===================================================================== *)

Module ReferenceFacts.
Import Reference.

Lemma strict_weak_on_incl {A : Type} (comp : A -> A -> bool) (l l' : list A) :
  incl l' l -> strict_weak_on comp l -> strict_weak_on comp l'.
Proof.
  intros Hi (Hirr & Htr & Hneg). repeat split.
  - intros a Ha. apply Hirr. now apply Hi.
  - intros a b c Ha Hb Hc. apply Htr; now apply Hi.
  - intros a b c Ha Hb Hc. apply Hneg; now apply Hi.
Qed.

Lemma insert_before_perm {A : Type} (comp : A -> A -> bool) (x : A) (l : list A) :
  Permutation (x :: l) (insert_before comp x l).
Proof.
  induction l as [|y t IH]; simpl; [reflexivity|].
  destruct (comp y x); [|reflexivity].
  rewrite perm_swap. now constructor.
Qed.

Lemma insert_before_ascending {A : Type} (comp : A -> A -> bool) (x : A) :
  forall l,
    strict_weak_on comp (x :: l) ->
    ascending comp l -> ascending comp (insert_before comp x l).
Proof.
  unfold ascending.
  induction l as [|y t IH]; intros Hswo Hs; simpl.
  - repeat constructor.
  - pose proof Hswo as (Hirr & Htr & Hneg).
    inversion Hs as [|? ? Hst Hall]; subst.
    rewrite Forall_forall in Hall.
    destruct (comp y x) eqn:Hyx.
    + constructor.
      * apply IH; [|assumption].
        eapply strict_weak_on_incl; [|exact Hswo].
        intros a [<-|Ha]; [now left|now right; right].
      * rewrite Forall_forall. intros b Hb.
        apply (Permutation_in _ (Permutation_sym (insert_before_perm comp x t))) in Hb.
        destruct Hb as [<-|Hb]; [|now apply Hall].
        destruct (comp x y) eqn:Hxy; [|reflexivity].
        rewrite <- (Hirr x (or_introl eq_refl)).
        symmetry. apply (Htr x y x); simpl; auto.
    + constructor; [assumption|].
      rewrite Forall_forall. intros b [<-|Hb]; [assumption|].
      apply (Hneg b y x); simpl; auto.
Qed.

Lemma insertion_sort_acc {A : Type} (comp : A -> A -> bool) :
  forall l acc,
    strict_weak_on comp (acc ++ l) ->
    ascending comp acc ->
    let out := fold_left (fun acc x => insert_before comp x acc) l acc in
    Permutation (acc ++ l) out /\ ascending comp out.
Proof.
  induction l as [|x t IH]; intros acc Hswo Hs; simpl.
  - rewrite app_nil_r. split; [reflexivity|assumption].
  - assert (Hp : Permutation (acc ++ x :: t) (insert_before comp x acc ++ t)).
    { rewrite <- (insert_before_perm comp x acc). simpl.
      symmetry. apply Permutation_middle. }
    destruct (IH (insert_before comp x acc)) as [Hperm Hasc].
    + eapply strict_weak_on_incl; [|exact Hswo].
      intros a Ha. eapply Permutation_in; [symmetry; exact Hp|exact Ha].
    + apply insert_before_ascending; [|assumption].
      eapply strict_weak_on_incl; [|exact Hswo].
      intros a [<-|Ha]; apply in_or_app; [right; now left|now left].
    + split; [|assumption]. now rewrite Hp.
Qed.

(** The instance meets everything the collaborators are relied on for. *)
Lemma env_std_sort_contract : @std_sort_contract env.
Proof.
  intros A comp l Hswo. simpl. unfold insertion_sort.
  apply (insertion_sort_acc comp l []); [assumption|constructor].
Qed.

Lemma env_backward_total : @backward_total env.
Proof. intros a b. discriminate. Qed.

Lemma env_featureset_monotone : @featureset_monotone env.
Proof. intros l x y t1 t2 f _ _ H. exact H. Qed.

End ReferenceFacts.

(* ===================================================================== *)
(** ** Properties of the point query                                       *)
(* ===================================================================== *)

Section QueryProperties.
Context `{C : Collaborators}.

Lemma scan_hits_In (d : merc_tile) (x y tolerance : double) (name : string) r :
  In r (scan_hits d x y tolerance name) <->
  exists nf, In nf (scanned d x y tolerance name) /\ r = record_of x y nf /\
             geb (qr_distance r) zero = true /\ leb (qr_distance r) tolerance = true.
Proof.
  unfold scan_hits. rewrite filter_In, in_map_iff. unfold within.
  rewrite andb_true_iff. split.
  - intros [(nf & <- & Hin) Hw]. exists nf. tauto.
  - intros (nf & Hin & -> & Hw). split; [exists nf|]; tauto.
Qed.

Lemma scanned_monotone (d : merc_tile) (x y t1 t2 : double) (name : string) nf :
  featureset_monotone -> leb zero t1 = true -> leb t1 t2 = true ->
  In nf (scanned d x y t1 name) -> In nf (scanned d x y t2 name).
Proof.
  intros Hm H0 Hle. unfold scanned.
  destruct (is_empty d); [trivial|].
  destruct (negb (string_empty name)).
  - destruct (layer_reader name d) as [l|]; [|trivial].
    rewrite !in_map_iff. intros (f & <- & Hf). exists f. split; [trivial|].
    eapply Hm; eassumption.
  - rewrite !in_flat_map. intros (l & Hl & Hin). exists l. split; [trivial|].
    rewrite in_map_iff in *. destruct Hin as (f & <- & Hf). exists f.
    split; [trivial|]. eapply Hm; eassumption.
Qed.

Lemma layer_reader_absent (d : merc_tile) (name : string) :
  (forall l, In l (tile_layers d) -> get_name l <> name) ->
  layer_reader name d = None.
Proof.
  intros Hno. unfold layer_reader.
  destruct (List.find _ _) as [l|] eqn:Hfind; [|reflexivity].
  apply find_some in Hfind. destruct Hfind as [Hin Heq].
  apply String.eqb_eq in Heq. now apply Hno in Hin.
Qed.

Lemma std_sort_nil (A : Type) (comp : A -> A -> bool) :
  std_sort_contract -> std_sort A comp [] = [].
Proof.
  intros Hs. destruct (Hs A comp []) as [Hp _].
  - repeat split; intros; contradiction.
  - now apply Permutation_nil in Hp.
Qed.

(** On a tile that is not empty the query returns [std::sort] of the hits
    in scan order, and the contract of [std::sort] applies to them. *)
Lemma _query_sorted (d : merc_tile) (lon lat tolerance x y : double) (name : string) :
  std_sort_contract -> backward_total ->
  tr_forward lon lat = Some (x, y) ->
  is_empty d = false ->
  let hits := scan_hits d x y tolerance name in
  outcome_of (_query d lon lat tolerance name) = inr (std_sort _ _querySort hits) /\
  Permutation hits (std_sort _ _querySort hits) /\
  ascending _querySort (std_sort _ _querySort hits).
Proof.
  intros Hsort Hb Hf He hits.
  rewrite (_query_eq d lon lat tolerance x y name Hb Hf He).
  split; [reflexivity|].
  apply Hsort. apply _querySort_strict_weak.
  intros r Hr. eapply within_ordered, scan_hits_within, Hr.
Qed.

End QueryProperties.

(** C1 (amended). When the query returns, its list is a rearrangement of
    the hits met in scan order: a record is in it exactly when it is the
    record of a scanned feature whose computed distance [d] satisfies
    [0 <= d <= tolerance]; and the list is in ascending order of distance.
    The order among records of equal distance is whatever [std::sort]
    leaves. *)
Theorem query_returns_sorted_hits `{C : Collaborators} :
  std_sort_contract -> backward_total ->
  forall (d : merc_tile) (lon lat tolerance x y : double) (name : string),
    tr_forward lon lat = Some (x, y) ->
    exists result,
      outcome_of (_query d lon lat tolerance name) = inr result /\
      Permutation (scan_hits d x y tolerance name) result /\
      (forall r, In r result <->
                 exists nf, In nf (scanned d x y tolerance name) /\
                            r = record_of x y nf /\
                            geb (qr_distance r) zero = true /\
                            leb (qr_distance r) tolerance = true) /\
      StronglySorted (fun a b => leb (qr_distance a) (qr_distance b) = true) result.
Proof.
  intros Hsort Hb d lon lat tolerance x y name Hf.
  destruct (is_empty d) eqn:He.
  - exists []. unfold _query, scan_hits, scanned. rewrite He. simpl.
    repeat split; try constructor; try contradiction.
    intros (nf & [] & _).
  - destruct (_query_sorted d lon lat tolerance x y name Hsort Hb Hf He)
      as (Hout & Hperm & Hasc).
    set (hits := scan_hits d x y tolerance name) in *.
    exists (std_sort _ _querySort hits).
    assert (Hord : forall r, In r (std_sort _ _querySort hits) ->
                             ordered (qr_distance r) = true).
    { intros r Hr. apply (within_ordered tolerance).
      apply (scan_hits_within d x y tolerance name).
      eapply Permutation_in; [symmetry; exact Hperm|exact Hr]. }
    split; [exact Hout|]. split; [exact Hperm|]. split.
    + intros r. rewrite <- scan_hits_In. split; intros Hr.
      * eapply Permutation_in; [symmetry; exact Hperm|exact Hr].
      * eapply Permutation_in; [exact Hperm|exact Hr].
    + eapply StronglySorted_weaken; [|exact Hasc].
      intros a b Ha Hb' Hlt. unfold _querySort in Hlt.
      rewrite (ltb_negb_leb _ _ (Hord b Hb') (Hord a Ha)) in Hlt.
      now apply negb_false_iff in Hlt.
Qed.

(** C3. With tolerances [t1 <= t2], every hit of the query at [t1] is a
    hit of the query at [t2]: whenever the query at [t1] returns a list,
    the query at [t2] returns a list that contains each of its records. *)
Theorem query_tolerance_monotone `{C : Collaborators} :
  std_sort_contract -> backward_total -> featureset_monotone ->
  forall (d : merc_tile) (lon lat t1 t2 : double) (name : string) r1,
    leb t1 t2 = true ->
    outcome_of (_query d lon lat t1 name) = inr r1 ->
    exists r2,
      outcome_of (_query d lon lat t2 name) = inr r2 /\
      forall r, In r r1 -> In r r2.
Proof.
  intros Hsort Hb Hm d lon lat t1 t2 name r1 Hle H1.
  destruct (is_empty d) eqn:He.
  - exists []. unfold _query in *. rewrite He in *.
    unfold outcome_of, ret in *. cbn [snd] in *.
    injection H1 as <-. split; [reflexivity|trivial].
  - destruct (tr_forward lon lat) as [[x y]|] eqn:Hf.
    + destruct (_query_sorted d lon lat t1 x y name Hsort Hb Hf He)
        as (Ho1 & Hp1 & _).
      destruct (_query_sorted d lon lat t2 x y name Hsort Hb Hf He)
        as (Ho2 & Hp2 & _).
      eexists. split; [exact Ho2|].
      rewrite Ho1 in H1. injection H1 as <-.
      intros r Hr.
      apply (Permutation_in _ (Permutation_sym Hp1)) in Hr.
      apply (Permutation_in _ Hp2).
      apply scan_hits_In in Hr. apply scan_hits_In.
      destruct Hr as (nf & Hnf & Hrec & H0 & Ht). exists nf.
      split; [|split; [exact Hrec|split; [exact H0|]]].
      * apply (scanned_monotone d x y t1 t2 name nf Hm); trivial.
        exact (leb_trans zero (qr_distance r) t1 H0 Ht).
      * exact (leb_trans (qr_distance r) t1 t2 Ht Hle).
    + unfold _query in H1. rewrite He, Hf in H1. discriminate.
Qed.

(** C4. A query that names a layer the tile does not hold returns the
    empty list: it raises nothing and asks no datasource for features. *)
Theorem query_missing_layer_empty `{C : Collaborators} :
  std_sort_contract ->
  forall (d : merc_tile) (lon lat tolerance : double) (name : string),
    tr_forward lon lat <> None ->
    name <> EmptyString ->
    (forall l, In l (tile_layers d) -> get_name l <> name) ->
    _query d lon lat tolerance name = ([], inr []).
Proof.
  intros Hsort d lon lat tolerance name Hf Hname Hno.
  unfold _query.
  destruct (is_empty d); [reflexivity|].
  destruct (tr_forward lon lat) as [[x y]|]; [|congruence].
  destruct name as [|c name']; [congruence|]. cbn [string_empty negb].
  rewrite (layer_reader_absent d _ Hno).
  unfold bind, ret. cbn [app]. now rewrite std_sort_nil.
Qed.

(** C9. On a tile whose [is_empty] holds the query returns the empty list
    for every longitude, latitude, tolerance and layer name, with no
    outside call made: no projection, no layer scan, no exception. *)
Theorem query_empty_tile `{C : Collaborators} :
  forall (d : merc_tile) (lon lat tolerance : double) (name : string),
    is_empty d = true ->
    _query d lon lat tolerance name = ([], inr []).
Proof.
  intros d lon lat tolerance name He. unfold _query. now rewrite He.
Qed.

(* ===================================================================== *)
(** ** Polygons *)
(* ===================================================================== *)

Section PolygonFacts.
Context `{C : Collaborators}.
Variables x y : double.

Lemma ring_toggle_xorb (ring : linear_ring) (inside : bool) :
  ring_toggle x y ring inside = xorb inside (ring_parity x y ring).
Proof.
  unfold ring_parity, ring_toggle.
  generalize (segments ring) as segs. intros segs. revert inside.
  induction segs as [|[pt0 pt1] rest IH]; intros inside; cbn [fold_left].
  - now rewrite xorb_false_r.
  - destruct (pip _ _ _ _ x y).
    + rewrite (IH (negb inside)), (IH (negb false)).
      destruct inside, (fold_left _ rest false); reflexivity.
    + apply IH.
Qed.

Lemma interior_fold_xorb (rings : list linear_ring) (inside : bool) :
  fold_left
    (fun inside ring =>
       let num_interior_points := List.length ring in
       if (num_interior_points <? 4)%nat then inside
       else ring_toggle x y ring inside)
    rings inside
  = xorb inside (interior_parity x y rings).
Proof.
  unfold interior_parity. cbv zeta.
  assert (Hgen : forall acc,
             fold_left (fun acc ring =>
                          if (List.length ring <? 4)%nat then acc
                          else xorb acc (ring_parity x y ring)) rings acc
             = xorb acc (fold_left (fun acc ring =>
                          if (List.length ring <? 4)%nat then acc
                          else xorb acc (ring_parity x y ring)) rings false)).
  { induction rings as [|ring rest IH]; intros acc; cbn [fold_left].
    - now rewrite xorb_false_r.
    - destruct (List.length ring <? 4)%nat; [apply IH|].
      rewrite (IH (xorb acc (ring_parity x y ring))).
      rewrite (IH (xorb false (ring_parity x y ring))).
      rewrite xorb_false_l. now rewrite xorb_assoc. }
  rewrite <- Hgen. clear Hgen. revert inside.
  induction rings as [|ring rest IH]; intros inside; simpl; [reflexivity|].
  rewrite IH. now rewrite ring_toggle_xorb.
Qed.

Lemma p2p_polygon_eq (poly : polygon) :
  p2p_polygon x y poly
  = if polygon_contains x y poly then p2p_inside else p2p_default.
Proof.
  unfold p2p_polygon, polygon_contains. cbv zeta.
  rewrite interior_fold_xorb.
  fold (ring_parity x y (exterior_ring poly)).
  destruct (Nat.ltb_spec (List.length (exterior_ring poly)) 4) as [Hlt|Hge].
  - replace (4 <=? _)%nat with false; [reflexivity|].
    symmetry. apply Nat.leb_gt. exact Hlt.
  - replace (4 <=? _)%nat with true
      by (symmetry; apply Nat.leb_le; exact Hge).
    destruct (ring_parity x y (exterior_ring poly)); simpl; [|reflexivity].
    destruct (interior_parity x y (interior_rings poly)); reflexivity.
Qed.

Lemma p2p_update_inside (p2p : p2p_result) :
  p2p = p2p_default \/ p2p = p2p_inside ->
  p2p_update p2p p2p_inside = p2p_inside /\ p2p_update p2p p2p_default = p2p.
Proof. intros [-> | ->]; split; reflexivity. Qed.

Lemma p2p_multi_polygon_eq (polys : list polygon) :
  p2p_multi_polygon x y polys
  = if existsb (polygon_contains x y) polys then p2p_inside else p2p_default.
Proof.
  unfold p2p_multi_polygon.
  assert (Hgen : forall acc,
             acc = p2p_default \/ acc = p2p_inside ->
             fold_left (fun p2p poly => p2p_update p2p (p2p_polygon x y poly)) polys acc
             = if existsb (polygon_contains x y) polys then p2p_inside else acc).
  { induction polys as [|poly rest IH]; intros acc Hacc; simpl; [reflexivity|].
    rewrite p2p_polygon_eq.
    destruct (p2p_update_inside acc Hacc) as [Hin Hout].
    destruct (polygon_contains x y poly); simpl.
    - rewrite Hin, IH by now right. now destruct (existsb _ rest).
    - rewrite Hout. now apply IH. }
  apply Hgen. now left.
Qed.

End PolygonFacts.

(** C2 (amended). For a polygon, the visitor runs the even-odd crossing
    test on the exterior ring; an exterior ring of fewer than 4 points, or
    a point the exterior test puts outside, gives no hit, whatever the
    interior rings are; otherwise the answer is toggled by each interior
    ring of at least 4 points.  The result is distance exactly 0 when the
    point is contained and the default (distance -1, which no tolerance
    admits) when it is not, so a polygon or multi-polygon feature is a hit
    exactly when a polygon of it contains the point and the tolerance is
    not negative; a multi-polygon is contained when one of its polygons
    is.  Where the exterior test succeeds this is the even-odd rule. *)
Theorem polygon_hit_iff_contained `{C : Collaborators} :
  forall (x y : double) (poly : polygon) (polys : list polygon),
    ((List.length (exterior_ring poly) < 4)%nat ->
     p2p_polygon x y poly = p2p_default) /\
    (ring_parity x y (exterior_ring poly) = false ->
     p2p_polygon x y poly = p2p_default) /\
    p2p_polygon x y poly
      = (if polygon_contains x y poly then p2p_inside else p2p_default) /\
    p2p_multi_polygon x y polys
      = (if existsb (polygon_contains x y) polys then p2p_inside else p2p_default) /\
    (ring_parity x y (exterior_ring poly) = true ->
     polygon_contains x y poly = even_odd_contains x y poly) /\
    (forall (tolerance : double) (nf : string * feature),
        feature_geometry (snd nf) = geometry_polygon poly ->
        within tolerance (record_of x y nf)
        = polygon_contains x y poly && leb zero tolerance) /\
    (forall (tolerance : double) (nf : string * feature),
        feature_geometry (snd nf) = geometry_multi_polygon polys ->
        within tolerance (record_of x y nf)
        = existsb (polygon_contains x y) polys && leb zero tolerance).
Proof.
  intros x y poly polys.
  assert (Hw : forall tolerance nf (b : bool),
             path_to_point_distance (feature_geometry (snd nf)) x y
             = (if b then p2p_inside else p2p_default) ->
             within tolerance (record_of x y nf) = b && leb zero tolerance).
  { intros tolerance nf b Hp. unfold within, record_of. rewrite Hp.
    destruct (tr_backward _ _) as [[xh yh]|]; destruct b; reflexivity. }
  repeat split.
  - intros Hlt. rewrite p2p_polygon_eq. unfold polygon_contains.
    replace (4 <=? _)%nat with false; [reflexivity|].
    symmetry. apply Nat.leb_gt. exact Hlt.
  - intros Hout. rewrite p2p_polygon_eq. unfold polygon_contains.
    rewrite Hout. now rewrite andb_false_r.
  - apply p2p_polygon_eq.
  - apply p2p_multi_polygon_eq.
  - intros Hin. unfold polygon_contains, even_odd_contains. rewrite Hin.
    now rewrite andb_true_r.
  - intros tolerance nf Hg. apply Hw. unfold path_to_point_distance.
    rewrite Hg. cbn [p2p_distance]. apply p2p_polygon_eq.
  - intros tolerance nf Hg. apply Hw. unfold path_to_point_distance.
    rewrite Hg. cbn [p2p_distance]. apply p2p_multi_polygon_eq.
Qed.

(* ===================================================================== *)
(** ** Properties of [queryMany]                                           *)
(* ===================================================================== *)

Section QueryManyProperties.
Context `{C : Collaborators}.

Lemma queryMany_options_no_layer (options : js_value) :
  Has options "layer" = false \/ Get options "layer" = JsString EmptyString ->
  match queryMany_options options with
  | inl _ => True
  | inr (_, name, _) => name = EmptyString
  end.
Proof.
  intros Hl. unfold queryMany_options.
  destruct (if Has options "tolerance" then _ else _) as [e|tolerance]; [trivial|].
  assert (Hf : forall name : string,
             match
               (if Has options "fields" then
                  let param_val := Get options "fields" in
                  if negb (IsArray param_val) then
                    inl (TypeError "option 'fields' must be an array of strings")
                  else
                    inr (tolerance, name,
                         List.map TOSTR (List.filter IsString (Array_items param_val)))
                else inr (tolerance, name, []))
             with
             | inl _ => True
             | inr (_, name', _) => name' = name
             end).
  { intros name. destruct (Has options "fields"); [|reflexivity].
    cbv zeta. now destruct (negb (IsArray (Get options "fields"))). }
  destruct Hl as [Hh | Hg].
  - rewrite Hh. apply Hf.
  - destruct (Has options "layer"); [|apply Hf].
    cbv zeta. rewrite Hg. cbn [IsString negb TOSTR]. apply Hf.
Qed.

Lemma _queryMany_missing_layer (d : merc_tile) (query : list query_lonlat)
  (tolerance : double) (name : string) (fields : list string) :
  (forall l, In l (tile_layers d) -> get_name l <> name) ->
  _queryMany d query tolerance name fields = ([], inl layer_not_found).
Proof.
  intros Hno. unfold _queryMany. now rewrite (layer_reader_absent d name Hno).
Qed.

End QueryManyProperties.

(** C5. [queryMany] needs one named layer.  A call whose options give no
    layer name (none, or the empty string) ends with an exception and
    nothing else: when its other arguments are accepted the exception is
    the type error "options.layer is required".  A call that names a layer
    the tile does not hold fails with "Could not find layer in vector
    tile" before any datasource is asked for features: the worker throws
    it, the synchronous form rethrows it and the asynchronous form hands
    it to the callback; no result, empty or not, is produced. *)
Theorem queryMany_requires_named_layer `{C : Collaborators} :
  forall (d : merc_tile) (info : list js_value),
    (Has (arg info 1) "layer" = false \/
     Get (arg info 1) "layer" = JsString EmptyString ->
     exists e, queryMany d info = ([], Threw e)) /\
    (forall query tolerance fields,
        (Length info <? 2) || negb (IsArray (arg info 0)) = false ->
        convert_query (Array_items (arg info 0)) = inr query ->
        IsObject (arg info 1) = true ->
        queryMany_options (arg info 1) = inr (tolerance, EmptyString, fields) ->
        queryMany d info = ([], Threw (TypeError "options.layer is required"))) /\
    (forall query tolerance name fields,
        (forall l, In l (tile_layers d) -> get_name l <> name) ->
        _queryMany d query tolerance name fields = ([], inl layer_not_found)) /\
    (forall query tolerance name fields,
        (Length info <? 2) || negb (IsArray (arg info 0)) = false ->
        convert_query (Array_items (arg info 0)) = inr query ->
        IsObject (arg info 1) = true ->
        queryMany_options (arg info 1) = inr (tolerance, name, fields) ->
        name <> EmptyString ->
        (forall l, In l (tile_layers d) -> get_name l <> name) ->
        queryMany d info
        = ([], if IsFunction (arg info (Length info - 1))
               then CalledBack (arg info (Length info - 1))
                               (inl (Error layer_not_found))
               else Threw (Error layer_not_found))).
Proof.
  intros d info. repeat apply conj.
  - intros Hl. unfold queryMany.
    destruct ((Length info <? 2) || negb (IsArray (arg info 0))); [eauto|].
    destruct (convert_query _) as [e|query]; [eauto|].
    destruct (negb (IsObject (arg info 1))); [eauto|].
    pose proof (queryMany_options_no_layer (arg info 1) Hl) as Ho.
    destruct (queryMany_options (arg info 1)) as [e|[[tolerance name] fields]];
      [eauto|].
    subst name. cbn [string_empty]. eauto.
  - intros query tolerance fields Hargs Hq Hobj Ho. unfold queryMany.
    rewrite Hargs, Hq, Hobj, Ho. reflexivity.
  - intros query tolerance name fields Hno.
    now apply _queryMany_missing_layer.
  - intros query tolerance name fields Hargs Hq Hobj Ho Hname Hno.
    unfold queryMany. rewrite Hargs, Hq, Hobj, Ho. cbn [negb].
    destruct name as [|c name']; [congruence|]. cbn [string_empty].
    rewrite (_queryMany_missing_layer d query tolerance _ fields Hno).
    unfold finish.
    now destruct (IsFunction (arg info (Length info - 1))).
Qed.

(* ===================================================================== *)
(** ** Properties of [addData], [setData] and [clear]                      *)
(* ===================================================================== *)

Lemma arg_buffer_length (info : list js_value) (data : list Byte.byte) :
  arg info 0 = JsBuffer data -> (Length info <? 1) = false.
Proof.
  unfold arg, Length. cbn [Z.ltb Z.compare Z.to_nat].
  destruct info as [|v rest]; [discriminate|].
  intros _. apply Z.ltb_ge. cbn [List.length]. lia.
Qed.

(** C6. Handing a buffer of length zero to [addDataSync], [setDataSync],
    [addData] or [setData] fails with "cannot accept empty buffer as
    protobuf" and leaves the tile as it was: the synchronous forms throw
    it, the asynchronous forms hand it to the callback from the queued
    work, which returns before [clear] and before the merge. *)
Theorem empty_buffer_rejected_tile_unchanged `{C : Collaborators} :
  forall (d : merc_tile) (info : list js_value),
    arg info 0 = JsBuffer [] ->
    _addDataSync d info = (d, Threw (Error empty_buffer_error)) /\
    _setDataSync d info = (d, Threw (Error empty_buffer_error)) /\
    (Length info = 1 ->
     addData d info = (d, Threw (Error empty_buffer_error)) /\
     setData d info = (d, Threw (Error empty_buffer_error))) /\
    (forall id,
        Length info <> 1 ->
        arg info (Length info - 1) = JsFunction id ->
        addData d info
        = (d, CalledBack (JsFunction id) (inl (Error empty_buffer_error))) /\
        setData d info
        = (d, CalledBack (JsFunction id) (inl (Error empty_buffer_error)))) /\
    EIO_AddData d [] = (d, Some empty_buffer_error) /\
    EIO_SetData d [] = (d, Some empty_buffer_error) /\
    fst (addData d info) = d /\
    fst (setData d info) = d.
Proof.
  intros d info Hbuf.
  pose proof (arg_buffer_length info [] Hbuf) as Hlen.
  assert (Hadd : _addDataSync d info = (d, Threw (Error empty_buffer_error))).
  { unfold _addDataSync. rewrite Hlen, Hbuf. reflexivity. }
  assert (Hset : _setDataSync d info = (d, Threw (Error empty_buffer_error))).
  { unfold _setDataSync. rewrite Hlen, Hbuf. reflexivity. }
  repeat apply conj; trivial.
  - intros H1. unfold addData, setData. rewrite H1. now split.
  - intros id Hn Hcb. apply Z.eqb_neq in Hn.
    unfold addData, setData. rewrite Hn, Hcb, Hlen, Hbuf. now split.
  - unfold addData. destruct (Length info =? 1); [now rewrite Hadd|].
    destruct (negb (IsFunction _)); [reflexivity|].
    rewrite Hlen, Hbuf. reflexivity.
  - unfold setData. destruct (Length info =? 1); [now rewrite Hset|].
    destruct (negb (IsFunction _)); [reflexivity|].
    rewrite Hlen, Hbuf. reflexivity.
Qed.

(** C8. [setData] with a non-empty buffer is [clear] followed by the
    merge that [addData] does, and its outcome is the one of [addData] on
    a freshly constructed tile of the same registration: same tile, hence
    the same layers and the same raw bytes, and same completion.  This
    holds for the synchronous form and for the queued work. *)
Theorem setData_is_clear_then_merge `{C : Collaborators} :
  forall (d : merc_tile) (info : list js_value) (buf : list Byte.byte),
    arg info 0 = JsBuffer buf ->
    buf <> [] ->
    _setDataSync d info = _addDataSync (fst (_clearSync d [])) info /\
    _setDataSync d info = _addDataSync (fresh_tile d) info /\
    EIO_SetData d buf = EIO_AddData (fresh_tile d) buf /\
    tile_layers (fst (_setDataSync d info))
    = tile_layers (fst (_addDataSync (fresh_tile d) info)) /\
    tile_data (fst (_setDataSync d info))
    = tile_data (fst (_addDataSync (fresh_tile d) info)).
Proof.
  intros d info buf Hbuf Hne.
  pose proof (arg_buffer_length info buf Hbuf) as Hlen.
  assert (Hpos : (Buffer_Length (JsBuffer buf) <=? 0) = false).
  { apply Z.leb_gt. unfold Buffer_Length. cbn [Buffer_Data].
    destruct buf; [congruence|]. cbn [List.length]. lia. }
  assert (Hset : _setDataSync d info = _addDataSync (fresh_tile d) info).
  { unfold _setDataSync, _addDataSync. rewrite Hlen, Hbuf.
    cbn [IsObject IsNull IsUndefined Buffer_HasInstance negb orb].
    cbv zeta. rewrite Hpos. reflexivity. }
  repeat apply conj.
  - exact Hset.
  - exact Hset.
  - unfold EIO_SetData, EIO_AddData. cbv zeta.
    destruct (Z.of_nat (List.length buf) <=? 0) eqn:Hz; [|reflexivity].
    apply Z.leb_le in Hz. destruct buf; [congruence|]. cbn [List.length] in Hz. lia.
  - now rewrite Hset.
  - now rewrite Hset.
Qed.

(* ===================================================================== *)
(** ** Properties of [getData]                                             *)
(* ===================================================================== *)

(** C10. On a tile whose raw bytes have size zero the synchronous
    [getData] makes no outside call, so [zlib_compress] is not invoked,
    and, whenever its options are accepted (gzip with a level and a
    strategy included), returns a buffer of length zero.  On any tile, a
    call of [zlib_compress] is made only when the raw size is positive
    (and gzip was asked for). *)
Theorem getData_empty_tile_not_compressed `{C : Collaborators} :
  forall (d : merc_tile) (info : list js_value),
    tile_raw_size d = 0%nat ->
    fst (_getDataSync d info) = [] /\
    (forall o, getData_arguments info = inr o ->
               _getDataSync d info = ([], inr (JsBuffer []))) /\
    (forall (d' : merc_tile) size level strategy,
        In (ev_zlib_compress size level strategy) (fst (_getDataSync d' info)) ->
        (0 < tile_raw_size d')%nat /\
        exists o, getData_arguments info = inr o /\ opt_compress o = true).
Proof.
  intros d info Hsize.
  assert (Hbody : forall o, getData_body d o = ([], inr (JsBuffer []))).
  { intros o. unfold getData_body. now rewrite Hsize. }
  repeat apply conj.
  - unfold _getDataSync. destruct (getData_arguments info); [reflexivity|].
    now rewrite Hbody.
  - intros o Ho. unfold _getDataSync. now rewrite Ho, Hbody.
  - intros d' size level strategy H.
    unfold _getDataSync, getData_body in H.
    destruct (getData_arguments info) as [e|o]; [contradiction|].
    cbv zeta in H.
    destruct (Z.of_nat (tile_raw_size d') <=? 0) eqn:Hz; [contradiction|].
    apply Z.leb_gt in Hz. split; [lia|].
    exists o. split; [reflexivity|].
    destruct (kMaxLength <=? _); [contradiction|].
    destruct (opt_compress o); [reflexivity|contradiction].
Qed.

(* ===================================================================== *)
(** ** Properties of the constructor                                       *)
(* ===================================================================== *)

(** While [2 * buffer_size] fits an [int] the guard is the comparison it
    is written to be. *)
Lemma buffer_too_negative_exact (tile_size buffer_size : Z) :
  - 2 ^ 30 <= buffer_size < 2 ^ 30 ->
  buffer_too_negative tile_size buffer_size = (tile_size + 2 * buffer_size <=? 0).
Proof.
  intros Hr. unfold buffer_too_negative, to_int32.
  replace ((2 * buffer_size + 2 ^ 31) mod 2 ^ 32) with (2 * buffer_size + 2 ^ 31).
  - f_equal. lia.
  - symmetry. apply Z.mod_small. lia.
Qed.

(** A negative buffer that leaves a positive buffered size is accepted. *)
Lemma negative_buffer_accepted (tile_size buffer_size : Z) :
  0 < tile_size < 2 ^ 31 ->
  buffer_size < 0 ->
  0 < tile_size + 2 * buffer_size ->
  buffer_too_negative tile_size buffer_size = false.
Proof.
  intros Ht Hb Hs. rewrite buffer_too_negative_exact by lia.
  apply Z.leb_gt. lia.
Qed.

(** Below [-2^30] the product wraps around to a value that is not
    negative, and the guard lets every such buffer through. *)
Lemma buffer_too_negative_wraps (tile_size buffer_size : Z) :
  0 < tile_size < 2 ^ 31 ->
  - 2 ^ 31 <= buffer_size < - 2 ^ 30 ->
  buffer_too_negative tile_size buffer_size = false /\
  tile_size + 2 * buffer_size <= 0.
Proof.
  intros Ht Hb. split; [|lia].
  unfold buffer_too_negative, to_int32.
  replace ((2 * buffer_size + 2 ^ 31) mod 2 ^ 32)
    with (2 * buffer_size + 2 ^ 31 + 2 ^ 32).
  - apply Z.leb_gt. lia.
  - symmetry. rewrite <- (Z.mod_add _ 1 (2 ^ 32)) by lia.
    apply Z.mod_small. lia.
Qed.

(** C7, at the input [new VectorTile(0, 0, 0, {buffer_size: -2147483648})].
    With the default tile size 4096 the buffered size
    [4096 + 2 * (-2147483648)] is not positive, yet the constructor makes
    the tile; the setter of [bufferSize], which forms the product in
    [double], rejects the same value. *)
Theorem New_accepts_wrapped_buffer :
  New true [JsNumber 0; JsNumber 0; JsNumber 0;
            JsObject [("buffer_size"%string, JsNumber (-2147483648))]]
  = inr (new_merc_tile 0 0 0 4096 (-2147483648)) /\
  4096 + 2 * (-2147483648) <= 0 /\
  set_buffer_size_rejects 4096 (-2147483648) = true.
Proof. repeat apply conj; [vm_compute; reflexivity|lia|vm_compute; reflexivity]. Qed.

(* ===================================================================== *)
(** ** The properties at concrete tiles *)
(* ===================================================================== *)

Import Fixtures Runs.

(** C1, the claim as first stated, at two concrete tiles.

    On [tile_places], with the sort of [Reference.env], which meets the
    contract of [std::sort]: the two points at distance 1 from the query
    point are met in the order a, b and the query returns them in the
    order b, a.

    On [tile_crowd], with the sort of GNU libstdc++: seventeen hits of
    distance 1 are met in the order 0, 1, ..., 16; the median-of-three step
    swaps the first with the middle one, the partition reverses the rest,
    and the query returns 8, 16, 15, ..., 9, 0, 7, ..., 1.

    Either list is ascending, and in neither are ties in insertion
    order. *)
Lemma query_ties_leave_scan_order :
  (@std_sort_contract Reference.env /\
   @backward_total Reference.env /\
   scan_hits (C := Reference.env) tile_places 0 0 2 "" = [hit_a; hit_b] /\
   qr_distance hit_a = qr_distance hit_b /\
   outcome_of (_query (C := Reference.env) tile_places 0 0 2 "") = inr [hit_b; hit_a] /\
   outcome_of (_query (C := Reference.env) tile_places 0 0 2 "")
   <> inr (scan_hits (C := Reference.env) tile_places 0 0 2 "")) /\
  (ids (scan_hits (C := Libstdcxx.env) tile_crowd 0 0 2 "")
   = List.map Z.of_nat (seq 0 17) /\
   List.map qr_distance (scan_hits (C := Libstdcxx.env) tile_crowd 0 0 2 "")
   = repeat 1%float 17 /\
   match outcome_of (_query (C := Libstdcxx.env) tile_crowd 0 0 2 "") with
   | inr result =>
       ids result = [8; 16; 15; 14; 13; 12; 11; 10; 9; 0; 7; 6; 5; 4; 3; 2; 1]
   | inl _ => False
   end).
Proof.
  split; repeat apply conj.
  - exact ReferenceFacts.env_std_sort_contract.
  - exact ReferenceFacts.env_backward_total.
  - vm_compute. reflexivity.
  - reflexivity.
  - vm_compute. reflexivity.
  - vm_compute. intros H. discriminate H.
  - vm_compute. reflexivity.
  - vm_compute. reflexivity.
  - vm_compute. reflexivity.
Qed.

(** The sorted-hits property on [tile_places], queried at the origin with
    tolerance 2. *)
Lemma query_returns_sorted_hits_witness :
  exists result,
    outcome_of (_query (C := Reference.env) tile_places 0 0 2 "") = inr result /\
    Permutation (scan_hits (C := Reference.env) tile_places 0 0 2 "") result /\
    (forall r, In r result <->
               exists nf, In nf (scanned (C := Reference.env) tile_places 0 0 2 "") /\
                          r = record_of (C := Reference.env) 0 0 nf /\
                          geb (qr_distance r) zero = true /\
                          leb (qr_distance r) 2 = true) /\
    StronglySorted (fun a b => leb (qr_distance a) (qr_distance b) = true) result.
Proof.
  apply (query_returns_sorted_hits (C := Reference.env)
           ReferenceFacts.env_std_sort_contract ReferenceFacts.env_backward_total
           tile_places 0 0 2 0 0 "").
  reflexivity.
Defined.

(** C2, the claim as first stated, at a concrete polygon.  The query
    point (12, 12) lies outside the exterior ring of [stray_hole] and
    inside its one interior ring, a ring of five points: the exterior
    test toggled by that ring says contained, and the visitor returns no
    hit, so the query on the tile holding the polygon returns nothing. *)
Lemma polygon_stray_hole_not_hit :
  (4 <=? List.length (exterior_ring stray_hole))%nat = true /\
  ring_parity (C := Reference.env) 12 12 (exterior_ring stray_hole) = false /\
  even_odd_contains (C := Reference.env) 12 12 stray_hole = true /\
  p2p_polygon (C := Reference.env) 12 12 stray_hole = p2p_default /\
  p2p_polygon (C := Reference.env) 12 12 stray_hole <> p2p_inside /\
  _query (C := Reference.env) (tile_parcels stray_hole) 12 12 1 ""
  = ([ev_features_at_point "parcels" 12 12 1], inr []).
Proof.
  repeat apply conj; try (vm_compute; reflexivity).
  vm_compute. intros H. discriminate H.
Qed.

(** The polygon property on [ring_road], inside the ring and inside its
    hole, and on [stray_hole]. *)
Lemma polygon_hit_iff_contained_witness :
  p2p_polygon (C := Reference.env) 1 1 ring_road = p2p_inside /\
  p2p_polygon (C := Reference.env) 4 4 ring_road = p2p_default /\
  p2p_polygon (C := Reference.env) 12 12 stray_hole = p2p_default /\
  polygon_contains (C := Reference.env) 1 1 ring_road
  = even_odd_contains (C := Reference.env) 1 1 ring_road.
Proof.
  destruct (polygon_hit_iff_contained (C := Reference.env) 1 1 ring_road [])
    as (_ & _ & H1 & _ & H1e & _).
  destruct (polygon_hit_iff_contained (C := Reference.env) 4 4 ring_road [])
    as (_ & _ & H4 & _).
  destruct (polygon_hit_iff_contained (C := Reference.env) 12 12 stray_hole [])
    as (_ & Hout & _).
  repeat apply conj.
  - exact H1.
  - exact H4.
  - apply Hout. vm_compute. reflexivity.
  - apply H1e. vm_compute. reflexivity.
Defined.

(** Monotonicity on [tile_places]: the two hits at tolerance 1 are hits at
    tolerance 3. *)
Lemma query_tolerance_monotone_witness :
  exists r2,
    outcome_of (_query (C := Reference.env) tile_places 0 0 3 "") = inr r2 /\
    forall r, In r [hit_b; hit_a] -> In r r2.
Proof.
  apply (query_tolerance_monotone (C := Reference.env)
           ReferenceFacts.env_std_sort_contract ReferenceFacts.env_backward_total
           ReferenceFacts.env_featureset_monotone
           tile_places 0 0 1 3 "" [hit_b; hit_a]).
  - reflexivity.
  - vm_compute. reflexivity.
Defined.

(** [tile_places] holds no layer named roads. *)
Lemma query_missing_layer_empty_witness :
  _query (C := Reference.env) tile_places 0 0 2 "roads" = ([], inr []).
Proof.
  apply (query_missing_layer_empty (C := Reference.env)
           ReferenceFacts.env_std_sort_contract tile_places 0 0 2 "roads").
  - discriminate.
  - discriminate.
  - intros l [<- | []]. discriminate.
Defined.

(** [tile_hollow] is empty. *)
Lemma query_empty_tile_witness :
  _query (C := Reference.env) tile_hollow 4 4 0 "" = ([], inr []).
Proof.
  apply (query_empty_tile (C := Reference.env) tile_hollow 4 4 0 "").
  reflexivity.
Defined.

(** [queryMany] on [tile_places] for the layer roads, synchronous and
    asynchronous, and with no layer named. *)
Lemma queryMany_requires_named_layer_witness :
  queryMany (C := Reference.env) tile_places [origin; many_options "roads"]
  = ([], Threw (Error layer_not_found)) /\
  queryMany (C := Reference.env) tile_places [origin; many_options "roads"; JsFunction 0]
  = ([], CalledBack (JsFunction 0) (inl (Error layer_not_found))) /\
  exists e, queryMany (C := Reference.env) tile_places [origin; JsObject []]
            = ([], Threw e).
Proof.
  assert (Hno : forall l, In l (tile_layers tile_places) -> get_name l <> "roads"%string).
  { intros l [<- | []]. discriminate. }
  repeat apply conj.
  - destruct (queryMany_requires_named_layer (C := Reference.env) tile_places
                [origin; many_options "roads"]) as (_ & _ & _ & H).
    apply (H [mk_query_lonlat 0 0] 2%float "roads"%string []);
      try reflexivity; [discriminate|exact Hno].
  - destruct (queryMany_requires_named_layer (C := Reference.env) tile_places
                [origin; many_options "roads"; JsFunction 0]) as (_ & _ & _ & H).
    apply (H [mk_query_lonlat 0 0] 2%float "roads"%string []);
      try reflexivity; [discriminate|exact Hno].
  - destruct (queryMany_requires_named_layer (C := Reference.env) tile_places
                [origin; JsObject []]) as (H & _).
    apply H. left. reflexivity.
Defined.

(** An empty buffer handed to the asynchronous [addData] and [setData] of
    [tile_places]. *)
Lemma empty_buffer_rejected_tile_unchanged_witness :
  addData (C := Reference.env) tile_places [JsBuffer []; JsFunction 0]
  = (tile_places, CalledBack (JsFunction 0) (inl (Error empty_buffer_error))) /\
  setData (C := Reference.env) tile_places [JsBuffer []; JsFunction 0]
  = (tile_places, CalledBack (JsFunction 0) (inl (Error empty_buffer_error))).
Proof.
  destruct (empty_buffer_rejected_tile_unchanged (C := Reference.env) tile_places
              [JsBuffer []; JsFunction 0] eq_refl) as (_ & _ & _ & H & _).
  apply (H 0%nat).
  - discriminate.
  - reflexivity.
Defined.

(** [setData] of two bytes on [tile_places]. *)
Lemma setData_is_clear_then_merge_witness :
  _setDataSync (C := Reference.env) tile_places [JsBuffer [Byte.x1a; Byte.x00]]
  = _addDataSync (C := Reference.env) (fresh_tile tile_places)
                 [JsBuffer [Byte.x1a; Byte.x00]].
Proof.
  destruct (setData_is_clear_then_merge (C := Reference.env) tile_places
              [JsBuffer [Byte.x1a; Byte.x00]] [Byte.x1a; Byte.x00] eq_refl)
    as (_ & H & _).
  - discriminate.
  - exact H.
Defined.

(** [getData] with gzip, level 9 and strategy RLE on a new tile. *)
Lemma getData_empty_tile_not_compressed_witness :
  _getDataSync (C := Reference.env) (new_merc_tile 0 0 0 4096 128) [gzip_options]
  = ([], inr (JsBuffer [])).
Proof.
  destruct (getData_empty_tile_not_compressed (C := Reference.env)
              (new_merc_tile 0 0 0 4096 128) [gzip_options] eq_refl)
    as (_ & H & _).
  apply (H (mk_getData_options true 9 Z_RLE)).
  reflexivity.
Defined.

(* ===================================================================== *)
(** * Part V. Further properties *)
(* ===================================================================== *)

(* ===================================================================== *)
(** ** The nearest part of a geometry                                      *)
(* ===================================================================== *)

Section NearestFacts.
Context `{C : Collaborators}.

Lemma p2p_eta (s : p2p_result) : mk_p2p (distance s) (x_hit s) (y_hit s) = s.
Proof. now destruct s. Qed.

Lemma reached_ordered (s : p2p_result) : reached s = true -> ordered (distance s) = true.
Proof. unfold reached, geb. apply leb_ordered_r. Qed.

Lemma reached_not_negative (s : p2p_result) :
  reached s = true -> ltb (distance s) zero = false.
Proof.
  intros Hs. rewrite ltb_negb_leb.
  - change (leb zero (distance s) = true) in Hs. now rewrite Hs.
  - now apply reached_ordered.
  - apply zero_ordered.
Qed.

Lemma p2p_update_nearest (seen : list p2p_result) (acc sub : p2p_result) :
  nearest_of seen acc -> nearest_of (seen ++ [sub]) (p2p_update acc sub).
Proof.
  intros Hacc. unfold p2p_update. fold (reached sub).
  destruct (reached sub) eqn:Hsub; cbn [andb].
  - destruct Hacc as [[-> Hnone] | (Hin & Hr & Hmin)].
    + replace (ltb (distance p2p_default) zero) with true by reflexivity.
      cbn [orb]. rewrite p2p_eta. right. repeat split.
      * apply in_or_app. right. now left.
      * exact Hsub.
      * intros s Hs Hrs. apply in_app_or in Hs. destruct Hs as [Hs | [<- | []]].
        -- rewrite (Hnone s Hs) in Hrs. discriminate.
        -- now apply reached_ordered.
    + rewrite (reached_not_negative acc Hr). cbn [orb].
      pose proof (reached_ordered acc Hr) as Hoa.
      pose proof (reached_ordered sub Hsub) as Hos.
      destruct (ltb (distance sub) (distance acc)) eqn:Hlt.
      * rewrite p2p_eta. right. repeat split.
        -- apply in_or_app. right. now left.
        -- exact Hsub.
        -- intros s Hs Hrs. apply in_app_or in Hs. destruct Hs as [Hs | [<- | []]].
           ++ eapply leb_trans; [apply ltb_leb; exact Hlt|]. now apply Hmin.
           ++ exact Hos.
      * right. repeat split.
        -- apply in_or_app. now left.
        -- exact Hr.
        -- intros s Hs Hrs. apply in_app_or in Hs. destruct Hs as [Hs | [<- | []]].
           ++ now apply Hmin.
           ++ rewrite (ltb_negb_leb _ _ Hos Hoa) in Hlt.
              now apply negb_false_iff in Hlt.
  - destruct Hacc as [[-> Hnone] | (Hin & Hr & Hmin)].
    + left. split; [reflexivity|].
      intros s Hs. apply in_app_or in Hs. destruct Hs as [Hs | [<- | []]]; auto.
    + right. repeat split.
      * apply in_or_app. now left.
      * exact Hr.
      * intros s Hs Hrs. apply in_app_or in Hs. destruct Hs as [Hs | [<- | []]].
        -- now apply Hmin.
        -- rewrite Hsub in Hrs. discriminate.
Qed.

Lemma fold_p2p_update_nearest (subs seen : list p2p_result) (acc : p2p_result) :
  nearest_of seen acc ->
  nearest_of (seen ++ subs) (fold_left p2p_update subs acc).
Proof.
  revert seen acc. induction subs as [|sub rest IH]; intros seen acc Hacc; simpl.
  - now rewrite app_nil_r.
  - replace (seen ++ sub :: rest) with ((seen ++ [sub]) ++ rest)
      by now rewrite <- app_assoc.
    apply IH. now apply p2p_update_nearest.
Qed.

Lemma fold_left_map_update {A : Type} (f : A -> p2p_result) (l : list A)
  (acc : p2p_result) :
  fold_left (fun p2p a => p2p_update p2p (f a)) l acc
  = fold_left p2p_update (List.map f l) acc.
Proof. revert acc. induction l as [|a l IH]; intros acc; simpl; auto. Qed.

(** The visitor on a geometry with members is the loop of [p2p_update]
    over the results of the members. *)
Lemma p2p_distance_members (x y : double) (geom : geometry) (gs : list geometry) :
  members geom = Some gs ->
  p2p_distance x y geom
  = fold_left p2p_update (List.map (p2p_distance x y) gs) p2p_default.
Proof.
  destruct geom; cbn [members]; intros H; try discriminate; injection H as <-;
    cbn [p2p_distance].
  - unfold p2p_multi_point. rewrite fold_left_map_update. now rewrite map_map.
  - unfold p2p_multi_line_string. rewrite fold_left_map_update. now rewrite map_map.
  - unfold p2p_multi_polygon. rewrite fold_left_map_update. now rewrite map_map.
  - generalize p2p_default as acc. induction geoms as [|g rest IH]; intros acc.
    + reflexivity.
    + cbn [List.map fold_left]. apply IH.
Qed.

Lemma p2p_line_string_fold (x y : double) (geom : line_string) :
  p2p_line_string x y geom
  = fold_left p2p_update (List.map (p2p_segment x y) (segments geom)) p2p_default.
Proof.
  unfold p2p_line_string. cbv zeta.
  assert (Hfold : forall segs acc,
             fold_left
               (fun p2p '(pt0, pt1) =>
                  let dist := point_to_segment_distance x y (px pt0) (py pt0)
                                                        (px pt1) (py pt1) in
                  if geb dist zero && (ltb (distance p2p) zero || ltb dist (distance p2p))
                  then mk_p2p dist (px pt0) (py pt0)
                  else p2p) segs acc
             = fold_left p2p_update (List.map (p2p_segment x y) segs) acc).
  { induction segs as [|[pt0 pt1] rest IH]; intros acc; [reflexivity|].
    cbn [fold_left List.map]. rewrite <- IH. reflexivity. }
  destruct (1 <? List.length geom)%nat eqn:Hn.
  - apply Hfold.
  - destruct geom as [|pt0 [|pt1 rest]]; try reflexivity.
    cbn [List.length] in Hn. apply Nat.ltb_ge in Hn. lia.
Qed.

Lemma segments_In (geom : list point) (seg : point * point) :
  In seg (segments geom) -> In (fst seg) (removelast geom) /\ In (snd seg) geom.
Proof.
  induction geom as [|pt0 [|pt1 rest] IH]; cbn [segments]; try contradiction.
  intros [<- | Hin].
  - split; [now left|right; now left].
  - destruct (IH Hin) as [H1 H2]. split; [right; exact H1|right; exact H2].
Qed.

End NearestFacts.

(** X1. For a multi-point, multi-line-string, multi-polygon or geometry
    collection the visitor returns the result of its nearest member: the
    default (no hit) when no member has a distance [>= 0], and otherwise
    the result of one member, whose distance is [>= 0] and not greater
    than the distance of any member with a distance [>= 0]. *)
Theorem multi_geometry_nearest_member `{C : Collaborators} :
  forall (x y : double) (geom : geometry) (gs : list geometry),
    members geom = Some gs ->
    let r := path_to_point_distance geom x y in
    ((forall g, In g gs -> reached (path_to_point_distance g x y) = false) ->
     r = p2p_default) /\
    ((exists g, In g gs /\ reached (path_to_point_distance g x y) = true) ->
     reached r = true /\
     (exists g, In g gs /\ r = path_to_point_distance g x y) /\
     (forall g, In g gs -> reached (path_to_point_distance g x y) = true ->
                leb (distance r) (distance (path_to_point_distance g x y)) = true)).
Proof.
  intros x y geom gs Hm r. unfold path_to_point_distance in *. subst r.
  rewrite (p2p_distance_members x y geom gs Hm).
  pose proof (fold_p2p_update_nearest (List.map (p2p_distance x y) gs) [] p2p_default)
    as Hn.
  cbn [app] in Hn.
  assert (H0 : nearest_of [] p2p_default).
  { left. split; [reflexivity|]. intros s []. }
  specialize (Hn H0). clear H0.
  destruct Hn as [[Hd Hnone] | (Hin & Hr & Hmin)].
  - split; [intros _; exact Hd|].
    intros (g & Hg & Hrg). exfalso.
    rewrite (Hnone (p2p_distance x y g)) in Hrg; [discriminate|].
    now apply in_map.
  - split.
    + intros Hnone. exfalso. apply in_map_iff in Hin.
      destruct Hin as (g & Hg & Hin). rewrite <- Hg in Hr.
      rewrite (Hnone g Hin) in Hr. discriminate.
    + intros _. split; [exact Hr|]. split.
      * apply in_map_iff in Hin. destruct Hin as (g & Hg & Hin). now exists g.
      * intros g Hg Hrg. apply Hmin; [now apply in_map|exact Hrg].
Qed.

(** X2. A line string of fewer than two points gives no hit.  Otherwise
    the result is the default when no segment has a distance [>= 0], and
    else the distance of a nearest segment with, as hit point, the first
    end of that segment: a vertex of the line other than its last. *)
Theorem line_string_nearest_segment `{C : Collaborators} :
  forall (x y : double) (geom : line_string),
    let r := p2p_line_string x y geom in
    ((List.length geom < 2)%nat -> r = p2p_default) /\
    (r = p2p_default \/
     exists seg, In seg (segments geom) /\
                 r = p2p_segment x y seg /\
                 reached r = true /\
                 In (mk_point (x_hit r) (y_hit r)) (removelast geom)) /\
    (forall seg, In seg (segments geom) -> reached (p2p_segment x y seg) = true ->
                 reached r = true /\
                 leb (distance r) (distance (p2p_segment x y seg)) = true).
Proof.
  intros x y geom r. subst r. rewrite p2p_line_string_fold.
  pose proof (fold_p2p_update_nearest
                (List.map (p2p_segment x y) (segments geom)) [] p2p_default) as Hn.
  cbn [app] in Hn.
  assert (H0 : nearest_of [] p2p_default).
  { left. split; [reflexivity|]. intros s []. }
  specialize (Hn H0). clear H0.
  repeat apply conj.
  - intros Hlen. destruct geom as [|pt0 [|pt1 rest]]; try reflexivity.
    cbn [List.length] in Hlen. lia.
  - destruct Hn as [[Hd _] | (Hin & Hr & _)]; [now left|right].
    apply in_map_iff in Hin. destruct Hin as (seg & Hseg & Hin).
    exists seg. repeat split; trivial.
    + now symmetry.
    + rewrite <- Hseg. cbn [p2p_segment x_hit y_hit].
      destruct (segments_In geom seg Hin) as [H1 _].
      now destruct (fst seg).
  - intros seg Hseg Hrs.
    destruct Hn as [[_ Hnone] | (Hin & Hr & Hmin)].
    + rewrite (Hnone (p2p_segment x y seg)) in Hrs; [discriminate|now apply in_map].
    + split; [exact Hr|]. apply Hmin; [now apply in_map|exact Hrs].
Qed.

(* ===================================================================== *)
(** ** More on the point query                                             *)
(* ===================================================================== *)

Module DoubleEq.
Import Double DoubleFacts.

Lemma SFeqb_key (x y : spec_float) :
  SFeqb x y = true <->
  exists k, key x = Some k /\ key y = Some k.
Proof.
  unfold SFeqb, SFcompare.
  destruct x as [sx|sx| |sx mx ex], y as [sy|sy| |sy my ey];
    try destruct sx; try destruct sy; simpl;
    try rewrite Pos.compare_cont_spec; simpl;
    repeat match goal with
           | |- context [Z.compare ?a ?b] => destruct (Z.compare_spec a b)
           | |- context [Pos.compare ?a ?b] => destruct (Pos.compare_spec a b)
           end; simpl;
    split; intros HH;
    try discriminate;
    try (destruct HH as (k & Hx & Hy); try discriminate;
         injection Hx as <-; try discriminate Hy;
         injection Hy; intros; try lia; congruence);
    try (subst; eexists; split; reflexivity).
Qed.

(** [a <= b] and [b <= a] make [a == b]. *)
Lemma leb_antisym_eqb (a b : double) :
  leb a b = true -> leb b a = true -> PrimFloat.eqb a b = true.
Proof.
  rewrite !leb_key, eqb_spec, SFeqb_key.
  intros (ka & kb & Ha & Hb & Hab) (kb' & ka' & Hb' & Ha' & Hba).
  rewrite Ha in Ha'. injection Ha' as <-. rewrite Hb in Hb'. injection Hb' as <-.
  exists ka. split; [exact Ha|]. rewrite Hb. f_equal.
  destruct ka as [[a1 a2] a3], kb as [[b1 b2] b3]. simpl in *.
  f_equal; [f_equal|]; lia.
Qed.

End DoubleEq.

Section QueryMore.
Context `{C : Collaborators}.

(** When the loop over a featureset does not throw it has made no outside
    call and has appended the hits of the featureset. *)
Lemma query_features_returns (x y tolerance : double) (name : string) :
  forall fs arr t arr',
    query_features x y tolerance name fs arr = (t, inr arr') ->
    t = [] /\ arr' = arr ++ hits_of x y tolerance name fs.
Proof.
  induction fs as [|f rest IH]; intros arr t arr' H.
  - cbn in H. injection H as <- <-. split; [reflexivity|].
    unfold hits_of. cbn. now rewrite app_nil_r.
  - cbn [query_features] in H.
    destruct (tr_backward _ _) as [[xh yh]|] eqn:Hq; [|discriminate].
    assert (Hrec : record_of x y (name, f)
                   = mk_query_result name
                       (distance (path_to_point_distance (feature_geometry f) x y))
                       xh yh f).
    { unfold record_of. cbn [fst snd]. now rewrite Hq. }
    apply IH in H. destruct H as [-> ->]. split; [reflexivity|].
    unfold hits_of. cbn [List.map List.filter].
    rewrite Hrec. unfold within at 2. cbn [qr_distance].
    destruct (geb _ zero && leb _ tolerance); [|reflexivity].
    now rewrite <- app_assoc.
Qed.

Lemma query_layer_returns (x y tolerance : double) (name : string) (l : layer) :
  forall arr t arr',
    query_layer x y tolerance name l arr = (t, inr arr') ->
    arr' = arr ++ hits_of x y tolerance name (featureset l x y tolerance).
Proof.
  intros arr t arr' H. unfold query_layer, featureset, bind, call in *.
  destruct (features_at_point l x y tolerance) as [fs|].
  - destruct (query_features x y tolerance name fs arr) as [t' r] eqn:Hq.
    injection H as _ ->. now apply query_features_returns in Hq.
  - unfold ret in H. injection H as _ <-. unfold hits_of. cbn. now rewrite app_nil_r.
Qed.

Lemma query_layers_returns (x y tolerance : double) :
  forall ls arr t arr',
    query_layers x y tolerance ls arr = (t, inr arr') ->
    arr' = arr ++ layers_hits x y tolerance ls.
Proof.
  induction ls as [|l rest IH]; intros arr t arr' H.
  - cbn in H. injection H as _ <-. unfold layers_hits. cbn. now rewrite app_nil_r.
  - cbn [query_layers] in H. unfold bind in H.
    destruct (query_layer x y tolerance (get_name l) l arr) as [t1 [e|arr1]] eqn:Hl;
      [discriminate|].
    destruct (query_layers x y tolerance rest arr1) as [t2 r2] eqn:Hr.
    injection H as _ ->.
    apply query_layer_returns in Hl. apply IH in Hr. subst.
    unfold layers_hits, hits_of. cbn [flat_map].
    now rewrite map_app, filter_app, app_assoc.
Qed.

(** What a query that returns has returned, with nothing assumed of the
    projections. *)
Lemma _query_returns (d : merc_tile) (lon lat tolerance : double) (name : string)
  (result : list query_result) :
  outcome_of (_query d lon lat tolerance name) = inr result ->
  (is_empty d = true /\ result = []) \/
  (exists x y,
      is_empty d = false /\ tr_forward lon lat = Some (x, y) /\
      result = std_sort _ _querySort (scan_hits d x y tolerance name)).
Proof.
  unfold _query, outcome_of. intros H.
  destruct (is_empty d) eqn:He.
  - left. cbn in H. split; congruence.
  - right. destruct (tr_forward lon lat) as [[x y]|] eqn:Hf; [|discriminate].
    exists x, y. split; [reflexivity|]. split; [reflexivity|].
    unfold scan_hits, scanned. rewrite He.
    destruct (negb (string_empty name)).
    + destruct (layer_reader name d) as [l|].
      * unfold bind in H.
        destruct (query_layer x y tolerance name l []) as [t [e|arr]] eqn:Hl;
          [discriminate|].
        apply query_layer_returns in Hl. cbn [app] in Hl. subst arr.
        cbn in H. unfold hits_of in H. congruence.
      * cbn [List.map List.filter]. cbn in H. congruence.
    + unfold bind in H.
      destruct (query_layers x y tolerance (tile_layers d) []) as [t [e|arr]] eqn:Hl;
        [discriminate|].
      apply query_layers_returns in Hl. cbn [app] in Hl. subst arr.
      cbn in H. unfold layers_hits in H. congruence.
Qed.

(** The records of a query that returns are the hits in scan order,
    rearranged. *)
Lemma _query_returns_hits (d : merc_tile) (lon lat tolerance : double)
  (name : string) (result : list query_result) :
  std_sort_contract ->
  outcome_of (_query d lon lat tolerance name) = inr result ->
  forall r, In r result ->
    exists x y, is_empty d = false /\ tr_forward lon lat = Some (x, y) /\
                In r (scan_hits d x y tolerance name).
Proof.
  intros Hsort H r Hr.
  destruct (_query_returns d lon lat tolerance name result H)
    as [[_ ->] | (x & y & He & Hf & ->)]; [contradiction|].
  exists x, y. split; [exact He|]. split; [exact Hf|].
  destruct (Hsort _ _querySort (scan_hits d x y tolerance name)) as [Hperm _].
  - apply _querySort_strict_weak. intros r' Hr'.
    eapply within_ordered, scan_hits_within, Hr'.
  - eapply Permutation_in; [symmetry; exact Hperm|exact Hr].
Qed.

Lemma query_delivered (d : merc_tile) (info : list js_value)
  (result : list query_result) :
  delivered (snd (query d info)) = Some result ->
  exists tolerance name,
    outcome_of (_query d (NumberValue (arg info 0)) (NumberValue (arg info 1))
                       tolerance name) = inr result /\
    (Length info = 2 \/ Has (arg info 2) "tolerance" = false -> tolerance = zero).
Proof.
  unfold query. intros H.
  destruct ((Length info <? 2) || _ || _); [discriminate|].
  destruct (2 <? Length info) eqn:Hlen.
  - destruct (negb (IsObject (arg info 2))); [discriminate|].
    unfold query_options in H |- *.
    destruct (Has (arg info 2) "tolerance") eqn:Htol.
    + cbv zeta in H. destruct (negb (IsNumber (Get (arg info 2) "tolerance")));
        [discriminate|].
      destruct (Has (arg info 2) "layer"); cbv zeta in H;
        [destruct (negb (IsString (Get (arg info 2) "layer"))); [discriminate|]|];
        match type of H with
        | context [_query d ?lo ?la ?t ?n] =>
            destruct (_query d lo la t n) as [tr r] eqn:Hq; exists t, n
        end;
        (split; [|intros [Hl|Hh]; [apply Z.ltb_lt in Hlen; lia|discriminate]]);
        unfold outcome_of; rewrite Hq; cbn [snd] in *; unfold finish in H;
        destruct (negb (IsFunction _)), r; cbn in H; congruence.
    + destruct (Has (arg info 2) "layer"); cbv zeta in H;
        [destruct (negb (IsString (Get (arg info 2) "layer"))); [discriminate|]|];
        match type of H with
        | context [_query d ?lo ?la ?t ?n] =>
            destruct (_query d lo la t n) as [tr r] eqn:Hq; exists t, n
        end;
        (split; [|reflexivity]);
        unfold outcome_of; rewrite Hq; cbn [snd] in *; unfold finish in H;
        destruct (negb (IsFunction _)), r; cbn in H; congruence.
  - match type of H with
    | context [_query d ?lo ?la ?t ?n] =>
        destruct (_query d lo la t n) as [tr r] eqn:Hq; exists t, n
    end.
    split; [|reflexivity].
    unfold outcome_of; rewrite Hq; cbn [snd] in *; unfold finish in H;
      destruct (negb (IsFunction _)), r; cbn in H; congruence.
Qed.

End QueryMore.

(** X3. A tolerance that is negative or not a number matches nothing:
    whenever the query returns, it returns the empty list. *)
Theorem query_negative_tolerance_empty `{C : Collaborators} :
  std_sort_contract ->
  forall (d : merc_tile) (lon lat tolerance : double) (name : string) result,
    leb zero tolerance = false ->
    outcome_of (_query d lon lat tolerance name) = inr result ->
    result = [].
Proof.
  intros Hsort d lon lat tolerance name result Htol H.
  destruct result as [|r rest]; [reflexivity|exfalso].
  destruct (_query_returns_hits d lon lat tolerance name (r :: rest) Hsort H r)
    as (x & y & _ & _ & Hin); [now left|].
  apply scan_hits_within in Hin. unfold within in Hin.
  apply andb_true_iff in Hin. destruct Hin as [H0 Ht].
  rewrite (leb_trans zero (qr_distance r) tolerance H0 Ht) in Htol. discriminate.
Qed.

(** X4. Every record a query returns is labelled with a layer of the
    tile and holds a feature of that layer's featureset: with a layer
    name, the label is that name and the feature comes from the layer the
    tile's reader finds for it; without, the label is the name of the
    layer the feature was found in. *)
Theorem query_records_labelled `{C : Collaborators} :
  std_sort_contract ->
  forall (d : merc_tile) (lon lat tolerance : double) (name : string) result,
    outcome_of (_query d lon lat tolerance name) = inr result ->
    forall r, In r result ->
      exists x y l,
        tr_forward lon lat = Some (x, y) /\
        In (qr_feature r) (featureset l x y tolerance) /\
        (name <> EmptyString -> layer_reader name d = Some l /\ qr_layer r = name) /\
        (name = EmptyString -> In l (tile_layers d) /\ qr_layer r = get_name l).
Proof.
  intros Hsort d lon lat tolerance name result H r Hr.
  destruct (_query_returns_hits d lon lat tolerance name result Hsort H r Hr)
    as (x & y & He & Hf & Hin).
  exists x, y. apply scan_hits_In in Hin.
  destruct Hin as ([n f] & Hsc & -> & _).
  unfold scanned in Hsc. rewrite He in Hsc.
  assert (Hl : qr_layer (record_of x y (n, f)) = n /\
               qr_feature (record_of x y (n, f)) = f).
  { unfold record_of. cbn [fst snd]. now destruct (tr_backward _ _) as [[? ?]|]. }
  destruct Hl as [Hl1 Hl2]. rewrite Hl1, Hl2.
  destruct name as [|c name'].
  - cbn [string_empty negb] in Hsc. apply in_flat_map in Hsc.
    destruct Hsc as (l & Hl & Hin). apply in_map_iff in Hin.
    destruct Hin as (f' & Heq & Hin). injection Heq as <- <-.
    exists l. repeat split; trivial; congruence.
  - cbn [string_empty negb] in Hsc.
    destruct (layer_reader (String c name') d) as [l|] eqn:Hr'; [|contradiction].
    apply in_map_iff in Hsc. destruct Hsc as (f' & Heq & Hin).
    injection Heq as <- <-.
    exists l. repeat split; trivial; congruence.
Qed.

(** X5. Without a tolerance option [query] uses 0: every record it
    delivers, returned by the synchronous form or handed to the callback,
    has a distance equal to 0. *)
Theorem query_default_tolerance_exact `{C : Collaborators} :
  std_sort_contract ->
  forall (d : merc_tile) (info : list js_value) result,
    Length info = 2 \/ Has (arg info 2) "tolerance" = false ->
    delivered (snd (query d info)) = Some result ->
    forall r, In r result -> PrimFloat.eqb (qr_distance r) zero = true.
Proof.
  intros Hsort d info result Hopt H r Hr.
  destruct (query_delivered d info result H) as (tolerance & name & Hq & Htol).
  rewrite (Htol Hopt) in Hq.
  destruct (_query_returns_hits d _ _ zero name result Hsort Hq r Hr)
    as (x & y & _ & _ & Hin).
  apply scan_hits_within in Hin. unfold within in Hin.
  apply andb_true_iff in Hin. destruct Hin as [H0 Ht].
  apply DoubleEq.leb_antisym_eqb; assumption.
Qed.

(* ===================================================================== *)
(** ** The tables of [queryMany]                                           *)
(* ===================================================================== *)

Section QueryManyFacts.
Context `{C : Collaborators}.

Lemma project_points_length :
  forall qs bbox points t bbox' points',
    project_points qs bbox points = (t, inr (bbox', points')) ->
    List.length points' = (List.length points + List.length qs)%nat.
Proof.
  induction qs as [|q rest IH]; intros bbox points t bbox' points' H.
  - cbn in H. inversion H; subst. cbn. lia.
  - cbn [project_points] in H.
    destruct (tr_forward (lon q) (lat q)) as [[x y]|]; [|discriminate].
    apply IH in H. rewrite H, length_app. cbn. lia.
Qed.

Lemma many_inv_weaken (tolerance : double) (name : string) (fs : list feature)
  (npts n : nat) (features : gmap nat query_result)
  (hits : gmap nat (list query_hit)) :
  many_inv tolerance name fs npts n features hits ->
  forall p hs, hits !! p = Some hs ->
    forall h, In h hs -> (hit_feature_id h < S n)%nat.
Proof.
  intros (_ & _ & H3 & _) p hs Hp h Hh.
  destruct (H3 p hs Hp) as (_ & _ & Hall). destruct (Hall h Hh). lia.
Qed.

(** One query point tested against one feature. *)
Lemma test_point_inv (tolerance : double) (name : string) (fs : list feature)
  (npts : nat) (feature : feature) (idx : nat) (pt : point) (p : nat)
  (has_hit : bool) (features : gmap nat query_result)
  (hits : gmap nat (list query_hit)) :
  In feature fs -> (p < npts)%nat ->
  many_inv tolerance name fs npts (if has_hit then S idx else idx) features hits ->
  let '(has_hit', features', hits') :=
    test_points tolerance name feature idx [pt] p (has_hit, features, hits) in
  many_inv tolerance name fs npts (if has_hit' then S idx else idx) features' hits'.
Proof.
  intros Hfeat Hp Hinv. cbn [test_points].
  set (p2p := path_to_point_distance (feature_geometry feature) (px pt) (py pt)).
  destruct (geb (distance p2p) zero && leb (distance p2p) tolerance) eqn:Hhit;
    [|exact Hinv].
  set (hit := mk_query_hit (distance p2p) idx).
  set (res := mk_query_result name zero zero zero feature).
  assert (Hw : hit_within tolerance hit = true) by exact Hhit.
  destruct Hinv as (H1 & H2 & H3 & H4).
  (* the feature table *)
  assert (HF : (forall k, is_Some (map_insert idx res features !! k) <-> (k < S idx)%nat) /\
               (forall k r, map_insert idx res features !! k = Some r ->
                            qr_layer r = name /\ In (qr_feature r) fs /\
                            qr_distance r = zero)).
  { unfold map_insert. destruct (features !! idx) as [old|] eqn:Hold.
    - assert (Hlt : (idx < (if has_hit then S idx else idx))%nat)
        by (apply H1; now exists old).
      destruct has_hit; [|lia]. split; [exact H1|exact H2].
    - assert (Hn : has_hit = false).
      { destruct has_hit; [|reflexivity].
        assert (Hs : is_Some (features !! idx)) by (apply H1; lia).
        rewrite Hold in Hs. destruct Hs as [? Hs]. discriminate. }
      subst has_hit. split.
      + intros k. destruct (decide (idx = k)) as [<-|Hne].
        * rewrite lookup_insert_eq. split; [lia|now eexists].
        * rewrite lookup_insert_ne by exact Hne. rewrite H1. lia.
      + intros k r. destruct (decide (idx = k)) as [<-|Hne].
        * rewrite lookup_insert_eq. intros [= <-]. now repeat split.
        * rewrite lookup_insert_ne by exact Hne. apply H2. }
  destruct HF as [HF1 HF2].
  (* the hit lists *)
  set (hits' := match hits !! p with
                | Some pointHits => <[p := pointHits ++ [hit]]> hits
                | None => map_insert p [hit] hits
                end).
  assert (Hnew : exists hs, hits' !! p = Some (hs ++ [hit]) /\
                            (forall h, In h hs -> exists hs0, hits !! p = Some hs0 /\ In h hs0) /\
                            (forall hs0, hits !! p = Some hs0 -> hs = hs0)).
  { subst hits'. destruct (hits !! p) as [hs0|] eqn:Hp0.
    - exists hs0. rewrite lookup_insert_eq. repeat split; eauto. now intros ? [= ->].
    - exists []. unfold map_insert. rewrite Hp0, lookup_insert_eq.
      repeat split; [intros h []|discriminate]. }
  assert (Hother : forall q, q <> p -> hits' !! q = hits !! q).
  { intros q Hq. subst hits'. destruct (hits !! p) as [hs0|] eqn:Hp0.
    - now rewrite lookup_insert_ne by congruence.
    - unfold map_insert. rewrite Hp0. now rewrite lookup_insert_ne by congruence. }
  destruct Hnew as (hsp & Hnew & Hold & Hsame).
  split; [exact HF1|]. split; [exact HF2|]. split.
  - intros q hs Hq. destruct (decide (q = p)) as [->|Hne].
    + rewrite Hnew in Hq. injection Hq as <-. split; [exact Hp|]. split.
      * intros Heq. now apply app_eq_nil in Heq as [_ ?].
      * intros h Hh. apply in_app_or in Hh. destruct Hh as [Hh | [<- | []]].
        -- destruct (Hold h Hh) as (hs0 & Hp0 & Hh0).
           destruct (H3 p hs0 Hp0) as (_ & _ & Hall).
           destruct (Hall h Hh0) as [Hwh Hid]. split; [exact Hwh|].
           destruct has_hit; lia.
        -- split; [exact Hw|]. cbn. lia.
    + rewrite (Hother q Hne) in Hq.
      destruct (H3 q hs Hq) as (Hq1 & Hq2 & Hall). repeat split; trivial.
      * now apply Hall.
      * destruct (Hall h H) as [_ Hid]. destruct has_hit; lia.
  - intros k Hk.
    destruct (decide (k = idx)) as [->|Hne].
    + exists p, (hsp ++ [hit]), hit. repeat split; trivial.
      apply in_or_app. right. now left.
    + assert (Hk' : (k < (if has_hit then S idx else idx))%nat)
        by (destruct has_hit; lia).
      destruct (H4 k Hk') as (q & hs & h & Hq & Hh & Hid).
      destruct (decide (q = p)) as [->|Hqp].
      * exists p, (hsp ++ [hit]), h. repeat split; trivial.
        apply in_or_app. left. now rewrite (Hsame hs Hq).
      * exists q, hs, h. rewrite (Hother q Hqp). now repeat split.
Qed.

Lemma test_points_cons (tolerance : double) (name : string) (feature : feature)
  (idx : nat) (pt : point) (rest : list point) (p : nat)
  (st : bool * gmap nat query_result * gmap nat (list query_hit)) :
  test_points tolerance name feature idx (pt :: rest) p st
  = test_points tolerance name feature idx rest (S p)
      (test_points tolerance name feature idx [pt] p st).
Proof.
  destruct st as [[has_hit features] hits]. cbn [test_points].
  now destruct (geb _ zero && leb _ tolerance).
Qed.

(** All query points tested against one feature. *)
Lemma test_points_inv (tolerance : double) (name : string) (fs : list feature)
  (npts : nat) (feature : feature) (idx : nat) :
  In feature fs ->
  forall (points : list point) (p : nat) (has_hit : bool)
         (features : gmap nat query_result) (hits : gmap nat (list query_hit)),
    (p + List.length points = npts)%nat ->
    many_inv tolerance name fs npts (if has_hit then S idx else idx) features hits ->
    let '(has_hit', features', hits') :=
      test_points tolerance name feature idx points p (has_hit, features, hits) in
    many_inv tolerance name fs npts (if has_hit' then S idx else idx) features' hits'.
Proof.
  intros Hfeat. induction points as [|pt rest IH]; intros p has_hit features hits Hp Hinv.
  - exact Hinv.
  - rewrite test_points_cons.
    pose proof (test_point_inv tolerance name fs npts feature idx pt p
                  has_hit features hits Hfeat) as Hstep.
    destruct (test_points tolerance name feature idx [pt] p (has_hit, features, hits))
      as [[has_hit1 features1] hits1].
    apply IH; [cbn [List.length] in Hp; lia|].
    apply Hstep; [cbn [List.length] in Hp; lia|exact Hinv].
Qed.

(** All features of the featureset. *)
Lemma collect_hits_inv (tolerance : double) (name : string) (fs : list feature)
  (points : list point) :
  forall (rest : list feature) (idx : nat)
         (features : gmap nat query_result) (hits : gmap nat (list query_hit)),
    incl rest fs ->
    many_inv tolerance name fs (List.length points) idx features hits ->
    let '(features', hits') :=
      collect_hits tolerance name points rest idx features hits in
    exists n, many_inv tolerance name fs (List.length points) n features' hits'.
Proof.
  induction rest as [|feature rest IH]; intros idx features hits Hincl Hinv.
  - cbn. now exists idx.
  - cbn [collect_hits].
    pose proof (test_points_inv tolerance name fs (List.length points) feature idx
                  (Hincl feature (or_introl eq_refl)) points 0%nat false features hits
                  eq_refl Hinv) as Hstep.
    destruct (test_points tolerance name feature idx points 0 (false, features, hits))
      as [[has_hit1 features1] hits1].
    apply IH; [|exact Hstep].
    intros f Hf. apply Hincl. now right.
Qed.

Lemma many_inv_empty (tolerance : double) (name : string) (fs : list feature)
  (npts : nat) :
  many_inv tolerance name fs npts 0
           (empty : gmap nat query_result) (empty : gmap nat (list query_hit)).
Proof.
  split; [|split; [|split]].
  - intros k. rewrite lookup_empty. split; [intros [r Hr]; discriminate|lia].
  - intros k res Hk. rewrite lookup_empty in Hk. discriminate.
  - intros p hs Hp. rewrite lookup_empty in Hp. discriminate.
  - intros k Hk. lia.
Qed.

Lemma hit_within_ordered (tolerance : double) (h : query_hit) :
  hit_within tolerance h = true -> ordered (hit_distance h) = true.
Proof.
  unfold hit_within, geb. rewrite andb_true_iff. intros [H _].
  eapply leb_ordered_r; eassumption.
Qed.

Lemma _queryManySort_strict_weak (tolerance : double) (l : list query_hit) :
  (forall h, In h l -> hit_within tolerance h = true) ->
  strict_weak_on _queryManySort l.
Proof.
  intros Hw. unfold _queryManySort. repeat split.
  - intros a _. apply ltb_irrefl.
  - intros a b c _ _ _. apply ltb_trans.
  - intros a b c Ha Hb Hc.
    apply ltb_neg_trans; eapply hit_within_ordered; eauto.
Qed.

(** What [_queryMany] returns: the feature table and, before they are
    sorted, the hit lists satisfy the invariant of the loops. *)
Lemma _queryMany_returns (d : merc_tile) (qs : list query_lonlat)
  (tolerance : double) (name : string) (fields : list string)
  (t : list event) (result : queryMany_result) :
  _queryMany d qs tolerance name fields = (t, inr result) ->
  exists l fs n hits,
    layer_reader name d = Some l /\
    many_inv tolerance (get_name l) fs (List.length qs) n (qm_features result) hits /\
    qm_hits result = fmap (std_sort _ _queryManySort) hits.
Proof.
  unfold _queryMany. intros H.
  destruct (layer_reader name d) as [l|]; [|discriminate].
  unfold bind in H.
  destruct (project_points qs box2d_default []) as [t1 [e|[bbox points]]] eqn:Hproj;
    [discriminate|].
  apply project_points_length in Hproj. cbn in Hproj.
  cbv zeta in H. cbn [call] in H.
  set (names := match fields with [] => layer_fields l | _ => fields end) in H.
  destruct (ds_features l (box2d_pad bbox tolerance) names) as [fs|].
  - pose proof (collect_hits_inv tolerance (get_name l) fs points fs 0%nat
                  empty empty (incl_refl fs)
                  (many_inv_empty tolerance (get_name l) fs (List.length points)))
      as Hinv.
    destruct (collect_hits tolerance (get_name l) points fs 0 empty empty)
      as [features hits].
    destruct Hinv as [n Hinv]. cbn in H. injection H as _ <-.
    exists l, fs, n, hits. rewrite <- Hproj. cbn.
    split; [reflexivity|]. split; [exact Hinv|reflexivity].
  - cbn in H. injection H as _ <-.
    exists l, [], 0%nat, empty. split; [reflexivity|]. split.
    + apply many_inv_empty.
    + cbn. now rewrite fmap_empty.
Qed.

Lemma sorted_hits_lookup (hits : gmap nat (list query_hit)) (p : nat)
  (hs : list query_hit) :
  fmap (std_sort _ _queryManySort) hits !! p = Some hs ->
  exists hs0, hits !! p = Some hs0 /\ hs = std_sort _ _queryManySort hs0.
Proof.
  rewrite lookup_fmap. destruct (hits !! p) as [hs0|]; cbn; [|discriminate].
  intros [= <-]. now exists hs0.
Qed.

End QueryManyFacts.

(** X6. In the result of [queryMany] there is a hit list only for an
    index of a query point; it is not empty, it is in ascending order of
    distance, and each of its hits has a distance [d] with
    [0 <= d <= tolerance]. *)
Theorem queryMany_hit_lists_sorted `{C : Collaborators} :
  std_sort_contract ->
  forall (d : merc_tile) (qs : list query_lonlat) (tolerance : double)
         (name : string) (fields : list string) t result,
    _queryMany d qs tolerance name fields = (t, inr result) ->
    forall p hs,
      qm_hits result !! p = Some hs ->
      (p < List.length qs)%nat /\
      hs <> [] /\
      (forall h, In h hs -> hit_within tolerance h = true) /\
      StronglySorted (fun a b => leb (hit_distance a) (hit_distance b) = true) hs.
Proof.
  intros Hsort d qs tolerance name fields t result H p hs Hp.
  destruct (_queryMany_returns d qs tolerance name fields t result H)
    as (l & fs & n & hits & _ & (_ & _ & H3 & _) & Hhits).
  rewrite Hhits in Hp. apply sorted_hits_lookup in Hp.
  destruct Hp as (hs0 & Hp0 & ->).
  destruct (H3 p hs0 Hp0) as (Hlt & Hne & Hall).
  assert (Hw0 : forall h, In h hs0 -> hit_within tolerance h = true)
    by (intros h Hh; now destruct (Hall h Hh)).
  destruct (Hsort _ _queryManySort hs0 (_queryManySort_strict_weak tolerance hs0 Hw0))
    as [Hperm Hasc].
  assert (Hw : forall h, In h (std_sort _ _queryManySort hs0) ->
                         hit_within tolerance h = true).
  { intros h Hh. apply Hw0. eapply Permutation_in; [symmetry; exact Hperm|exact Hh]. }
  split; [exact Hlt|]. split; [|split; [exact Hw|]].
  - intros Heq. rewrite Heq in Hperm. apply Permutation_sym, Permutation_nil in Hperm.
    contradiction.
  - eapply StronglySorted_weaken; [|exact Hasc].
    intros a b Ha Hb Hlt'. unfold _queryManySort in Hlt'.
    rewrite (ltb_negb_leb _ _ (hit_within_ordered tolerance b (Hw b Hb))
                          (hit_within_ordered tolerance a (Hw a Ha))) in Hlt'.
    now apply negb_false_iff in Hlt'.
Qed.

(** X7. The two tables of [queryMany] fit together.  The feature table
    holds exactly the ids 0, 1, ..., n-1 for some n; every entry carries
    the name of the queried layer and the distance 0 and is referred to
    by a hit of some query point; and every hit refers to an entry of the
    table. *)
Theorem queryMany_tables_consistent `{C : Collaborators} :
  std_sort_contract ->
  forall (d : merc_tile) (qs : list query_lonlat) (tolerance : double)
         (name : string) (fields : list string) t result,
    _queryMany d qs tolerance name fields = (t, inr result) ->
    exists l n,
      layer_reader name d = Some l /\
      (forall k, is_Some (qm_features result !! k) <-> (k < n)%nat) /\
      (forall k res, qm_features result !! k = Some res ->
                     qr_layer res = get_name l /\ qr_distance res = zero /\
                     exists p hs h, qm_hits result !! p = Some hs /\ In h hs /\
                                    hit_feature_id h = k) /\
      (forall p hs h, qm_hits result !! p = Some hs -> In h hs ->
                      is_Some (qm_features result !! hit_feature_id h)).
Proof.
  intros Hsort d qs tolerance name fields t result H.
  destruct (_queryMany_returns d qs tolerance name fields t result H)
    as (l & fs & n & hits & Hl & (H1 & H2 & H3 & H4) & Hhits).
  assert (Hperm : forall p hs0, hits !! p = Some hs0 ->
                    Permutation hs0 (std_sort _ _queryManySort hs0)).
  { intros p hs0 Hp0. apply Hsort.
    apply (_queryManySort_strict_weak tolerance).
    intros h Hh. destruct (H3 p hs0 Hp0) as (_ & _ & Hall).
    now destruct (Hall h Hh). }
  exists l, n. split; [exact Hl|]. split; [exact H1|]. split.
  - intros k res Hk. destruct (H2 k res Hk) as (Hn & _ & Hd).
    split; [exact Hn|]. split; [exact Hd|].
    assert (Hlt : (k < n)%nat) by (apply H1; now exists res).
    destruct (H4 k Hlt) as (p & hs0 & h & Hp0 & Hh & Hid).
    exists p, (std_sort _ _queryManySort hs0), h.
    rewrite Hhits, lookup_fmap, Hp0. cbn. repeat split; trivial.
    eapply Permutation_in; [exact (Hperm p hs0 Hp0)|exact Hh].
  - intros p hs h Hp Hh. rewrite Hhits in Hp. apply sorted_hits_lookup in Hp.
    destruct Hp as (hs0 & Hp0 & ->).
    apply H1. destruct (H3 p hs0 Hp0) as (_ & _ & Hall).
    apply Hall. eapply Permutation_in; [symmetry; exact (Hperm p hs0 Hp0)|exact Hh].
Qed.

(** X8. With no query point, or with a tolerance that is negative or not
    a number, [queryMany] on a layer of the tile returns two empty
    tables. *)
Theorem queryMany_nothing_to_match `{C : Collaborators} :
  forall (d : merc_tile) (qs : list query_lonlat) (tolerance : double)
         (name : string) (fields : list string) t result,
    qs = [] \/ leb zero tolerance = false ->
    _queryMany d qs tolerance name fields = (t, inr result) ->
    qm_features result = empty /\ qm_hits result = empty.
Proof.
  intros d qs tolerance name fields t result Hcase H.
  destruct (_queryMany_returns d qs tolerance name fields t result H)
    as (l & fs & n & hits & _ & (H1 & _ & H3 & H4) & Hhits).
  assert (Hnone : forall p, hits !! p = None).
  { intros p. destruct (hits !! p) as [hs|] eqn:Hp; [exfalso|reflexivity].
    destruct (H3 p hs Hp) as (Hlt & Hne & Hall).
    destruct Hcase as [-> | Htol]; [cbn in Hlt; lia|].
    destruct hs as [|h hs']; [congruence|].
    destruct (Hall h (or_introl eq_refl)) as [Hw _].
    unfold hit_within in Hw. apply andb_true_iff in Hw. destruct Hw as [H0 Ht].
    rewrite (leb_trans zero (hit_distance h) tolerance H0 Ht) in Htol. discriminate. }
  split.
  - apply map_empty. intros k.
    destruct (qm_features result !! k) as [res|] eqn:Hk; [exfalso|reflexivity].
    assert (Hlt : (k < n)%nat) by (apply H1; now exists res).
    destruct (H4 k Hlt) as (p & hs & h & Hp & _). rewrite Hnone in Hp. discriminate.
  - rewrite Hhits. apply map_empty. intros p. now rewrite lookup_fmap, Hnone.
Qed.

(* ===================================================================== *)
(** ** The asynchronous forms beside the synchronous ones                  *)
(* ===================================================================== *)

Section AsyncFacts.

Lemma Length_app (info : list js_value) (cb : js_value) :
  Length (info ++ [cb]) = Length info + 1.
Proof. unfold Length. rewrite length_app. cbn [List.length]. lia. Qed.

Lemma Length_nonneg (info : list js_value) : 0 <= Length info.
Proof. unfold Length. lia. Qed.

Lemma arg_last (info : list js_value) (cb : js_value) :
  arg (info ++ [cb]) (Length (info ++ [cb]) - 1) = cb.
Proof.
  rewrite Length_app. replace (Length info + 1 - 1) with (Length info) by lia.
  unfold arg, Length.
  destruct (Z.of_nat (List.length info) <? 0) eqn:Hn; [apply Z.ltb_lt in Hn; lia|].
  rewrite Nat2Z.id, app_nth2 by lia. now rewrite Nat.sub_diag.
Qed.

Lemma arg_app_0 (info : list js_value) (cb : js_value) :
  info <> [] -> arg (info ++ [cb]) 0 = arg info 0.
Proof. destruct info as [|v rest]; [congruence|reflexivity]. Qed.

Lemma Length_pos (info : list js_value) : info <> [] -> 0 < Length info.
Proof. destruct info; [congruence|]. intros _. unfold Length. cbn [List.length]. lia. Qed.

Lemma Length_zero (info : list js_value) : Length info = 0 -> info = [].
Proof. destruct info; [reflexivity|]. unfold Length. cbn [List.length]. lia. Qed.

Lemma arg_app_lt (info : list js_value) (cb : js_value) (i : Z) :
  0 <= i < Length info -> arg (info ++ [cb]) i = arg info i.
Proof.
  unfold arg, Length. intros Hi.
  destruct (i <? 0) eqn:Hn; [apply Z.ltb_lt in Hn; lia|].
  apply app_nth1. lia.
Qed.

Lemma arg_app_len (info : list js_value) (cb : js_value) :
  arg (info ++ [cb]) (Length info) = cb.
Proof.
  pose proof (arg_last info cb) as H. rewrite Length_app in H.
  now replace (Length info + 1 - 1) with (Length info) in H by lia.
Qed.

Lemma finish_callback {A : Type} (info : list js_value) (cb : js_value) (r : exn + A) :
  IsFunction cb = true ->
  finish (info ++ [cb]) r
  = match r with
    | inl what => CalledBack cb (inl (Error what))
    | inr a => CalledBack cb (inr a)
    end.
Proof. intros Hcb. unfold finish. now rewrite arg_last, Hcb. Qed.

Lemma finish_sync {A : Type} (info : list js_value) (r : exn + A) :
  IsFunction (arg info (Length info - 1)) = false ->
  finish info r
  = match r with
    | inl what => Threw (Error what)
    | inr a => Returned a
    end.
Proof. intros Hcb. unfold finish. now rewrite Hcb. Qed.

End AsyncFacts.

(** X9. [addData] and [setData] with a callback do what the synchronous
    forms do on the arguments before the callback: the tile is left in
    the same state; a [TypeError] of the argument checks is thrown as it
    is, and an error of the work (the empty buffer, a failed merge) or
    its success goes to the callback. *)
Theorem addData_setData_async_as_sync `{C : Collaborators} :
  forall (d : merc_tile) (info : list js_value) (cb : js_value),
    info <> [] ->
    IsFunction cb = true ->
    addData d (info ++ [cb])
    = (fst (_addDataSync d info), deferred cb (snd (_addDataSync d info))) /\
    setData d (info ++ [cb])
    = (fst (_setDataSync d info), deferred cb (snd (_setDataSync d info))).
Proof.
  intros d info cb Hne Hcb.
  pose proof (Length_pos info Hne) as Hpos.
  assert (H1 : (Length (info ++ [cb]) =? 1) = false)
    by (rewrite Length_app; apply Z.eqb_neq; lia).
  assert (H0 : (Length (info ++ [cb]) <? 1) = false)
    by (rewrite Length_app; apply Z.ltb_ge; lia).
  assert (H0' : (Length info <? 1) = false) by (apply Z.ltb_ge; lia).
  unfold addData, setData, _addDataSync, _setDataSync.
  rewrite H1, H0, H0', arg_last, Hcb, (arg_app_0 info cb Hne).
  cbn [negb orb]. cbv zeta.
  destruct (negb (IsObject (arg info 0))); [now split|].
  destruct (IsNull (arg info 0) || IsUndefined (arg info 0)
            || negb (Buffer_HasInstance (arg info 0))); [now split|].
  unfold EIO_AddData, EIO_SetData, Buffer_Length. cbv zeta.
  destruct (Z.of_nat (List.length (Buffer_Data (arg info 0))) <=? 0); [now split|].
  split.
  - destruct (try_merge d (Buffer_Data (arg info 0))) as [d' [what|]]; reflexivity.
  - destruct (try_merge (clear d) (Buffer_Data (arg info 0))) as [d' [what|]]; reflexivity.
Qed.

(** X10. A call of [addData], [setData] or [clear] that ends in a
    [TypeError] has not touched the tile; this is how each of them ends
    when its last argument is not a function (and, for [addData] and
    [setData], the arguments are not exactly one). *)
Theorem type_error_leaves_tile `{C : Collaborators} :
  forall (d : merc_tile) (info : list js_value),
    (forall msg, snd (addData d info) = Threw (TypeError msg) ->
                 fst (addData d info) = d) /\
    (forall msg, snd (setData d info) = Threw (TypeError msg) ->
                 fst (setData d info) = d) /\
    (forall msg, snd (VectorTile_clear d info) = Threw (TypeError msg) ->
                 fst (VectorTile_clear d info) = d) /\
    (IsFunction (arg info (Length info - 1)) = false ->
     (Length info <> 1 ->
      exists msg, addData d info = (d, Threw (TypeError msg)) /\
                  setData d info = (d, Threw (TypeError msg))) /\
     (Length info <> 0 ->
      exists msg, VectorTile_clear d info = (d, Threw (TypeError msg)))).
Proof.
  intros d info.
  assert (Hadd : forall msg, snd (_addDataSync d info) = Threw (TypeError msg) ->
                             fst (_addDataSync d info) = d).
  { intros msg. unfold _addDataSync.
    destruct (_ || _); [reflexivity|]. cbv zeta.
    destruct (_ || _); [reflexivity|].
    destruct (_ <=? 0); [reflexivity|].
    destruct (try_merge _ _) as [d' [what|]]; cbn; intros H; discriminate H. }
  assert (Hset : forall msg, snd (_setDataSync d info) = Threw (TypeError msg) ->
                             fst (_setDataSync d info) = d).
  { intros msg. unfold _setDataSync.
    destruct (_ || _); [reflexivity|]. cbv zeta.
    destruct (_ || _); [reflexivity|].
    destruct (_ <=? 0); [reflexivity|].
    destruct (try_merge _ _) as [d' [what|]]; cbn; intros H; discriminate H. }
  repeat apply conj.
  - intros msg. unfold addData.
    destruct (Length info =? 1); [apply Hadd|]. cbv zeta.
    destruct (negb (IsFunction _)); [reflexivity|].
    destruct (_ || _); [reflexivity|].
    destruct (_ || _); [reflexivity|].
    unfold after_data.
    destruct (EIO_AddData _ _) as [d' [what|]]; cbn; intros H; discriminate H.
  - intros msg. unfold setData.
    destruct (Length info =? 1); [apply Hset|]. cbv zeta.
    destruct (negb (IsFunction _)); [reflexivity|].
    destruct (_ || _); [reflexivity|].
    destruct (_ || _); [reflexivity|].
    unfold after_data.
    destruct (EIO_SetData _ _) as [d' [what|]]; cbn; intros H; discriminate H.
  - intros msg. unfold VectorTile_clear, _clearSync.
    destruct (Length info =? 0); [cbn; intros H; discriminate H|]. cbv zeta.
    destruct (negb (IsFunction _)); [reflexivity|].
    cbn. intros H. discriminate H.
  - intros Hcb. split.
    + intros Hn1. apply Z.eqb_neq in Hn1.
      exists "last argument must be a callback function"%string.
      unfold addData, setData. rewrite Hn1, Hcb. now split.
    + intros Hn0. apply Z.eqb_neq in Hn0.
      exists "last argument must be a callback function"%string.
      unfold VectorTile_clear. now rewrite Hn0, Hcb.
Qed.

(* ===================================================================== *)
(** ** The asynchronous [getData]                                          *)
(* ===================================================================== *)

Section GetDataFacts.
Context `{C : Collaborators}.

(** The asynchronous form reads its options as the synchronous form reads
    the arguments before the callback. *)
Lemma getData_async_unfold (d : merc_tile) (info : list js_value) (cb : js_value) :
  IsFunction cb = true ->
  getData d (info ++ [cb])
  = match getData_arguments info with
    | inl e => ([], Threw e)
    | inr o => let '(trace, r) := get_data d o in
               (trace, after_get_data d cb r)
    end.
Proof.
  intros Hcb. unfold getData, getData_arguments.
  rewrite arg_last, Hcb.
  assert (H0 : (Length (info ++ [cb]) =? 0) = false).
  { rewrite Length_app. apply Z.eqb_neq. pose proof (Length_nonneg info). lia. }
  rewrite H0. cbn [negb orb]. cbv zeta.
  rewrite Length_app.
  replace (1 <? Length info + 1) with (0 <? Length info)
    by (destruct (0 <? Length info) eqn:Hl; symmetry;
        [apply Z.ltb_lt; apply Z.ltb_lt in Hl|apply Z.ltb_ge; apply Z.ltb_ge in Hl]; lia).
  destruct (0 <? Length info) eqn:Hl; [|reflexivity].
  apply Z.ltb_lt in Hl.
  rewrite arg_app_0; [reflexivity|].
  intros ->. unfold Length in Hl. cbn in Hl. lia.
Qed.

End GetDataFacts.

(** X11. Without gzip, [getData] with a callback hands the callback what
    the synchronous form returns for the arguments before the callback,
    and makes no outside call; options that the synchronous form rejects
    are rejected by the same exception, thrown before any work is queued.
    The one difference is the class of the exception for a tile too large
    for a buffer: a [TypeError] thrown by the synchronous form, an
    [Error] for the callback. *)
Theorem getData_async_plain_as_sync `{C : Collaborators} :
  forall (d : merc_tile) (info : list js_value) (cb : js_value),
    IsFunction cb = true ->
    (forall e, getData_arguments info = inl e ->
               _getDataSync d info = ([], inl e) /\
               getData d (info ++ [cb]) = ([], Threw e)) /\
    (forall o, getData_arguments info = inr o ->
               opt_compress o = false ->
               (exists v, _getDataSync d info = ([], inr v) /\
                          getData d (info ++ [cb]) = ([], CalledBack cb (inr v))) \/
               (kMaxLength <= Z.of_nat (tile_raw_size d) /\
                _getDataSync d info
                = ([], inl (TypeError (too_large_error (tile_raw_size d)))) /\
                getData d (info ++ [cb])
                = ([], CalledBack cb (inl (Error (too_large_error (tile_raw_size d))))))).
Proof.
  intros d info cb Hcb. split.
  - intros e He. rewrite (getData_async_unfold d info cb Hcb).
    unfold _getDataSync. now rewrite He.
  - intros o Ho Hc. rewrite (getData_async_unfold d info cb Hcb).
    unfold _getDataSync. rewrite Ho.
    unfold getData_body, get_data, after_get_data. rewrite Hc. cbv zeta.
    cbn [negb].
    destruct (Z.of_nat (tile_raw_size d) <=? 0); [left; eexists; split; reflexivity|].
    destruct (kMaxLength <=? Z.of_nat (tile_raw_size d)) eqn:Hk.
    + right. apply Z.leb_le in Hk. repeat split; trivial.
    + left. eexists; split; reflexivity.
Qed.

(** X12. With gzip, [getData] with a callback calls [zlib_compress] on
    the bytes of the tile whatever their size, also when there are none
    and when they are too many for a buffer, where the synchronous form
    makes no call.  What the compression returns, not being empty, goes to
    the callback; what it throws goes there as an [Error]. *)
Theorem getData_async_gzip_always_compresses `{C : Collaborators} :
  forall (d : merc_tile) (info : list js_value) (cb : js_value) o,
    IsFunction cb = true ->
    getData_arguments info = inr o ->
    opt_compress o = true ->
    fst (getData d (info ++ [cb]))
    = [ev_zlib_compress (tile_raw_size d) (opt_level o) (opt_strategy o)] /\
    (forall data, zlib_compress (tile_data d) (opt_level o) (opt_strategy o) = inr data ->
                  data <> [] ->
                  snd (getData d (info ++ [cb])) = CalledBack cb (inr (JsBuffer data))) /\
    (forall what, zlib_compress (tile_data d) (opt_level o) (opt_strategy o) = inl what ->
                  snd (getData d (info ++ [cb])) = CalledBack cb (inl (Error what))) /\
    ((Z.of_nat (tile_raw_size d) <= 0 \/ kMaxLength <= Z.of_nat (tile_raw_size d)) ->
     fst (_getDataSync d info) = []).
Proof.
  intros d info cb o Hcb Ho Hc.
  rewrite (getData_async_unfold d info cb Hcb), Ho.
  unfold get_data. rewrite Hc. cbn [fst snd]. repeat apply conj.
  - reflexivity.
  - intros data Hz Hne. rewrite Hz. destruct data; [congruence|reflexivity].
  - intros what Hz. now rewrite Hz.
  - intros Hsize. unfold _getDataSync. rewrite Ho. unfold getData_body. cbv zeta.
    destruct (Z.of_nat (tile_raw_size d) <=? 0) eqn:H0; [reflexivity|].
    destruct (kMaxLength <=? Z.of_nat (tile_raw_size d)) eqn:Hk; [reflexivity|].
    apply Z.leb_gt in H0. apply Z.leb_gt in Hk. lia.
Qed.

(* ===================================================================== *)
(** ** The tiles the constructor makes                                     *)
(* ===================================================================== *)

Section NewFacts.

Lemma to_int32_range (z : Z) : - 2 ^ 31 <= to_int32 z < 2 ^ 31.
Proof.
  unfold to_int32. pose proof (Z.mod_pos_bound (z + 2 ^ 31) (2 ^ 32)). lia.
Qed.

Lemma to_uint32_small (z : Z) : 0 <= z < 2 ^ 32 -> to_uint32 z = z.
Proof. intros H. unfold to_uint32. now apply Z.mod_small. Qed.

Lemma New_options_range (options : js_value) (tile_size buffer_size : Z) :
  New_options options = inr (tile_size, buffer_size) ->
  0 < tile_size < 2 ^ 31 /\ - 2 ^ 31 <= buffer_size < 2 ^ 31.
Proof.
  unfold New_options. cbv zeta.
  assert (Hts : forall ts,
             (if Has options "tile_size"
              then if negb (IsNumber (Get options "tile_size"))
                   then inl (TypeError "optional arg 'tile_size' must be a number")
                   else if to_int32 (IntegerValue (Get options "tile_size")) <=? 0
                        then inl (TypeError "optional arg 'tile_size' must be greater then zero")
                        else inr (to_uint32 (to_int32 (IntegerValue (Get options "tile_size"))))
              else inr 4096) = inr ts -> 0 < ts < 2 ^ 31).
  { intros ts. destruct (Has options "tile_size"); [|intros [= <-]; lia].
    destruct (negb _); [discriminate|].
    destruct (_ <=? 0) eqn:Hle; [discriminate|].
    apply Z.leb_gt in Hle. intros [= <-].
    pose proof (to_int32_range (IntegerValue (Get options "tile_size"))).
    rewrite to_uint32_small; lia. }
  destruct (if Has options "tile_size" then _ else _) as [e|ts]; [discriminate|].
  specialize (Hts ts eq_refl).
  destruct (Has options "buffer_size").
  - destruct (negb _); [discriminate|]. intros [= <- <-].
    split; [exact Hts|apply to_int32_range].
  - intros [= <- <-]. split; [exact Hts|lia].
Qed.

End NewFacts.

(** X13. Every tile the constructor makes is well formed but for a
    buffer beyond [-2^30] or [2^30]: z, x and y are not negative, the
    tile size is positive, both sizes fit an [int], and, the buffer size
    being within [-2^30, 2^30), the buffered size
    [tile_size + 2 * buffer_size] is positive.  Called with z, x and
    y only, it makes a tile of size 4096 with a buffer of 128. *)
Theorem New_tile_well_formed :
  forall (is_construct_call : bool) (info : list js_value) (d : merc_tile),
    New is_construct_call info = inr d ->
    is_construct_call = true /\
    3 <= Length info /\
    0 <= tile_z d < 2 ^ 31 /\ 0 <= tile_x d < 2 ^ 31 /\ 0 <= tile_y d < 2 ^ 31 /\
    0 < tile_size d < 2 ^ 31 /\
    - 2 ^ 31 <= buffer_size d < 2 ^ 31 /\
    (- 2 ^ 30 <= buffer_size d < 2 ^ 30 -> 0 < tile_size d + 2 * buffer_size d) /\
    (Length info = 3 -> tile_size d = 4096 /\ buffer_size d = 128).
Proof.
  intros b info d. unfold New.
  destruct b; cbn [negb]; [|discriminate].
  destruct (Length info <? 3) eqn:Hlen; [discriminate|]. apply Z.ltb_ge in Hlen.
  destruct (_ || _); [discriminate|]. cbv zeta.
  destruct ((_ <? 0) || _ || _) eqn:Hneg; [discriminate|].
  apply orb_false_iff in Hneg. destruct Hneg as [Hneg Hy].
  apply orb_false_iff in Hneg. destruct Hneg as [Hz Hx].
  apply Z.ltb_ge in Hx, Hy, Hz.
  pose proof (to_int32_range (IntegerValue (arg info 0))).
  pose proof (to_int32_range (IntegerValue (arg info 1))).
  pose proof (to_int32_range (IntegerValue (arg info 2))).
  assert (Hopt : forall ts bs,
             (if 3 <? Length info
              then if negb (IsObject (arg info 3))
                   then inl (TypeError "optional fourth argument must be an options object")
                   else New_options (arg info 3)
              else inr (4096, 128)) = inr (ts, bs) ->
             (0 < ts < 2 ^ 31 /\ - 2 ^ 31 <= bs < 2 ^ 31) /\
             (Length info = 3 -> ts = 4096 /\ bs = 128)).
  { intros ts bs. destruct (3 <? Length info) eqn:H3.
    - apply Z.ltb_lt in H3. destruct (negb _); [discriminate|].
      intros Ho. split; [now apply New_options_range in Ho|lia].
    - intros [= <- <-]. split; [lia|now split]. }
  destruct (if 3 <? Length info then _ else _) as [e|[ts bs]]; [discriminate|].
  destruct (Hopt ts bs eq_refl) as [[Hts Hbs] Hdef].
  destruct (buffer_too_negative ts bs) eqn:Hbuf; [discriminate|].
  intros [= <-]. cbn [new_merc_tile tile_z tile_x tile_y tile_size buffer_size].
  repeat apply conj; try lia; try reflexivity; try (apply Hdef; assumption).
  intros Hr. rewrite buffer_too_negative_exact in Hbuf by lia.
  apply Z.leb_gt in Hbuf. lia.
Qed.

(* ===================================================================== *)
(** ** The properties object of [toJSON]                                   *)
(* ===================================================================== *)

Section TagFacts.
Variable layer_keys : list string.
Variable layer_values : list pbf_attr_value.

Lemma at_in_range {A : Type} (v : list A) (n : N) :
  (n <? N.of_nat (List.length v))%N = true -> exists a, at_ v n = Some a.
Proof.
  intros H. apply N.ltb_lt in H. unfold at_.
  destruct (nth_error v (N.to_nat n)) as [a|] eqn:Hn; [now exists a|].
  apply nth_error_None in Hn. lia.
Qed.

Lemma at_out_of_range {A : Type} (v : list A) (n : N) :
  (n <? N.of_nat (List.length v))%N = false -> at_ v n = None.
Proof.
  intros H. apply N.ltb_ge in H. unfold at_. apply nth_error_None. lia.
Qed.

Lemma feature_tags_fold_bounded (n : nat) :
  forall (tags : list N) (props : list (string * js_value)),
    (List.length tags <= n)%nat ->
    feature_tags layer_keys layer_values tags (JsObject props)
    = inr (JsObject (fold_left set_attribute
                               (attributes layer_keys layer_values tags) props)).
Proof.
  induction n as [|n IH]; intros tags props Hlen.
  - destruct tags; [reflexivity|cbn in Hlen; lia].
  - destruct tags as [|key_name [|key_value rest]]; try reflexivity.
    cbn [feature_tags]. unfold attributes. cbn [tag_pairs List.map List.concat].
    fold (attributes layer_keys layer_values rest).
    unfold resolve. cbn [fst snd].
    assert (Hrest : (List.length rest <= n)%nat) by (cbn in Hlen; lia).
    destruct (key_name <? N.of_nat (List.length layer_keys))%N eqn:Hk.
    + destruct (key_value <? N.of_nat (List.length layer_values))%N eqn:Hv.
      * destruct (at_in_range layer_keys key_name Hk) as [name ->].
        destruct (at_in_range layer_values key_value Hv) as [val ->].
        cbn [andb app]. unfold json_value_visitor, Object_Set.
        rewrite IH by exact Hrest. reflexivity.
      * rewrite (at_out_of_range layer_values key_value Hv). cbn [andb].
        rewrite IH by exact Hrest.
        now destruct (at_ layer_keys key_name).
    + rewrite (at_out_of_range layer_keys key_name Hk). cbn [andb].
      now rewrite IH by exact Hrest.
Qed.

Lemma lookup_set_prop (name key : string) (v : js_value)
  (props : list (string * js_value)) :
  lookup_prop name (set_prop key v props)
  = if String.eqb key name then Some v else lookup_prop name props.
Proof.
  induction props as [|[k w] rest IH]; cbn [set_prop lookup_prop].
  - reflexivity.
  - destruct (String.eqb k key) eqn:Hkk; cbn [lookup_prop].
    + apply String.eqb_eq in Hkk. subst k.
      now destruct (String.eqb key name).
    + destruct (String.eqb k name) eqn:Hkn; [|exact IH].
      destruct (String.eqb key name) eqn:Hyn; [|reflexivity].
      apply String.eqb_eq in Hkn, Hyn. subst.
      now rewrite String.eqb_refl in Hkk.
Qed.

Lemma lookup_fold_set (name : string) (attrs : list (string * pbf_attr_value)) :
  forall (props : list (string * js_value)) (acc : option pbf_attr_value),
    lookup_prop name props = option_map attr_to_v8 acc ->
    lookup_prop name (fold_left set_attribute attrs props)
    = option_map attr_to_v8
        (fold_left (fun acc kv => if String.eqb (fst kv) name then Some (snd kv) else acc)
                   attrs acc).
Proof.
  induction attrs as [|[k val] rest IH]; intros props acc Hacc; cbn [fold_left].
  - exact Hacc.
  - apply IH. unfold set_attribute. cbn [fst snd]. rewrite lookup_set_prop.
    now destruct (String.eqb k name).
Qed.

End TagFacts.


(* ===================================================================== *)
(** ** The arrays of a decoded geometry                                    *)
(* ===================================================================== *)

Section GeometryArrayFacts.
Context {T : Type}.
Variable Number : T -> double.
Variable safe : T -> Prop.
Hypothesis Number_inj : forall a b, safe a -> safe b -> Number a = Number b -> a = b.

Lemma map_inj_on {A B : Type} (f : A -> B) (P : A -> Prop) :
  (forall a b, P a -> P b -> f a = f b -> a = b) ->
  forall l l', Forall P l -> Forall P l' -> List.map f l = List.map f l' -> l = l'.
Proof.
  intros Hf. induction l as [|a l IH]; intros [|b l'] Hl Hl' Heq;
    try reflexivity; try discriminate Heq.
  cbn in Heq. injection Heq as Hab Hrest.
  inversion Hl; subst. inversion Hl'; subst.
  f_equal; [now apply Hf|now apply IH].
Qed.

Lemma point_array_inj (p q : Geometry.point T) :
  safe_point safe p -> safe_point safe q ->
  point_array Number p = point_array Number q -> p = q.
Proof.
  destruct p as [px py], q as [qx qy]. unfold safe_point, point_array. cbn.
  intros [Hpx Hpy] [Hqx Hqy] [= Hx Hy].
  f_equal; now apply Number_inj.
Qed.

Lemma points_array_map (l : list (Geometry.point T)) :
  points_array Number l = JsArray (List.map (point_array Number) l).
Proof. now destruct l. Qed.

Lemma points_array_inj (l l' : list (Geometry.point T)) :
  Forall (safe_point safe) l -> Forall (safe_point safe) l' ->
  points_array Number l = points_array Number l' -> l = l'.
Proof.
  intros Hl Hl'. rewrite !points_array_map. intros [= Heq].
  exact (map_inj_on _ (safe_point safe) point_array_inj l l' Hl Hl' Heq).
Qed.

Lemma multi_line_string_array_map (l : list (Geometry.line_string T)) :
  multi_line_string_array Number l = JsArray (List.map (points_array Number) l).
Proof. now destruct l. Qed.

Lemma lines_array_inj (l l' : list (list (Geometry.point T))) :
  Forall (Forall (safe_point safe)) l -> Forall (Forall (safe_point safe)) l' ->
  List.map (points_array Number) l = List.map (points_array Number) l' -> l = l'.
Proof. apply map_inj_on. exact points_array_inj. Qed.

Lemma polygon_array_inj (p q : Geometry.polygon T) :
  safe_polygon safe p -> safe_polygon safe q ->
  polygon_array Number p = polygon_array Number q -> p = q.
Proof.
  destruct p as [pe pi], q as [qe qi].
  unfold safe_polygon, polygon_regular, polygon_rings, polygon_array.
  cbn [Geometry.exterior_ring Geometry.interior_rings].
  intros [Hp Hps] [Hq Hqs].
  inversion Hps as [|? ? Hpe Hpi]; subst. inversion Hqs as [|? ? Hqe Hqi]; subst.
  destruct pe as [|p0 pe], qe as [|q0 qe].
  - intros _. now rewrite Hp, Hq.
  - intros H. discriminate H.
  - intros H. discriminate H.
  - intros H. apply (f_equal Array_items) in H. cbn [Array_items] in H.
    pose proof (f_equal (hd JsNull) H) as Hext.
    pose proof (f_equal (@tl js_value) H) as Hint.
    cbn [hd tl] in Hext, Hint.
    rewrite (points_array_inj _ _ Hpe Hqe Hext).
    now rewrite (lines_array_inj _ _ Hpi Hqi Hint).
Qed.

Lemma multi_polygon_array_map (l : list (Geometry.polygon T)) :
  multi_polygon_array Number l = JsArray (List.map (polygon_array Number) l).
Proof. now destruct l. Qed.

Lemma Forall_concat {A : Type} (P : A -> Prop) (ls : list (list A)) :
  Forall P (List.concat ls) -> Forall (Forall P) ls.
Proof.
  induction ls as [|l ls IH]; cbn; [constructor|].
  intros H. apply Forall_app in H. destruct H as [Hl Hls].
  constructor; [exact Hl|now apply IH].
Qed.

Lemma safe_polygons (polys : list (Geometry.polygon T)) :
  Forall polygon_regular polys ->
  Forall (safe_point safe)
         (List.concat (List.map (fun poly => List.concat (polygon_rings poly)) polys)) ->
  Forall (safe_polygon safe) polys.
Proof.
  induction polys as [|poly polys IH]; intros Hr Hs; [constructor|].
  inversion Hr; subst. cbn [List.map List.concat] in Hs.
  apply Forall_app in Hs. destruct Hs as [Hpoly Hrest].
  constructor; [|now apply IH].
  split; [assumption|now apply Forall_concat].
Qed.

End GeometryArrayFacts.

(** X15. The type name and the array [toJSON] gives for a decoded
    geometry tell geometries apart: two geometries with the same name and
    the same array are equal.  This holds among the geometries that are
    no collection, whose polygons have no interior ring behind an empty
    exterior ring (such a polygon gives the empty array, rings or not),
    and whose coordinates are [safe], a set on which the conversion to a
    JavaScript number is one to one. *)
Theorem geometry_array_tells_apart {T : Type} (Number : T -> double)
  (safe : T -> Prop) :
  (forall a b, safe a -> safe b -> Number a = Number b -> a = b) ->
  forall g g' : Geometry.geometry T,
    regular g -> regular g' ->
    Forall (safe_point safe) (geometry_points g) ->
    Forall (safe_point safe) (geometry_points g') ->
    geometry_type_name g = geometry_type_name g' ->
    geometry_array_visitor Number g = geometry_array_visitor Number g' ->
    g = g'.
Proof.
  intros Hinj g g' Hr Hr' Hs Hs' Hname Harr.
  destruct g, g'; try discriminate Hname; try contradiction;
    cbn [geometry_array_visitor geometry_points regular] in *.
  - reflexivity.
  - f_equal. inversion Hs; subst. inversion Hs'; subst.
    now apply (point_array_inj Number safe Hinj).
  - f_equal. now apply (points_array_inj Number safe Hinj).
  - f_equal. apply (polygon_array_inj Number safe Hinj); trivial.
    + split; [exact Hr|now apply Forall_concat].
    + split; [exact Hr'|now apply Forall_concat].
  - f_equal. now apply (points_array_inj Number safe Hinj).
  - f_equal. rewrite !multi_line_string_array_map in Harr. injection Harr as Harr.
    apply (lines_array_inj Number safe Hinj); trivial; now apply Forall_concat.
  - f_equal. rewrite !multi_polygon_array_map in Harr. injection Harr as Harr.
    apply (map_inj_on _ (safe_polygon safe) (polygon_array_inj Number safe Hinj));
      trivial; now apply safe_polygons.
Qed.

(* ===================================================================== *)
(** ** Points that cannot be projected                                     *)
(* ===================================================================== *)

Section ProjectionFacts.
Context `{C : Collaborators}.

Lemma project_points_fails (qs : list query_lonlat) :
  forall (bbox : box2d) (points : list point),
    (exists q, In q qs /\ tr_forward (lon q) (lat q) = None) ->
    project_points qs bbox points = ([], inl reproject_error).
Proof.
  induction qs as [|q0 rest IH]; intros bbox points (q & Hin & Hq).
  - destruct Hin.
  - cbn [project_points].
    destruct (tr_forward (lon q0) (lat q0)) as [[x y]|] eqn:H0; [|reflexivity].
    apply IH. exists q. split; [|exact Hq].
    destruct Hin as [<- | Hin]; [congruence|exact Hin].
Qed.

End ProjectionFacts.

(** X16. A point that cannot be projected to the mercator plane makes
    the query fail before any layer is looked into: [query] on a tile that
    is not empty and [queryMany] on a layer of the tile throw "could not
    reproject lon/lat to mercator" without a call of the datasource, for
    [queryMany] as soon as one of the points cannot be projected. *)
Theorem unprojectable_point_fails `{C : Collaborators} :
  forall (d : merc_tile) (tolerance : double) (name : string),
    (forall lon lat,
        is_empty d = false ->
        tr_forward lon lat = None ->
        _query d lon lat tolerance name = ([], inl reproject_error)) /\
    (forall (qs : list query_lonlat) (fields : list string) l,
        layer_reader name d = Some l ->
        (exists q, In q qs /\ tr_forward (lon q) (lat q) = None) ->
        _queryMany d qs tolerance name fields = ([], inl reproject_error)).
Proof.
  intros d tolerance name. split.
  - intros lon lat He Hf. unfold _query. now rewrite He, Hf.
  - intros qs fields l Hl Hq. unfold _queryMany. rewrite Hl.
    unfold bind. now rewrite (project_points_fails qs box2d_default [] Hq).
Qed.

(* ===================================================================== *)
(** ** [query] and [queryMany] with a callback                             *)
(* ===================================================================== *)

(** X17. [query] and [queryMany] with a callback make the calls and
    deliver the result of the form without: what that form returns goes
    to the callback, and what it throws is either thrown as it is or
    handed to the callback.  For [query] this holds for any arguments, the
    callback standing in for absent options; for [queryMany] it holds when
    at least the points and the options are given. *)
Theorem query_async_as_sync `{C : Collaborators} :
  forall (d : merc_tile) (info : list js_value) (cb : js_value),
    IsFunction cb = true ->
    IsFunction (arg info (Length info - 1)) = false ->
    (fst (query d (info ++ [cb])) = fst (query d info) /\
     async_of cb (snd (query d info)) (snd (query d (info ++ [cb])))) /\
    (2 <= Length info ->
     fst (queryMany d (info ++ [cb])) = fst (queryMany d info) /\
     async_of cb (snd (queryMany d info)) (snd (queryMany d (info ++ [cb])))).
Proof.
  intros d info cb Hcb Hlast.
  destruct cb as [| | | | |id| | |]; try discriminate Hcb.
  pose proof (Length_nonneg info) as Hnn.
  split.
  - unfold query. rewrite Length_app.
    destruct (Length info <? 2) eqn:H2.
    + apply Z.ltb_lt in H2. cbn [orb].
      assert (Hc : (Length info + 1 <? 2)
                   || negb (IsNumber (arg (info ++ [JsFunction id]) 0))
                   || negb (IsNumber (arg (info ++ [JsFunction id]) 1)) = true).
      { destruct (Z.eq_dec (Length info) 0) as [H0|H0].
        - replace (Length info + 1 <? 2) with true by (symmetry; apply Z.ltb_lt; lia).
          reflexivity.
        - assert (H1 : arg (info ++ [JsFunction id]) 1 = JsFunction id)
            by (replace 1 with (Length info) by lia; apply arg_app_len).
          rewrite H1. cbn [IsNumber negb]. now rewrite orb_true_r. }
      rewrite Hc. cbn. split; [reflexivity|now left].
    + apply Z.ltb_ge in H2.
      replace (Length info + 1 <? 2) with false by (symmetry; apply Z.ltb_ge; lia).
      rewrite !arg_app_lt by lia. cbn [orb].
      destruct (negb (IsNumber (arg info 0)) || negb (IsNumber (arg info 1)));
        [cbn; split; [reflexivity|now left]|].
      replace (2 <? Length info + 1) with true by (symmetry; apply Z.ltb_lt; lia).
      assert (Hopt :
                (if negb (IsObject (arg (info ++ [JsFunction id]) 2))
                 then inl (TypeError "optional third argument must be an options object")
                 else query_options (arg (info ++ [JsFunction id]) 2))
                = (if 2 <? Length info
                   then if negb (IsObject (arg info 2))
                        then inl (TypeError "optional third argument must be an options object")
                        else query_options (arg info 2)
                   else inr (zero, EmptyString))).
      { destruct (2 <? Length info) eqn:H3.
        - apply Z.ltb_lt in H3. now rewrite arg_app_lt by lia.
        - apply Z.ltb_ge in H3.
          assert (H2' : arg (info ++ [JsFunction id]) 2 = JsFunction id)
            by (replace 2 with (Length info) by lia; apply arg_app_len).
          now rewrite H2'. }
      rewrite Hopt.
      destruct (if 2 <? Length info then _ else _) as [e|[tolerance name]];
        [cbn; split; [reflexivity|now left]|].
      cbv zeta.
      destruct (_query d (NumberValue (arg info 0)) (NumberValue (arg info 1))
                       tolerance name) as [trace r].
      rewrite (finish_callback info (JsFunction id) r eq_refl), (finish_sync info r Hlast).
      cbn [fst snd]. split; [reflexivity|].
      destruct r; cbn; [now right|reflexivity].
  - intros H2. unfold queryMany. rewrite Length_app.
    replace (Length info + 1 <? 2) with false by (symmetry; apply Z.ltb_ge; lia).
    replace (Length info <? 2) with false by (symmetry; apply Z.ltb_ge; lia).
    rewrite !arg_app_lt by lia. cbn [orb].
    destruct (negb (IsArray (arg info 0))); [cbn; split; [reflexivity|now left]|].
    destruct (convert_query (Array_items (arg info 0))) as [e|qs];
      [cbn; split; [reflexivity|now left]|].
    destruct (negb (IsObject (arg info 1))); [cbn; split; [reflexivity|now left]|].
    destruct (queryMany_options (arg info 1)) as [e|[[tolerance name] fields]];
      [cbn; split; [reflexivity|now left]|].
    destruct (string_empty name); [cbn; split; [reflexivity|now left]|].
    destruct (_queryMany d qs tolerance name fields) as [trace r].
    rewrite (finish_callback info (JsFunction id) r eq_refl), (finish_sync info r Hlast).
    cbn [fst snd]. split; [reflexivity|].
    destruct r; cbn; [now right|reflexivity].
Qed.

(* ===================================================================== *)
(** ** The layer option of [query]                                         *)
(* ===================================================================== *)

Section LayerOption.
Context `{C : Collaborators}.

Lemma filter_Permutation_list {A : Type} (f : A -> bool) (l l' : list A) :
  Permutation l l' -> Permutation (List.filter f l) (List.filter f l').
Proof.
  induction 1 as [|a l l' _ IH|a b l|l1 l2 l3 _ IH1 _ IH2]; cbn.
  - constructor.
  - destruct (f a); [now constructor|exact IH].
  - destruct (f a), (f b); try reflexivity. constructor.
  - now transitivity (List.filter f l2).
Qed.

Lemma filter_comm {A : Type} (f g : A -> bool) (l : list A) :
  List.filter f (List.filter g l) = List.filter g (List.filter f l).
Proof.
  induction l as [|a l IH]; [reflexivity|]. cbn.
  destruct (f a) eqn:Hf, (g a) eqn:Hg; cbn; rewrite ?Hf, ?Hg, IH; reflexivity.
Qed.

Lemma filter_map_swap {A B : Type} (f : A -> B) (p : B -> bool) (l : list A) :
  List.filter p (List.map f l) = List.map f (List.filter (fun a => p (f a)) l).
Proof.
  induction l as [|a l IH]; [reflexivity|]. cbn.
  destruct (p (f a)); cbn; now rewrite IH.
Qed.

Lemma labelled_record_of (x y : double) (name : string) (nf : string * feature) :
  labelled name (record_of x y nf) = String.eqb (fst nf) name.
Proof.
  unfold labelled, record_of. now destruct (tr_backward _ _) as [[? ?]|].
Qed.

Lemma filter_pairs_same (name : string) (fs : list feature) :
  List.filter (fun nf : string * feature => String.eqb (fst nf) name)
              (List.map (pair name) fs)
  = List.map (pair name) fs.
Proof.
  induction fs as [|f fs IH]; [reflexivity|]. cbn.
  now rewrite String.eqb_refl, IH.
Qed.

Lemma filter_pairs_other (name other : string) (fs : list feature) :
  String.eqb other name = false ->
  List.filter (fun nf : string * feature => String.eqb (fst nf) name)
              (List.map (pair other) fs)
  = [].
Proof.
  intros Hne. induction fs as [|f fs IH]; [reflexivity|]. cbn. now rewrite Hne.
Qed.

Lemma filter_layers_none (x y tolerance : double) (name : string) (ls : list layer) :
  ~ In name (List.map get_name ls) ->
  List.filter (fun nf : string * feature => String.eqb (fst nf) name)
    (flat_map (fun l => List.map (pair (get_name l)) (featureset l x y tolerance)) ls)
  = [] /\
  List.find (fun l => String.eqb (get_name l) name) ls = None.
Proof.
  induction ls as [|l ls IH]; intros Hn; [now split|].
  cbn [flat_map List.find List.map] in *.
  assert (Hl : String.eqb (get_name l) name = false).
  { apply String.eqb_neq. intros Heq. apply Hn. now left. }
  destruct IH as [IH1 IH2]; [intros Hin; apply Hn; now right|].
  rewrite List.filter_app, filter_pairs_other, IH1, Hl by exact Hl. now split.
Qed.

(** With layer names that differ, the features scanned under a name are
    those scanned without a name that get this name. *)
Lemma scanned_named (d : merc_tile) (x y tolerance : double) (name : string) :
  name <> EmptyString ->
  NoDup (List.map get_name (tile_layers d)) ->
  scanned d x y tolerance name
  = List.filter (fun nf : string * feature => String.eqb (fst nf) name)
                (scanned d x y tolerance EmptyString).
Proof.
  intros Hname Hnd. unfold scanned.
  destruct (is_empty d); [reflexivity|].
  destruct name as [|c name']; [congruence|].
  cbn [string_empty negb]. unfold layer_reader.
  induction (tile_layers d) as [|l ls IH]; [reflexivity|].
  cbn [flat_map List.find List.map] in *.
  inversion Hnd as [|? ? Hnotin Hnd']; subst.
  rewrite List.filter_app.
  destruct (String.eqb (get_name l) (String c name')) eqn:Hl.
  - apply String.eqb_eq in Hl. rewrite Hl in *.
    destruct (filter_layers_none x y tolerance (String c name') ls Hnotin) as [-> _].
    now rewrite filter_pairs_same, app_nil_r.
  - rewrite filter_pairs_other by exact Hl. cbn [app]. now apply IH.
Qed.

Lemma scan_hits_named (d : merc_tile) (x y tolerance : double) (name : string) :
  name <> EmptyString ->
  NoDup (List.map get_name (tile_layers d)) ->
  scan_hits d x y tolerance name
  = List.filter (labelled name) (scan_hits d x y tolerance EmptyString).
Proof.
  intros Hname Hnd. unfold scan_hits.
  rewrite filter_comm. f_equal.
  rewrite filter_map_swap, (scanned_named d x y tolerance name Hname Hnd).
  f_equal. apply List.filter_ext. intros nf. symmetry. apply labelled_record_of.
Qed.

Lemma _query_sorted_hits (d : merc_tile) (lon lat tolerance : double)
  (name : string) (result : list query_result) :
  std_sort_contract ->
  outcome_of (_query d lon lat tolerance name) = inr result ->
  (is_empty d = true /\ result = []) \/
  (exists x y, is_empty d = false /\ tr_forward lon lat = Some (x, y) /\
               Permutation (scan_hits d x y tolerance name) result).
Proof.
  intros Hsort H.
  destruct (_query_returns d lon lat tolerance name result H)
    as [Hempty | (x & y & He & Hf & ->)]; [now left|right].
  exists x, y. split; [exact He|]. split; [exact Hf|].
  apply Hsort. apply _querySort_strict_weak. intros r Hr.
  eapply within_ordered, scan_hits_within, Hr.
Qed.

End LayerOption.

(** X18. The layer option of [query] is a filter.  On a tile whose
    layers have different names, the records returned for a layer name
    are, up to their order, the records that the query without a layer
    name returns under this name. *)
Theorem query_layer_option_filters `{C : Collaborators} :
  std_sort_contract ->
  forall (d : merc_tile) (lon lat tolerance : double) (name : string)
         (all named : list query_result),
    name <> EmptyString ->
    NoDup (List.map get_name (tile_layers d)) ->
    outcome_of (_query d lon lat tolerance EmptyString) = inr all ->
    outcome_of (_query d lon lat tolerance name) = inr named ->
    Permutation named (List.filter (labelled name) all).
Proof.
  intros Hsort d lon lat tolerance name all named Hname Hnd Hall Hnamed.
  destruct (_query_sorted_hits d lon lat tolerance EmptyString all Hsort Hall)
    as [[He ->] | (x & y & He & Hf & Hpa)];
    destruct (_query_sorted_hits d lon lat tolerance name named Hsort Hnamed)
      as [[He' ->] | (x' & y' & He' & Hf' & Hpn)]; try congruence.
  - constructor.
  - rewrite Hf in Hf'. injection Hf' as <- <-.
    rewrite <- Hpn, (scan_hits_named d x y tolerance name Hname Hnd).
    now apply filter_Permutation_list.
Qed.

(* ===================================================================== *)
(** ** The hits of [queryMany], exactly                                    *)
(* ===================================================================== *)

Section QueryManyExact.
Context `{C : Collaborators}.
Variable tolerance : double.
Variable name : string.
Variable points : list point.

Lemma map_insert_keeps {V : Type} (idx k : nat) (res r : V) (m : gmap nat V) :
  m !! k = Some r -> map_insert idx res m !! k = Some r.
Proof.
  intros Hk. unfold map_insert. destruct (m !! idx) as [old|] eqn:Hold; [exact Hk|].
  rewrite lookup_insert_ne; [exact Hk|]. intros ->. congruence.
Qed.

Lemma map_insert_lookup {V : Type} (idx : nat) (res : V) (m : gmap nat V) :
  map_insert idx res m !! idx = Some (match m !! idx with Some old => old | None => res end).
Proof.
  unfold map_insert. destruct (m !! idx) as [old|] eqn:Hold; [exact Hold|].
  apply lookup_insert_eq.
Qed.

(** The hit lists after one more hit of the point [p]. *)
Lemma add_hit_lookup (p : nat) (hit : query_hit) (hits : gmap nat (list query_hit)) :
  let hits' := match hits !! p with
               | None => map_insert p [hit] hits
               | Some pointHits => <[p := pointHits ++ [hit]]> hits
               end in
  hits' !! p = Some (match hits !! p with Some hs => hs | None => [] end ++ [hit]) /\
  forall q, q <> p -> hits' !! q = hits !! q.
Proof.
  cbv zeta. destruct (hits !! p) as [hs0|] eqn:Hp0.
  - split; [apply lookup_insert_eq|].
    intros q Hq. now rewrite lookup_insert_ne by congruence.
  - split.
    + unfold map_insert. rewrite Hp0. apply lookup_insert_eq.
    + intros q Hq. unfold map_insert. rewrite Hp0.
      now rewrite lookup_insert_ne by congruence.
Qed.

Lemma hits_complete_ext (tested tested' : feature -> nat -> Prop)
  (features : gmap nat query_result) (hits : gmap nat (list query_hit)) :
  (forall f q, tested' f q -> tested f q) ->
  hits_complete tolerance points tested features hits ->
  hits_complete tolerance points tested' features hits.
Proof. intros Hsub Hc f q pt Ht. apply Hc. now apply Hsub. Qed.

(** One query point tested against one feature. *)
Lemma test_point_exact (fs : list feature) (npts : nat) (cur : feature) (idx : nat)
  (pt : point) (p : nat) (has_hit : bool) (features : gmap nat query_result)
  (hits : gmap nat (list query_hit)) (tested : feature -> nat -> Prop) :
  nth_error points p = Some pt ->
  many_inv tolerance name fs npts (if has_hit then S idx else idx) features hits ->
  (has_hit = true -> exists res, features !! idx = Some res /\ qr_feature res = cur) ->
  hits_sound points features hits ->
  hits_complete tolerance points tested features hits ->
  let '(has_hit', features', hits') :=
    test_points tolerance name cur idx [pt] p (has_hit, features, hits) in
  (has_hit' = true -> exists res, features' !! idx = Some res /\ qr_feature res = cur) /\
  hits_sound points features' hits' /\
  hits_complete tolerance points (fun f q => tested f q \/ (f = cur /\ q = p))
                features' hits'.
Proof.
  intros Hpt Hinv Hcur Hsound Hcomplete. cbn [test_points].
  fold (dist_to cur pt). fold (near tolerance cur pt).
  destruct (near tolerance cur pt) eqn:Hnear.
  - set (hit := mk_query_hit (dist_to cur pt) idx).
    set (res := mk_query_result name zero zero zero cur).
    destruct (add_hit_lookup p hit hits) as [Hp Hother].
    set (hits' := match hits !! p with
                  | None => map_insert p [hit] hits
                  | Some pointHits => <[p := pointHits ++ [hit]]> hits
                  end) in *.
    assert (Hidx : exists r, map_insert idx res features !! idx = Some r /\
                             qr_feature r = cur).
    { rewrite map_insert_lookup. destruct (features !! idx) as [old|] eqn:Hold.
      - exists old. split; [reflexivity|].
        destruct has_hit.
        + destruct (Hcur eq_refl) as (r & Hr & Hf). congruence.
        + destruct Hinv as (H1 & _).
          assert (Hlt : (idx < idx)%nat) by (apply H1; now exists old). lia.
      - exists res. now split. }
    assert (Hkeep : forall q hs h, hits !! q = Some hs -> In h hs ->
                      exists hs', hits' !! q = Some hs' /\ In h hs').
    { intros q hs h Hq Hh. destruct (decide (q = p)) as [->|Hne].
      - rewrite Hq in Hp. eexists. split; [exact Hp|].
        apply in_or_app. now left.
      - exists hs. now rewrite (Hother q Hne). }
    split; [intros _; exact Hidx|]. split.
    + intros q hs h Hq Hh.
      assert (Hcase : (exists hs0, hits !! q = Some hs0 /\ In h hs0) \/
                      (q = p /\ h = hit)).
      { destruct (decide (q = p)) as [->|Hne].
        - rewrite Hp in Hq. injection Hq as <-.
          apply in_app_or in Hh. destruct Hh as [Hh | [<- | []]]; [|now right].
          left. destruct (hits !! p) as [hs0|]; [now exists hs0|destruct Hh].
        - left. exists hs. now rewrite <- (Hother q Hne). }
      destruct Hcase as [(hs0 & Hq0 & Hh0) | [-> ->]].
      * destruct (Hsound q hs0 h Hq0 Hh0) as (r & pt' & Hr & Hpt' & Hd).
        exists r, pt'. split; [now apply map_insert_keeps|now split].
      * destruct Hidx as (r & Hr & Hf). exists r, pt.
        split; [exact Hr|]. split; [exact Hpt|]. now rewrite Hf.
    + intros f q pt' [Ht | [-> ->]] Hpt' Hn.
      * destruct (Hcomplete f q pt' Ht Hpt' Hn) as (hs & h & r & Hq & Hh & Hd & Hr & Hf).
        destruct (Hkeep q hs h Hq Hh) as (hs' & Hq' & Hh').
        exists hs', h, r. repeat split; trivial. now apply map_insert_keeps.
      * rewrite Hpt in Hpt'. injection Hpt' as <-.
        destruct Hidx as (r & Hr & Hf).
        eexists _, hit, r. split; [exact Hp|]. split; [apply in_or_app; right; now left|].
        now repeat split.
  - split; [exact Hcur|]. split; [exact Hsound|].
    intros f q pt' [Ht | [-> ->]] Hpt' Hn.
    + now apply (Hcomplete f q pt').
    + rewrite Hpt in Hpt'. injection Hpt' as <-. congruence.
Qed.

(** The query points from the [p]-th on tested against one feature. *)
Lemma test_points_exact (fs : list feature) (cur : feature) (idx : nat) :
  In cur fs ->
  forall (pts : list point) (p : nat) (has_hit : bool)
         (features : gmap nat query_result) (hits : gmap nat (list query_hit))
         (tested : feature -> nat -> Prop),
    (forall i, (i < List.length pts)%nat -> nth_error points (p + i) = nth_error pts i) ->
    (p + List.length pts = List.length points)%nat ->
    many_inv tolerance name fs (List.length points)
             (if has_hit then S idx else idx) features hits ->
    (has_hit = true -> exists res, features !! idx = Some res /\ qr_feature res = cur) ->
    hits_sound points features hits ->
    hits_complete tolerance points tested features hits ->
    let '(has_hit', features', hits') :=
      test_points tolerance name cur idx pts p (has_hit, features, hits) in
    many_inv tolerance name fs (List.length points)
             (if has_hit' then S idx else idx) features' hits' /\
    hits_sound points features' hits' /\
    hits_complete tolerance points
                  (fun f q => tested f q \/ (f = cur /\ (p <= q)%nat)) features' hits'.
Proof.
  intros Hcur. induction pts as [|pt rest IH];
    intros p has_hit features hits tested Hsuffix Hlen Hinv Hc Hsound Hcomplete.
  - cbn [test_points]. split; [exact Hinv|]. split; [exact Hsound|].
    intros f q pt' [Ht | [-> Hq]] Hpt' Hn; [now apply (Hcomplete f q pt')|].
    cbn [List.length] in Hlen.
    assert (Hlt : (q < List.length points)%nat)
      by (apply nth_error_Some; congruence).
    lia.
  - rewrite test_points_cons.
    assert (Hpt : nth_error points p = Some pt).
    { specialize (Hsuffix 0%nat). cbn [List.length nth_error] in Hsuffix.
      rewrite Nat.add_0_r in Hsuffix. apply Hsuffix. lia. }
    assert (Hp : (p < List.length points)%nat) by (cbn [List.length] in Hlen; lia).
    pose proof (test_point_inv tolerance name fs (List.length points) cur idx pt p
                  has_hit features hits Hcur Hp Hinv) as Hstep1.
    pose proof (test_point_exact fs (List.length points) cur idx pt p has_hit
                  features hits tested Hpt Hinv Hc Hsound Hcomplete) as Hstep2.
    destruct (test_points tolerance name cur idx [pt] p (has_hit, features, hits))
      as [[has_hit1 features1] hits1].
    destruct Hstep2 as (Hc1 & Hsound1 & Hcomplete1).
    pose proof (IH (S p) has_hit1 features1 hits1
                  (fun f q => tested f q \/ (f = cur /\ q = p))) as Hrest.
    destruct (test_points tolerance name cur idx rest (S p)
                          (has_hit1, features1, hits1))
      as [[has_hit2 features2] hits2].
    destruct Hrest as (Hinv2 & Hsound2 & Hcomplete2); trivial.
    + intros i Hi. specialize (Hsuffix (S i)). cbn [List.length nth_error] in Hsuffix.
      rewrite <- Hsuffix by lia. f_equal. lia.
    + cbn [List.length] in Hlen. lia.
    + split; [exact Hinv2|]. split; [exact Hsound2|].
      eapply hits_complete_ext; [|exact Hcomplete2].
      intros f q [Ht | [-> Hq]]; [left; now left|].
      destruct (decide (q = p)) as [->|Hne]; [left; right; now split|].
      right. split; [reflexivity|lia].
Qed.

(** All features of the featureset. *)
Lemma collect_hits_exact (fs : list feature) :
  forall (rest : list feature) (idx : nat)
         (features : gmap nat query_result) (hits : gmap nat (list query_hit))
         (tested : feature -> nat -> Prop),
    incl rest fs ->
    many_inv tolerance name fs (List.length points) idx features hits ->
    hits_sound points features hits ->
    hits_complete tolerance points tested features hits ->
    let '(features', hits') :=
      collect_hits tolerance name points rest idx features hits in
    (exists n, many_inv tolerance name fs (List.length points) n features' hits') /\
    hits_sound points features' hits' /\
    hits_complete tolerance points (fun f q => tested f q \/ In f rest) features' hits'.
Proof.
  induction rest as [|cur rest IH];
    intros idx features hits tested Hincl Hinv Hsound Hcomplete.
  - cbn [collect_hits]. split; [now exists idx|]. split; [exact Hsound|].
    eapply hits_complete_ext; [|exact Hcomplete]. intros f q [Ht | []]. exact Ht.
  - cbn [collect_hits].
    pose proof (test_points_exact fs cur idx (Hincl cur (or_introl eq_refl))
                  points 0%nat false features hits tested) as Hstep.
    destruct (test_points tolerance name cur idx points 0 (false, features, hits))
      as [[has_hit1 features1] hits1].
    destruct Hstep as (Hinv1 & Hsound1 & Hcomplete1); trivial; try discriminate.
    pose proof (IH (if has_hit1 then S idx else idx) features1 hits1
                  (fun f q => tested f q \/ (f = cur /\ (0 <= q)%nat))) as Hrest.
    destruct (collect_hits tolerance name points rest
                           (if has_hit1 then S idx else idx) features1 hits1)
      as [features2 hits2].
    destruct Hrest as (Hinv2 & Hsound2 & Hcomplete2); trivial.
    + intros f Hf. apply Hincl. now right.
    + split; [exact Hinv2|]. split; [exact Hsound2|].
      eapply hits_complete_ext; [|exact Hcomplete2].
      intros f q [Ht | [<- | Hin]].
      * left. now left.
      * left. right. split; [reflexivity|lia].
      * now right.
Qed.

End QueryManyExact.

Section QueryManyReturns.
Context `{C : Collaborators}.

Lemma project_points_projected (qs : list query_lonlat) :
  forall (bbox : box2d) (points : list point) t bbox' points',
    project_points qs bbox points = (t, inr (bbox', points')) ->
    exists new, points' = points ++ new /\ projected qs new /\
                bbox' = bounding_box bbox new.
Proof.
  induction qs as [|q rest IH]; intros bbox points t bbox' points' H.
  - cbn in H. inversion H; subst. exists []. rewrite app_nil_r.
    split; [reflexivity|]. split; [constructor|reflexivity].
  - cbn [project_points] in H.
    destruct (tr_forward (lon q) (lat q)) as [[x y]|] eqn:Hq; [|discriminate].
    apply IH in H. destruct H as (new & -> & Hproj & ->).
    exists (mk_point x y :: new). rewrite <- app_assoc. split; [reflexivity|].
    split; [constructor; [exact Hq|exact Hproj]|reflexivity].
Qed.

(** What [_queryMany] returns, with the hits before they are sorted. *)
Lemma _queryMany_returns_exact (d : merc_tile) (qs : list query_lonlat)
  (tolerance : double) (name : string) (fields : list string)
  (t : list event) (result : queryMany_result) :
  _queryMany d qs tolerance name fields = (t, inr result) ->
  exists l points n hits,
    layer_reader name d = Some l /\
    projected qs points /\
    many_inv tolerance (get_name l) (queried_features l points tolerance fields)
             (List.length points) n (qm_features result) hits /\
    hits_sound points (qm_features result) hits /\
    hits_complete tolerance points
      (fun f q => In f (queried_features l points tolerance fields))
      (qm_features result) hits /\
    qm_hits result = fmap (std_sort _ _queryManySort) hits.
Proof.
  unfold _queryMany. intros H.
  destruct (layer_reader name d) as [l|]; [|discriminate].
  unfold bind in H.
  destruct (project_points qs box2d_default []) as [t1 [e|[bbox points]]] eqn:Hproj;
    [discriminate|].
  apply project_points_projected in Hproj.
  destruct Hproj as (new & Hpts & Hprojected & ->). cbn [app] in Hpts. subst new.
  cbv zeta in H. cbn [call] in H.
  exists l, points. unfold queried_features.
  assert (Hsound0 : hits_sound points (empty : gmap nat query_result)
                               (empty : gmap nat (list query_hit))).
  { intros q hs h Hq. rewrite lookup_empty in Hq. discriminate. }
  assert (Hcomplete0 : hits_complete tolerance points (fun _ _ => False)
                                     (empty : gmap nat query_result)
                                     (empty : gmap nat (list query_hit))).
  { intros f q pt []. }
  destruct (ds_features l (box2d_pad (bounding_box box2d_default points) tolerance)
                        (match fields with [] => layer_fields l | _ => fields end))
    as [fs|].
  - pose proof (collect_hits_exact tolerance (get_name l) points fs fs 0%nat
                  empty empty (fun _ _ => False) (incl_refl fs)
                  (many_inv_empty tolerance (get_name l) fs (List.length points))
                  Hsound0 Hcomplete0) as Hinv.
    destruct (collect_hits tolerance (get_name l) points fs 0 empty empty)
      as [features hits].
    destruct Hinv as ([n Hinv] & Hsound & Hcomplete). cbn in H. injection H as _ <-.
    exists n, hits. cbn [qm_features qm_hits].
    repeat (split; [first [reflexivity | assumption]|]).
    split; [|reflexivity].
    eapply hits_complete_ext; [|exact Hcomplete]. intros f q Hf. now right.
  - cbn in H. injection H as _ <-.
    exists 0%nat, empty. cbn [qm_features qm_hits].
    split; [reflexivity|]. split; [exact Hprojected|].
    split; [apply many_inv_empty|]. split; [exact Hsound0|].
    split; [intros f q pt []|now rewrite fmap_empty].
Qed.

End QueryManyReturns.

(** X20. The hits of [queryMany] are exactly the pairs of a query point
    and a feature that are near each other.  With the query points
    projected and the features the datasource of the layer gives for
    their padded box: every hit in the list of a point refers to an entry
    of the feature table and holds the distance from the feature of that
    entry to the point; and for every point and every feature of the
    featureset at a distance [d] from it with [0 <= d <= tolerance], the
    list of the point holds a hit with this distance whose entry in the
    table is that feature. *)
Theorem queryMany_hits_exact `{C : Collaborators} :
  std_sort_contract ->
  forall (d : merc_tile) (qs : list query_lonlat) (tolerance : double)
         (name : string) (fields : list string) t result,
    _queryMany d qs tolerance name fields = (t, inr result) ->
    exists l points,
      layer_reader name d = Some l /\
      projected qs points /\
      hits_sound points (qm_features result) (qm_hits result) /\
      hits_complete tolerance points
        (fun f q => In f (queried_features l points tolerance fields))
        (qm_features result) (qm_hits result).
Proof.
  intros Hsort d qs tolerance name fields t result H.
  destruct (_queryMany_returns_exact d qs tolerance name fields t result H)
    as (l & points & n & hits & Hl & Hproj & (_ & _ & H3 & _) & Hsound & Hcomplete & Hhits).
  assert (Hperm : forall p hs0, hits !! p = Some hs0 ->
                    Permutation hs0 (std_sort _ _queryManySort hs0)).
  { intros p hs0 Hp0. apply Hsort.
    apply (_queryManySort_strict_weak tolerance).
    intros h Hh. destruct (H3 p hs0 Hp0) as (_ & _ & Hall).
    now destruct (Hall h Hh). }
  exists l, points. split; [exact Hl|]. split; [exact Hproj|]. split.
  - intros q hs h Hq Hh. rewrite Hhits in Hq. apply sorted_hits_lookup in Hq.
    destruct Hq as (hs0 & Hq0 & ->).
    apply (Hsound q hs0 h Hq0).
    eapply Permutation_in; [symmetry; exact (Hperm q hs0 Hq0)|exact Hh].
  - intros f q pt Hf Hpt Hn.
    destruct (Hcomplete f q pt Hf Hpt Hn) as (hs0 & h & r & Hq0 & Hh & Hd & Hr & Hfr).
    exists (std_sort _ _queryManySort hs0), h, r.
    rewrite Hhits, lookup_fmap, Hq0. cbn. repeat split; trivial.
    eapply Permutation_in; [exact (Hperm q hs0 Hq0)|exact Hh].
Qed.

(* ===================================================================== *)
(** ** The writers of GeoJSON                                              *)
(* ===================================================================== *)

Section StringFacts.

Lemma append_assoc (a b c : string) : (a +:+ b) +:+ c = a +:+ (b +:+ c).
Proof.
  induction a as [|ch a IH]; [reflexivity|].
  change (String ch ((a +:+ b) +:+ c) = String ch (a +:+ (b +:+ c))).
  now rewrite IH.
Qed.

Lemma append_nil_r (a : string) : a +:+ EmptyString = a.
Proof.
  induction a as [|ch a IH]; [reflexivity|].
  change (String ch (a +:+ EmptyString) = String ch a).
  now rewrite IH.
Qed.

Lemma append_nil_l (a : string) : EmptyString +:+ a = a.
Proof. reflexivity. Qed.

Lemma concat_cons2 (sep a b : string) (l : list string) :
  String.concat sep (a :: b :: l) = a +:+ sep +:+ String.concat sep (b :: l).
Proof. reflexivity. Qed.

Lemma lead_join (sep : string) (first : bool) (result a : string) (l : list string) :
  ((if first then result else result +:+ sep) +:+ a)
    +:+ lead sep false l +:+ String.concat sep l
  = result +:+ lead sep first (a :: l) +:+ String.concat sep (a :: l).
Proof.
  destruct l as [|b l]; [|rewrite concat_cons2];
    destruct first; cbn [lead String.concat];
    rewrite ?append_assoc, ?append_nil_r; reflexivity.
Qed.

End StringFacts.

Section GeoJSONFacts.
Context `{G : GeoJSON}.

Lemma geojson_features_join (fs : list feature) :
  forall (strs : list string) (first : bool) (result : string),
    feature_strings fs = Some strs ->
    geojson_features fs first result
    = inr (first && negb (has_features (EmptyString, strs)),
           result +:+ lead feature_separator first strs +:+ joined_features strs).
Proof.
  induction fs as [|f rest IH]; intros strs first result Hs.
  - injection Hs as <-. cbn. destruct first; cbn; now rewrite ?append_nil_r.
  - cbn [feature_strings] in Hs. cbn [geojson_features].
    destruct (to_geojson f) as [s|]; [|discriminate].
    destruct (feature_strings rest) as [ss|]; [|discriminate].
    injection Hs as <-.
    rewrite (IH ss false _ eq_refl). cbn [andb has_features snd negb].
    rewrite andb_false_r. f_equal. f_equal.
    unfold joined_features. apply lead_join.
Qed.

Lemma geojson_features_fails (fs : list feature) :
  forall (first : bool) (result : string),
    feature_strings fs = None ->
    geojson_features fs first result = inl geojson_failure.
Proof.
  induction fs as [|f rest IH]; intros first result Hs; [discriminate|].
  cbn [feature_strings] in Hs. cbn [geojson_features].
  destruct (to_geojson f) as [s|]; [|reflexivity].
  destruct (feature_strings rest) as [ss|]; [discriminate|].
  now apply IH.
Qed.

Lemma layer_to_geojson_join (x y z : Z) (layer_msg : layer) (strs : list string) :
  layer_body x y z layer_msg = Some strs ->
  layer_to_geojson layer_msg EmptyString x y z
  = inr (has_features (get_name layer_msg, strs), joined_features strs).
Proof.
  unfold layer_body, layer_to_geojson. intros Hs.
  destruct (features_everywhere layer_msg x y z) as [fs|].
  - rewrite (geojson_features_join fs strs true EmptyString Hs).
    cbn. now destruct strs.
  - injection Hs as <-. reflexivity.
Qed.

Lemma layer_to_geojson_fails (x y z : Z) (layer_msg : layer) :
  layer_body x y z layer_msg = None ->
  layer_to_geojson layer_msg EmptyString x y z = inl geojson_failure.
Proof.
  unfold layer_body, layer_to_geojson. intros Hs.
  destruct (features_everywhere layer_msg x y z) as [fs|]; [|discriminate].
  now rewrite (geojson_features_fails fs true EmptyString Hs).
Qed.

Lemma layer_strings_cons (x y z : Z) (layer_msg : layer) (rest : list layer) :
  layer_strings x y z (layer_msg :: rest)
  = match layer_body x y z layer_msg, layer_strings x y z rest with
    | Some strs, Some others => Some ((get_name layer_msg, strs) :: others)
    | _, _ => None
    end.
Proof. reflexivity. Qed.

Lemma write_geojson_array_layers_join (x y z : Z) (layers : list layer) :
  forall (named : list (string * list string)) (first : bool) (result : string),
    layer_strings x y z layers = Some named ->
    write_geojson_array_layers x y z layers first result
    = inr (result +:+ lead "," first named
                  +:+ String.concat "," (List.map layer_collection named)).
Proof.
  induction layers as [|l rest IH]; intros named first result Hs.
  - injection Hs as <-. cbn. destruct first; cbn; now rewrite ?append_nil_r.
  - rewrite layer_strings_cons in Hs. cbn [write_geojson_array_layers].
    destruct (layer_body x y z l) as [strs|] eqn:Hb; [|discriminate].
    destruct (layer_strings x y z rest) as [others|]; [|discriminate].
    injection Hs as <-. cbv zeta.
    rewrite (layer_to_geojson_join x y z l strs Hb).
    rewrite (IH others false _ eq_refl). f_equal.
    cbn [List.map].
    assert (Hfirst : lead "," first ((get_name l, strs) :: others)
                     = lead "," first (layer_collection (get_name l, strs)
                                       :: List.map layer_collection others))
      by now destruct first.
    rewrite Hfirst.
    rewrite <- (lead_join "," first result (layer_collection (get_name l, strs))
                          (List.map layer_collection others)).
    assert (Hlead : lead "," false others
                    = lead "," false (List.map layer_collection others))
      by now destruct others.
    rewrite Hlead. f_equal.
    unfold layer_collection, has_features. cbn [fst snd].
    destruct strs as [|s strs]; cbn [joined_features String.concat];
      destruct first; rewrite ?append_assoc; reflexivity.
Qed.

Lemma write_geojson_all_layers_join (x y z : Z) (layers : list layer) :
  forall (named : list (string * list string)) (first : bool) (result : string),
    layer_strings x y z layers = Some named ->
    write_geojson_all_layers x y z layers first result
    = inr (result
             +:+ lead "," first (List.filter has_features named)
             +:+ String.concat ","
                   (List.map (fun nb => joined_features (snd nb))
                             (List.filter has_features named))).
Proof.
  induction layers as [|l rest IH]; intros named first result Hs.
  - injection Hs as <-. cbn. destruct first; cbn; now rewrite ?append_nil_r.
  - rewrite layer_strings_cons in Hs. cbn [write_geojson_all_layers].
    destruct (layer_body x y z l) as [strs|] eqn:Hb; [|discriminate].
    destruct (layer_strings x y z rest) as [others|]; [|discriminate].
    injection Hs as <-.
    rewrite (layer_to_geojson_join x y z l strs Hb).
    cbn [List.filter].
    destruct (has_features (get_name l, strs)); [|now apply IH].
    cbv zeta. rewrite (IH others false _ eq_refl). f_equal.
    cbn [List.map snd].
    assert (Hfirst : lead "," first ((get_name l, strs) :: List.filter has_features others)
                     = lead "," first
                            (joined_features strs
                             :: List.map (fun nb : string * list string =>
                                            joined_features (snd nb))
                                         (List.filter has_features others)))
      by now destruct first.
    rewrite Hfirst.
    rewrite <- (lead_join "," first result (joined_features strs)
                  (List.map (fun nb => joined_features (snd nb))
                            (List.filter has_features others))).
    assert (Hlead : lead "," false (List.filter has_features others)
                    = lead "," false
                           (List.map (fun nb : string * list string =>
                                        joined_features (snd nb))
                                     (List.filter has_features others)))
      by now destruct (List.filter has_features others).
    now rewrite Hlead.
Qed.

Lemma write_geojson_layers_fail (x y z : Z) (layers : list layer) :
  forall (first : bool) (result : string),
    layer_strings x y z layers = None ->
    write_geojson_all_layers x y z layers first result = inl geojson_failure /\
    write_geojson_array_layers x y z layers first result = inl geojson_failure.
Proof.
  induction layers as [|l rest IH]; intros first result Hs; [discriminate|].
  rewrite layer_strings_cons in Hs.
  cbn [write_geojson_all_layers write_geojson_array_layers].
  destruct (layer_body x y z l) as [strs|] eqn:Hb.
  - rewrite (layer_to_geojson_join x y z l strs Hb).
    destruct (layer_strings x y z rest) as [others|]; [discriminate|].
    cbv zeta. split.
    + destruct (has_features _); now apply IH.
    + now apply IH.
  - rewrite (layer_to_geojson_fails x y z l Hb). now split.
Qed.

End GeoJSONFacts.

(** X19. What [write_geojson_all] and [write_geojson_array] write for a
    tile.  When every feature of every layer has a GeoJSON string, the
    former writes one collection whose features are those of the layers
    that have any, the layers joined by a comma and the features of a
    layer by a line feed and a comma, a layer without features leaving no
    trace; the latter writes an array with one named collection for every
    layer, in the order of the tile, a layer without features included.
    Neither writes a separator at the start, at the end or twice.  When
    some feature has no GeoJSON string, both throw "Failed to generate
    GeoJSON geometry". *)
Theorem geojson_writers_join `{G : GeoJSON} :
  forall v : merc_tile,
    (forall named,
        layer_strings (tile_x v) (tile_y v) (tile_z v) (tile_layers v) = Some named ->
        write_geojson_all EmptyString v
        = inr (all_open
                 +:+ String.concat ","
                       (List.map (fun nb => joined_features (snd nb))
                                 (List.filter has_features named))
                 +:+ collection_close) /\
        write_geojson_array EmptyString v
        = inr ("[" +:+ String.concat "," (List.map layer_collection named) +:+ "]")) /\
    (layer_strings (tile_x v) (tile_y v) (tile_z v) (tile_layers v) = None ->
     write_geojson_all EmptyString v = inl geojson_failure /\
     write_geojson_array EmptyString v = inl geojson_failure).
Proof.
  intros v. split.
  - intros named Hs. unfold write_geojson_all, write_geojson_array.
    rewrite (write_geojson_all_layers_join _ _ _ _ named true _ Hs).
    rewrite (write_geojson_array_layers_join _ _ _ _ named true _ Hs).
    cbn [lead]. split; f_equal; rewrite ?append_assoc; reflexivity.
  - intros Hs. unfold write_geojson_all, write_geojson_array.
    destruct (write_geojson_layers_fail _ _ _ _ true (EmptyString +:+ all_open) Hs)
      as [-> _].
    destruct (write_geojson_layers_fail _ _ _ _ true (EmptyString +:+ "[") Hs)
      as [_ ->].
    now split.
Qed.

(* ===================================================================== *)
(** ** The further properties at concrete cases                            *)
(* ===================================================================== *)

Section CaseFacts.

(** The conversion of an integer to a number is one to one on 0 .. 3. *)
Lemma Number_of_Z_inj_small (a b : Z) :
  0 <= a <= 3 -> 0 <= b <= 3 -> Number_of_Z a = Number_of_Z b -> a = b.
Proof.
  intros Ha Hb H.
  assert (Hk : Prim2SF (Number_of_Z a) = Prim2SF (Number_of_Z b)) by now rewrite H.
  assert (Ha' : a = 0 \/ a = 1 \/ a = 2 \/ a = 3) by lia.
  assert (Hb' : b = 0 \/ b = 1 \/ b = 2 \/ b = 3) by lia.
  destruct Ha' as [-> | [-> | [-> | ->]]], Hb' as [-> | [-> | [-> | ->]]];
    try reflexivity; vm_compute in Hk; discriminate Hk.
Qed.

End CaseFacts.

Import Cases.

(** X1 at [hamlets], seen from the origin: the nearer of the two points
    is reached. *)
Lemma multi_geometry_nearest_member_witness :
  reached (path_to_point_distance (C := Reference.env) hamlets 0 0) = true /\
  leb (distance (path_to_point_distance (C := Reference.env) hamlets 0 0))
      (distance (path_to_point_distance (C := Reference.env)
                                        (geometry_point (pt 0 1)) 0 0)) = true.
Proof.
  destruct (multi_geometry_nearest_member (C := Reference.env) 0 0 hamlets
              [geometry_point (pt 3 0); geometry_point (pt 0 1)] eq_refl)
    as [_ H].
  destruct H as (Hr & _ & Hmin).
  - exists (geometry_point (pt 0 1)). split; [right; left; reflexivity|].
    vm_compute. reflexivity.
  - split; [exact Hr|]. apply Hmin; [right; left; reflexivity|].
    vm_compute. reflexivity.
Defined.

(** X2 at [lane], seen from the point (1, 0). *)
Lemma line_string_nearest_segment_witness :
  reached (p2p_line_string (C := Reference.env) 1 0 lane) = true.
Proof.
  destruct (line_string_nearest_segment (C := Reference.env) 1 0 lane)
    as (_ & _ & H).
  apply (H (pt 0 1, pt 2 1)); [left; reflexivity|].
  vm_compute. reflexivity.
Defined.

(** X3 on [tile_places] with the tolerance -1. *)
Lemma query_negative_tolerance_empty_witness :
  outcome_of (_query (C := Reference.env) tile_places 0 0 (-1) "") = inr [].
Proof.
  assert (H : exists result,
             outcome_of (_query (C := Reference.env) tile_places 0 0 (-1) "")
             = inr result) by (eexists; vm_compute; reflexivity).
  destruct H as [result H]. rewrite H. f_equal.
  apply (query_negative_tolerance_empty (C := Reference.env)
           ReferenceFacts.env_std_sort_contract tile_places 0 0 (-1) "" result);
    [reflexivity|exact H].
Defined.

(** X4 on [tile_places], for the record of [place_b]. *)
Lemma query_records_labelled_witness :
  exists x y l,
    tr_forward (Collaborators := Reference.env) 0 0 = Some (x, y) /\
    In (qr_feature hit_b) (featureset (C := Reference.env) l x y 2) /\
    (EmptyString <> EmptyString ->
     layer_reader EmptyString tile_places = Some l /\ qr_layer hit_b = EmptyString) /\
    (EmptyString = EmptyString ->
     In l (tile_layers tile_places) /\ qr_layer hit_b = get_name l).
Proof.
  apply (query_records_labelled (C := Reference.env)
           ReferenceFacts.env_std_sort_contract tile_places 0 0 2 "" [hit_b; hit_a]).
  - vm_compute. reflexivity.
  - left. reflexivity.
Defined.

(** X5 on [tile_places], queried at [place_a] without options. *)
Lemma query_default_tolerance_exact_witness :
  PrimFloat.eqb (qr_distance at_a) zero = true.
Proof.
  apply (query_default_tolerance_exact (C := Reference.env)
           ReferenceFacts.env_std_sort_contract tile_places
           [JsNumber 1; JsNumber 0] [at_a]).
  - left. reflexivity.
  - vm_compute. reflexivity.
  - left. reflexivity.
Defined.

(** X6 on [tile_places], queried at the origin with the tolerance 2. *)
Lemma queryMany_hit_lists_sorted_witness :
  exists t result,
    _queryMany (C := Reference.env) tile_places [mk_query_lonlat 0 0] 2 "places" []
    = (t, inr result) /\
    forall p hs,
      qm_hits result !! p = Some hs ->
      (p < 1)%nat /\ hs <> [] /\
      (forall h, In h hs -> hit_within 2 h = true) /\
      StronglySorted (fun a b => leb (hit_distance a) (hit_distance b) = true) hs.
Proof.
  destruct (_queryMany (C := Reference.env) tile_places [mk_query_lonlat 0 0] 2
                       "places" []) as [t [e|result]] eqn:E.
  - vm_compute in E. discriminate E.
  - exists t, result. split; [reflexivity|].
    exact (queryMany_hit_lists_sorted (C := Reference.env)
             ReferenceFacts.env_std_sort_contract tile_places
             [mk_query_lonlat 0 0] 2 "places" [] t result E).
Defined.

(** X7 on [tile_places], queried at the origin with the tolerance 2. *)
Lemma queryMany_tables_consistent_witness :
  exists t result,
    _queryMany (C := Reference.env) tile_places [mk_query_lonlat 0 0] 2 "places" []
    = (t, inr result) /\
    exists l n,
      layer_reader "places" tile_places = Some l /\
      (forall k, is_Some (qm_features result !! k) <-> (k < n)%nat) /\
      (forall k res, qm_features result !! k = Some res ->
                     qr_layer res = get_name l /\ qr_distance res = zero /\
                     exists p hs h, qm_hits result !! p = Some hs /\ In h hs /\
                                    hit_feature_id h = k) /\
      (forall p hs h, qm_hits result !! p = Some hs -> In h hs ->
                      is_Some (qm_features result !! hit_feature_id h)).
Proof.
  destruct (_queryMany (C := Reference.env) tile_places [mk_query_lonlat 0 0] 2
                       "places" []) as [t [e|result]] eqn:E.
  - vm_compute in E. discriminate E.
  - exists t, result. split; [reflexivity|].
    exact (queryMany_tables_consistent (C := Reference.env)
             ReferenceFacts.env_std_sort_contract tile_places
             [mk_query_lonlat 0 0] 2 "places" [] t result E).
Defined.

(** X8 on [tile_places] with the tolerance -1. *)
Lemma queryMany_nothing_to_match_witness :
  exists t result,
    _queryMany (C := Reference.env) tile_places [mk_query_lonlat 0 0] (-1) "places" []
    = (t, inr result) /\
    qm_features result = empty /\ qm_hits result = empty.
Proof.
  destruct (_queryMany (C := Reference.env) tile_places [mk_query_lonlat 0 0] (-1)
                       "places" []) as [t [e|result]] eqn:E.
  - vm_compute in E. discriminate E.
  - exists t, result. split; [reflexivity|].
    apply (queryMany_nothing_to_match (C := Reference.env) tile_places
             [mk_query_lonlat 0 0] (-1) "places" [] t result);
      [right; reflexivity|exact E].
Defined.

(** X9 for two bytes added to, or set on, [tile_places]. *)
Lemma addData_setData_async_as_sync_witness :
  addData (C := Reference.env) tile_places [two_bytes; callback]
  = (fst (_addDataSync (C := Reference.env) tile_places [two_bytes]),
     deferred callback (snd (_addDataSync (C := Reference.env) tile_places [two_bytes])))
  /\
  setData (C := Reference.env) tile_places [two_bytes; callback]
  = (fst (_setDataSync (C := Reference.env) tile_places [two_bytes]),
     deferred callback (snd (_setDataSync (C := Reference.env) tile_places [two_bytes]))).
Proof.
  apply (addData_setData_async_as_sync (C := Reference.env) tile_places
           [two_bytes] callback).
  - discriminate.
  - reflexivity.
Defined.

(** X10: [clear] handed a number leaves [tile_places] as it is. *)
Lemma type_error_leaves_tile_witness :
  exists msg,
    VectorTile_clear (C := Reference.env) tile_places [JsNumber 1]
    = (tile_places, Threw (TypeError msg)).
Proof.
  destruct (type_error_leaves_tile (C := Reference.env) tile_places [JsNumber 1])
    as (_ & _ & _ & H).
  destruct (H eq_refl) as [_ Hclear].
  apply Hclear. discriminate.
Defined.

(** X11 on [tile_places], without options. *)
Lemma getData_async_plain_as_sync_witness :
  (exists v, _getDataSync (C := Reference.env) tile_places [] = ([], inr v) /\
             getData (C := Reference.env) tile_places [callback]
             = ([], CalledBack callback (inr v))) \/
  (kMaxLength (Collaborators := Reference.env) <= Z.of_nat (tile_raw_size tile_places) /\
   _getDataSync (C := Reference.env) tile_places []
   = ([], inl (TypeError (too_large_error (tile_raw_size tile_places)))) /\
   getData (C := Reference.env) tile_places [callback]
   = ([], CalledBack callback
                     (inl (Error (too_large_error (tile_raw_size tile_places)))))).
Proof.
  destruct (getData_async_plain_as_sync (C := Reference.env) tile_places []
              callback eq_refl) as [_ H].
  apply (H (mk_getData_options false Z_DEFAULT_COMPRESSION Z_DEFAULT_STRATEGY));
    reflexivity.
Defined.

(** X12 on a new tile: the form with a callback compresses no bytes, the
    form without makes no call. *)
Lemma getData_async_gzip_always_compresses_witness :
  fst (getData (C := Reference.env) (new_merc_tile 0 0 0 4096 128)
               [gzip_options; callback])
  = [ev_zlib_compress 0 9 Z_RLE] /\
  fst (_getDataSync (C := Reference.env) (new_merc_tile 0 0 0 4096 128) [gzip_options])
  = [].
Proof.
  destruct (getData_async_gzip_always_compresses (C := Reference.env)
              (new_merc_tile 0 0 0 4096 128) [gzip_options] callback
              (mk_getData_options true 9 Z_RLE) eq_refl eq_refl eq_refl)
    as (Hcall & _ & _ & Hsync).
  split; [exact Hcall|].
  apply Hsync. left. vm_compute. intros H. discriminate H.
Defined.

(** X13 for [new VectorTile(1, 0, 0, {buffer_size: -64})]. *)
Lemma New_tile_well_formed_witness :
  0 < tile_size (new_merc_tile 0 0 1 4096 (-64))
      + 2 * buffer_size (new_merc_tile 0 0 1 4096 (-64)).
Proof.
  destruct (New_tile_well_formed true
              [JsNumber 1; JsNumber 0; JsNumber 0; negative_buffer]
              (new_merc_tile 0 0 1 4096 (-64)))
    as (_ & _ & _ & _ & _ & _ & _ & H & _).
  - vm_compute. reflexivity.
  - apply H. cbn [buffer_size new_merc_tile]. lia.
Defined.

(** X15 for a line of two points with coordinates in 0 .. 3. *)
Lemma geometry_array_tells_apart_witness : path = path'.
Proof.
  apply (geometry_array_tells_apart Number_of_Z (fun z => 0 <= z <= 3)
           Number_of_Z_inj_small path path').
  - exact I.
  - exact I.
  - repeat constructor; cbn; lia.
  - repeat constructor; cbn; lia.
  - reflexivity.
  - reflexivity.
Defined.

(** X16 with a projection that refuses a NaN. *)
Lemma unprojectable_point_fails_witness :
  _query (C := guarded_env) tile_places nan 0 2 "" = ([], inl reproject_error) /\
  _queryMany (C := guarded_env) tile_places
             [mk_query_lonlat 0 0; mk_query_lonlat nan 0] 2 "places" []
  = ([], inl reproject_error).
Proof.
  destruct (unprojectable_point_fails (C := guarded_env) tile_places 2 "places")
    as [_ Hmany].
  destruct (unprojectable_point_fails (C := guarded_env) tile_places 2 "")
    as [Hone _].
  split.
  - apply Hone; reflexivity.
  - apply (Hmany _ _ places); [reflexivity|].
    exists (mk_query_lonlat nan 0). split; [right; left; reflexivity|reflexivity].
Defined.

(** X17 on [tile_places], queried at the origin. *)
Lemma query_async_as_sync_witness :
  fst (query (C := Reference.env) tile_places [JsNumber 0; JsNumber 0; callback])
  = fst (query (C := Reference.env) tile_places [JsNumber 0; JsNumber 0]) /\
  async_of callback
           (snd (query (C := Reference.env) tile_places [JsNumber 0; JsNumber 0]))
           (snd (query (C := Reference.env) tile_places
                       [JsNumber 0; JsNumber 0; callback])).
Proof.
  destruct (query_async_as_sync (C := Reference.env) tile_places
              [JsNumber 0; JsNumber 0] callback eq_refl eq_refl) as [H _].
  exact H.
Defined.

(** X18 on [tile_town], queried at (1, 1) with the tolerance 2, for its
    layer places. *)
Lemma query_layer_option_filters_witness :
  Permutation [hit_b; hit_a]
              (List.filter (labelled "places") [in_parcel; hit_b; hit_a]).
Proof.
  apply (query_layer_option_filters (C := Reference.env)
           ReferenceFacts.env_std_sort_contract tile_town 1 1 2 "places"
           [in_parcel; hit_b; hit_a] [hit_b; hit_a]).
  - discriminate.
  - repeat constructor; cbn; intuition discriminate.
  - vm_compute. reflexivity.
  - vm_compute. reflexivity.
Defined.

(** X19 on [tile_town], each feature written as its id. *)
Lemma geojson_writers_join_witness :
  write_geojson_all (G := geojson_env) EmptyString tile_town
  = inr (all_open
           +:+ String.concat "," [joined_features ["7"]; joined_features ["1"; "2"; "3"]]
           +:+ collection_close) /\
  write_geojson_array (G := geojson_env) EmptyString tile_town
  = inr ("[" +:+ String.concat ","
                   [layer_collection ("parcels", ["7"]);
                    layer_collection ("places", ["1"; "2"; "3"])]
             +:+ "]").
Proof.
  destruct (geojson_writers_join (G := geojson_env) tile_town) as [H _].
  apply (H [("parcels"%string, ["7"%string]);
            ("places"%string, ["1"%string; "2"%string; "3"%string])]).
  vm_compute. reflexivity.
Defined.

(** X20 on [tile_places], queried at the origin with the tolerance 2. *)
Lemma queryMany_hits_exact_witness :
  exists t result,
    _queryMany (C := Reference.env) tile_places [mk_query_lonlat 0 0] 2 "places" []
    = (t, inr result) /\
    exists l points,
      layer_reader "places" tile_places = Some l /\
      projected (C := Reference.env) [mk_query_lonlat 0 0] points /\
      hits_sound (C := Reference.env) points (qm_features result) (qm_hits result) /\
      hits_complete (C := Reference.env) 2 points
        (fun f q => In f (queried_features (C := Reference.env) l points 2 []))
        (qm_features result) (qm_hits result).
Proof.
  destruct (_queryMany (C := Reference.env) tile_places [mk_query_lonlat 0 0] 2
                       "places" []) as [t [e|result]] eqn:E.
  - vm_compute in E. discriminate E.
  - exists t, result. split; [reflexivity|].
    exact (queryMany_hits_exact (C := Reference.env)
             ReferenceFacts.env_std_sort_contract tile_places
             [mk_query_lonlat 0 0] 2 "places" [] t result E).
Defined.
